(** * simple-pubsub: the publish/subscribe service of [src/app.ts]

    A shallow embedding of [PubSubService] (the subscriber registry, the event
    queue and the [isProcessing] guard), of the three subscribers of the
    vending-machine example, of the wiring done by [normalCase] and of the
    events it generates and publishes, followed by the properties of the
    dispatcher, of the subscribers and of the run of [normalCase]. *)

From stdpp Require Import gmap strings list fin_maps.
From Stdlib Require Import ZArith.
From Stdlib Require Floats.PrimFloat.

Local Open Scope Z_scope.
Local Open Scope nat_scope.

(** ** JavaScript [Set]

    [Set.prototype.forEach] walks the [[SetData]] list of the set by index
    and reads the list again at every step, so what a callback adds or
    deletes is seen by the walk in progress.  The list is modelled as
    ECMAScript specifies it: [delete] leaves an empty slot in place (here
    [None]), [add] appends when no live entry holds the value. *)

Abbreviation JSSet A := (list (option A)).

Section JSSet.
Context {A : Type} `{EqDecision A}.

(** [Set.prototype.has] *)
Definition set_has (x : A) (s : JSSet A) : bool := bool_decide (Some x ∈ s).

(** [Set.prototype.add] *)
Definition set_add (x : A) (s : JSSet A) : JSSet A :=
  if set_has x s then s else s ++ [Some x].

(** [Set.prototype.delete]: the first live entry holding [x] is emptied. *)
Fixpoint set_delete (x : A) (s : JSSet A) : JSSet A :=
  match s with
  | [] => []
  | e :: s' => if decide (e = Some x) then None :: s' else e :: set_delete x s'
  end.

(** The values held by a set, in insertion order. *)
Definition live (s : JSSet A) : list A := omap (fun e => e) s.

(** How many times [x] occurs in [l]. *)
Definition occurrences (x : A) (l : list A) : nat :=
  length (filter (fun y => y = x) l).

(** What [add] and [delete] can make of a set: slots are emptied in place
    and new ones come at the end. *)
Definition evolves (s s' : JSSet A) : Prop :=
  length s ≤ length s' ∧
  ∀ i, i < length s → s' !! i = s !! i ∨ s' !! i = Some None.
End JSSet.

(** ** The dispatcher *)

(** What a subscriber's [handle] does to the service while it runs.  The
    three service methods return [void] and the service's fields are
    private, so a handler is described by the state it leaves behind and by
    the calls it makes, in order; [Throw] is an exception leaving [handle]. *)
Inductive Call (Event Sub : Type) : Type :=
  | CallPublish (event : Event)
  | CallSubscribe (type : string) (handler : Sub)
  | CallUnsubscribe (type : string) (handler : Sub)
  | Throw.
Global Arguments CallPublish {Event Sub} event.
Global Arguments CallSubscribe {Event Sub} type handler.
Global Arguments CallUnsubscribe {Event Sub} type handler.
Global Arguments Throw {Event Sub}.

(** How a call ends. *)
Inductive Outcome : Type := Returned | Threw.

(** Observations recorded along a run; they are written and never read by
    the code below. *)
Inductive Obs (Event Sub : Type) : Type :=
  | OEnq (event : Event)                 (* [eventQueue.push(event)] *)
  | OShift (event : Event)               (* [eventQueue.shift()] gave [event] *)
  | OHandle (handler : Sub) (event : Event) (* [subscriber.handle(event)] entered *)
  | OSubscribe (type : string) (handler : Sub)   (* [subscribe] was called *)
  | OUnsubscribe (type : string) (handler : Sub) (* [unsubscribe] was called *)
  | ORaise                               (* an exception left a [handle] *)
  | ODrainBegin                          (* [processEventQueue] entered *)
  | ODrainEnd                            (* [processEventQueue] returned *)
  | ODrainAbort.                         (* an exception left [processEventQueue] *)
Global Arguments OEnq {Event Sub} event.
Global Arguments OShift {Event Sub} event.
Global Arguments OHandle {Event Sub} handler event.
Global Arguments OSubscribe {Event Sub} type handler.
Global Arguments OUnsubscribe {Event Sub} type handler.
Global Arguments ORaise {Event Sub}.
Global Arguments ODrainBegin {Event Sub}.
Global Arguments ODrainEnd {Event Sub}.
Global Arguments ODrainAbort {Event Sub}.

(** The fields of [class PubSubService]. *)
Record PubSubService (Event Sub : Type) : Type := mkPubSubService {
  subscribers : gmap string (JSSet Sub);
  eventQueue : list Event;
  isProcessing : bool
}.
Global Arguments mkPubSubService {Event Sub} _ _ _.
Global Arguments subscribers {Event Sub} _.
Global Arguments eventQueue {Event Sub} _.
Global Arguments isProcessing {Event Sub} _.

(** The service, the state of everything the handlers own (machines,
    warning flags, console), and the observations made so far. *)
Record System (Event Sub W : Type) : Type := mkSystem {
  svc : PubSubService Event Sub;
  world : W;
  trace : list (Obs Event Sub)
}.
Global Arguments mkSystem {Event Sub W} _ _ _.
Global Arguments svc {Event Sub W} _.
Global Arguments world {Event Sub W} _.
Global Arguments trace {Event Sub W} _.

Section Dispatcher.
Context {Event Sub W : Type} `{EqDecision Event} `{EqDecision Sub}.

(** [IEvent.type()] *)
Variable type : Event → string.

(** [ISubscriber.handle] of the subscriber object [handler]. *)
Variable handle : Sub → Event → W → W * list (Call Event Sub).

Abbreviation Service := (PubSubService Event Sub).
Abbreviation Sys := (System Event Sub W).
Abbreviation Result := (option (Outcome * Sys)).

(** [new PubSubService()] *)
Definition newPubSubService : Service := mkPubSubService ∅ [] false.

(** [subscribe(type, handler)] *)
Definition subscribe (type : string) (handler : Sub) (p : Service) : Service :=
  let subs :=
    if decide (is_Some (subscribers p !! type)) then subscribers p
    else <[type := []]> (subscribers p) in
  mkPubSubService (alter (set_add handler) type subs)
                  (eventQueue p) (isProcessing p).

(** [unsubscribe(type, handler)] *)
Definition unsubscribe (type : string) (handler : Sub) (p : Service) : Service :=
  if decide (is_Some (subscribers p !! type)) then
    mkPubSubService (alter (set_delete handler) type (subscribers p))
                    (eventQueue p) (isProcessing p)
  else p.

Definition observe (o : Obs Event Sub) (σ : Sys) : Sys :=
  mkSystem (svc σ) (world σ) (trace σ ++ [o]).

Definition with_svc (f : Service → Service) (σ : Sys) : Sys :=
  mkSystem (f (svc σ)) (world σ) (trace σ).

Definition with_world (w : W) (σ : Sys) : Sys :=
  mkSystem (svc σ) w (trace σ).

(** [this.eventQueue.push(event)] *)
Definition push (event : Event) (p : Service) : Service :=
  mkPubSubService (subscribers p) (eventQueue p ++ [event]) (isProcessing p).

Definition set_queue (q : list Event) (p : Service) : Service :=
  mkPubSubService (subscribers p) q (isProcessing p).

(** [this.isProcessing = b] *)
Definition set_processing (b : bool) (p : Service) : Service :=
  mkPubSubService (subscribers p) (eventQueue p) b.

(** A call of [subscribe] or [unsubscribe], by the driver or by a handler,
    and its observation. *)
Definition call_subscribe (type : string) (handler : Sub) (σ : Sys) : Sys :=
  observe (OSubscribe type handler) (with_svc (subscribe type handler) σ).

Definition call_unsubscribe (type : string) (handler : Sub) (σ : Sys) : Sys :=
  observe (OUnsubscribe type handler) (with_svc (unsubscribe type handler) σ).

(** The members registered for [type]; an absent entry has none. *)
Definition members (type : string) (p : Service) : list Sub :=
  live (default [] (subscribers p !! type)).

(** [publish], [processEventQueue], its [while] loop, the [forEach] over
    the subscriber set and the calls made by a handler.  Handlers are
    arbitrary, so the loops need not end: [fuel] bounds the depth of the
    evaluation and [None] means that it ran out.

    [forEach] is given the key under which the set was found instead of
    the set object: [subscribe] creates an entry only when the key has
    none and nothing removes an entry, so the key names the same object
    for as long as the walk lasts. *)
Fixpoint publish (fuel : nat) (event : Event) (σ : Sys) : Result :=
  match fuel with
  | 0 => None
  | S fuel =>
      let σ := observe (OEnq event) (with_svc (push event) σ) in
      if isProcessing (svc σ) then Some (Returned, σ)
      else processEventQueue fuel σ
  end
with processEventQueue (fuel : nat) (σ : Sys) : Result :=
  match fuel with
  | 0 => None
  | S fuel =>
      match whileLoop fuel (observe ODrainBegin (with_svc (set_processing true) σ)) with
      | Some (Returned, σ') =>
          Some (Returned, observe ODrainEnd (with_svc (set_processing false) σ'))
      | Some (Threw, σ') => Some (Threw, observe ODrainAbort σ')
      | None => None
      end
  end
with whileLoop (fuel : nat) (σ : Sys) : Result :=
  match fuel with
  | 0 => None
  | S fuel =>
      match eventQueue (svc σ) with
      | [] => Some (Returned, σ)
      | event :: rest =>
          let σ := observe (OShift event) (with_svc (set_queue rest) σ) in
          match subscribers (svc σ) !! type event with
          | Some _ =>
              match forEach fuel (type event) event 0 σ with
              | Some (Returned, σ') => whileLoop fuel σ'
              | r => r
              end
          | None => whileLoop fuel σ
          end
      end
  end
with forEach (fuel : nat) (key : string) (event : Event) (index : nat)
             (σ : Sys) : Result :=
  match fuel with
  | 0 => None
  | S fuel =>
      match default [] (subscribers (svc σ) !! key) !! index with
      | None => Some (Returned, σ)
      | Some None => forEach fuel key event (S index) σ
      | Some (Some subscriber) =>
          let '(w, calls) := handle subscriber event (world σ) in
          match runCalls fuel calls
                  (observe (OHandle subscriber event) (with_world w σ)) with
          | Some (Returned, σ') => forEach fuel key event (S index) σ'
          | r => r
          end
      end
  end
with runCalls (fuel : nat) (calls : list (Call Event Sub)) (σ : Sys) : Result :=
  match fuel with
  | 0 => None
  | S fuel =>
      match calls with
      | [] => Some (Returned, σ)
      | CallPublish event :: calls =>
          match publish fuel event σ with
          | Some (Returned, σ') => runCalls fuel calls σ'
          | r => r
          end
      | CallSubscribe type handler :: calls =>
          runCalls fuel calls (call_subscribe type handler σ)
      | CallUnsubscribe type handler :: calls =>
          runCalls fuel calls (call_unsubscribe type handler σ)
      | Throw :: _ => Some (Threw, observe ORaise σ)
      end
  end.

(** *** Calls made by the code that owns the service

    The driver calls the three methods from outside any handler; an
    exception that leaves [publish] reaches it, and it may carry on. *)
Definition initial (w : W) : Sys := mkSystem newPubSubService w [].

Inductive steps : Sys → Sys → Prop :=
  | steps_refl σ : steps σ σ
  | steps_publish σ σ1 fuel event r σ2 :
      steps σ σ1 → publish fuel event σ1 = Some (r, σ2) → steps σ σ2
  | steps_subscribe σ σ1 key handler :
      steps σ σ1 → steps σ (call_subscribe key handler σ1)
  | steps_unsubscribe σ σ1 key handler :
      steps σ σ1 → steps σ (call_unsubscribe key handler σ1).

Definition reachable (σ : Sys) : Prop := ∃ w, steps (initial w) σ.

(** *** Reading a trace *)

Definition enqueued (t : list (Obs Event Sub)) : list Event :=
  omap (fun o => match o with OEnq e => Some e | _ => None end) t.

Definition shifted (t : list (Obs Event Sub)) : list Event :=
  omap (fun o => match o with OShift e => Some e | _ => None end) t.

(** The subscribers whose [handle] was entered with [event], in order. *)
Definition recipients (event : Event) (t : list (Obs Event Sub)) : list Sub :=
  omap (fun o => match o with
                 | OHandle s e => if decide (e = event) then Some s else None
                 | _ => None
                 end) t.

Definition is_begin (o : Obs Event Sub) : bool :=
  match o with ODrainBegin => true | _ => false end.

Definition is_finish (o : Obs Event Sub) : bool :=
  match o with ODrainEnd | ODrainAbort => true | _ => false end.

Definition drains_begun (t : list (Obs Event Sub)) : nat :=
  length (List.filter is_begin t).

Definition drains_finished (t : list (Obs Event Sub)) : nat :=
  length (List.filter is_finish t).

(** What the calls of a handler can leave in the trace, what one walk over
    a subscriber set can, and what one drain can between its beginning and
    its end. *)
Definition from_handler (o : Obs Event Sub) : bool :=
  match o with
  | OEnq _ | OSubscribe _ _ | OUnsubscribe _ _ | ORaise => true
  | _ => false
  end.

Definition from_delivery (event : Event) (o : Obs Event Sub) : bool :=
  match o with
  | OHandle _ e => bool_decide (e = event)
  | _ => from_handler o
  end.

Definition in_drain (o : Obs Event Sub) : bool :=
  negb (is_begin o || is_finish o).

(** A call touched the registrations of [key]. *)
Definition touches (key : string) (o : Obs Event Sub) : bool :=
  match o with
  | OSubscribe k _ | OUnsubscribe k _ => bool_decide (k = key)
  | _ => false
  end.

Definition untouched (key : string) (t : list (Obs Event Sub)) : Prop :=
  Forall (fun o => touches key o = false) t.

(** Whether [s] is registered for [key] according to the calls observed:
    the last call that names the pair decides. *)
Definition registers (key : string) (s : Sub) (b : bool) (o : Obs Event Sub) : bool :=
  match o with
  | OSubscribe k s' => if decide (k = key ∧ s' = s) then true else b
  | OUnsubscribe k s' => if decide (k = key ∧ s' = s) then false else b
  | _ => b
  end.

Definition registered (key : string) (s : Sub) (t : list (Obs Event Sub)) : bool :=
  foldl (registers key s) false t.


(** No live value occurs twice in a set of the registry, as in any [Set]. *)
Definition wf_registry (p : Service) : Prop :=
  ∀ key s, subscribers p !! key = Some s → NoDup (live s).

(** What a run that left the observations [t] can have done to the
    registry: sets evolve, entries stay, a set is changed only by a call
    that names its key, and membership is gained by [subscribe] and lost
    by [unsubscribe] alone. *)
Definition registry_moves (p p' : Service) (t : list (Obs Event Sub)) : Prop :=
  (∀ key, evolves (default [] (subscribers p !! key))
                  (default [] (subscribers p' !! key))) ∧
  (∀ key, is_Some (subscribers p !! key) → is_Some (subscribers p' !! key)) ∧
  (∀ key, untouched key t → subscribers p' !! key = subscribers p !! key) ∧
  (∀ key s, s ∈ members key p' → s ∈ members key p ∨ OSubscribe key s ∈ t) ∧
  (∀ key s, s ∈ members key p → s ∈ members key p' ∨ OUnsubscribe key s ∈ t) ∧
  (wf_registry p → wf_registry p').

(** Two services that cannot be told apart from outside: every kind has the
    same members in the same order, and the queue and the flag are equal.
    The slots emptied by [delete], and the entries with no member, may
    differ. *)
Definition same_members (p p' : Service) : Prop :=
  (∀ key, members key p = members key p') ∧
  eventQueue p = eventQueue p' ∧
  isProcessing p = isProcessing p'.

Definition alike (σ σ' : Sys) : Prop :=
  same_members (svc σ) (svc σ') ∧ world σ = world σ' ∧ trace σ = trace σ'.

(** Two walks over the set of [key], at [i] in one service and at [i'] in
    the other, with the same members still to visit. *)
Definition walk_alike (key : string) (i i' : nat) (p p' : Service) : Prop :=
  i ≤ length (default [] (subscribers p !! key)) ∧
  i' ≤ length (default [] (subscribers p' !! key)) ∧
  live (drop i (default [] (subscribers p !! key))) =
  live (drop i' (default [] (subscribers p' !! key))).


(** Registration counted from a registry [p] instead of from the empty
    one: whether [s] is registered for [key] once the calls observed in [t]
    were made on [p].  The last call that names the pair decides, and [p]
    when no call names it. *)
Definition registered_since (p : Service) (key : string) (s : Sub)
    (t : list (Obs Event Sub)) : bool :=
  foldl (registers key s) (bool_decide (s ∈ members key p)) t.

(** The state [σ] was reached from the registry [p] and the trace [base]:
    its registry holds what the calls observed since then have made of
    [p], and the handlers entered since then were registered at that
    moment. *)
Definition follows (p : Service) (base : list (Obs Event Sub)) (σ : Sys) : Prop :=
  ∃ t, trace σ = base ++ t ∧
       wf_registry (svc σ) ∧
       (∀ key s, s ∈ members key (svc σ) ↔ registered_since p key s t = true) ∧
       (∀ ta s e tb, t = ta ++ OHandle s e :: tb →
                     registered_since p (type e) s ta = true).

(** An observation that ends the delivery in progress: the next [shift],
    or the end of the drain. *)
Definition closes (o : Obs Event Sub) : bool :=
  match o with OShift _ | ODrainEnd => true | _ => false end.


(** So had every delivery of [t] that was ended, when it was ended. *)
Definition delivered (t : list (Obs Event Sub)) : Prop :=
  ∀ t1 e t2 o t3, t = t1 ++ OShift e :: t2 ++ o :: t3 →
    Forall (fun o => from_delivery e o = true) t2 →
    closes o = true →
    (∀ s, registered (type e) s (t1 ++ OShift e :: t2) = true →
          s ∈ recipients e t2) ∧
    (untouched (type e) t2 → NoDup (recipients e t2)).

(** *** A queue to compare with

    A first-in first-out queue with one drain at a time, run over a trace:
    it accepts an observation only where such a queue allows it. *)
Inductive Mode : Type :=
  | Idle
  | Draining (current : option Event)
  | Raised
  | Stuck.

Record Ref : Type := mkRef { pending : list Event; mode : Mode }.

Definition ref_step (a : Ref) (o : Obs Event Sub) : option Ref :=
  match o, mode a with
  | OEnq e, _ => Some (mkRef (pending a ++ [e]) (mode a))
  | OSubscribe _ _, _ => Some a
  | OUnsubscribe _ _, _ => Some a
  | ODrainBegin, Idle => Some (mkRef (pending a) (Draining None))
  | OShift e, Draining _ =>
      match pending a with
      | e' :: q => if decide (e = e') then Some (mkRef q (Draining (Some e))) else None
      | [] => None
      end
  | OHandle _ e, Draining (Some e') => if decide (e = e') then Some a else None
  | ORaise, Draining (Some _) => Some (mkRef (pending a) Raised)
  | ODrainAbort, Raised => Some (mkRef (pending a) Stuck)
  | ODrainEnd, Draining _ =>
      match pending a with
      | [] => Some (mkRef [] Idle)
      | _ :: _ => None
      end
  | _, _ => None
  end.

Definition ref_run (a : Ref) (t : list (Obs Event Sub)) : option Ref :=
  foldl (fun oa o => oa ≫= fun a => ref_step a o) (Some a) t.

(** The service and the queue agree between two calls of the driver. *)
Definition agrees (σ : Sys) (a : Ref) : Prop :=
  pending a = eventQueue (svc σ) ∧
  mode a = (if isProcessing (svc σ) then Stuck else Idle).

(** The drains in progress according to the queue: one or none. *)
Definition active (a : Ref) : nat :=
  match mode a with
  | Draining _ | Raised => 1
  | Idle | Stuck => 0
  end.

(** *** Three sentences of the description, as they are worded *)

(** Delivery of an event goes to the subscribers registered for its kind
    when the delivery began, whatever the handlers do meanwhile. *)
Definition snapshot_delivery : Prop :=
  ∀ fuel event σ σ' t,
    isProcessing (svc σ) = true →
    forEach fuel (type event) event 0 σ = Some (Returned, σ') →
    trace σ' = trace σ ++ t →
    ∀ s, s ∈ members (type event) (svc σ) ↔ s ∈ recipients event t.

(** After an exception left [publish], a later [publish] that returns has
    drained what was left in the queue. *)
Definition resumes_after_throw : Prop :=
  ∀ fuel event σ σ1 fuel' event' σ2,
    isProcessing (svc σ) = false →
    publish fuel event σ = Some (Threw, σ1) →
    publish fuel' event' σ1 = Some (Returned, σ2) →
    eventQueue (svc σ2) = [].

(** [subscribe] then [unsubscribe] of the same pair leaves every kind with
    the members it had. *)
Definition roundtrip_restores : Prop :=
  ∀ key handler (p : Service) key',
    wf_registry p →
    members key' (unsubscribe key handler (subscribe key handler p)) = members key' p.

(** A [publish] made by the driver while no drain is active begins a
    drain. *)
Definition idle_publish_drains : Prop :=
  ∀ σ fuel event r σ' t,
    reachable σ →
    drains_begun (trace σ) = drains_finished (trace σ) →
    publish fuel event σ = Some (r, σ') →
    trace σ' = trace σ ++ t →
    drains_begun t = 1.

(** When a [publish] made by the driver while no drain is active returns,
    the queue is empty and the flag is clear. *)
Definition idle_publish_returns_idle : Prop :=
  ∀ σ fuel event σ',
    reachable σ →
    drains_begun (trace σ) = drains_finished (trace σ) →
    publish fuel event σ = Some (Returned, σ') →
    eventQueue (svc σ') = [] ∧ isProcessing (svc σ') = false.

(** After [subscribe] was called twice for a pair, the subscriber is
    handed an event of the kind once each time the event is shifted. *)
Definition handed_once_per_event : Prop :=
  ∀ fuel key handler event (σ : Sys) r σ' t,
    wf_registry (svc σ) →
    isProcessing (svc σ) = false →
    eventQueue (svc σ) = [] →
    type event = key →
    publish fuel event
      (with_svc (subscribe key handler) (with_svc (subscribe key handler) σ)) =
      Some (r, σ') →
    trace σ' = trace σ ++ t →
    occurrences handler (recipients event t) = occurrences event (shifted t).

End Dispatcher.

(** ** The vending machines

    The four event classes, [class Machine], the three subscriber classes
    and the objects built by [normalCase].

    A JavaScript [number] is a binary64 float.  The model covers the whole
    numbers and computes with them as integers.  The two agree wherever
    the operands and the result of an addition or of a subtraction are
    safe integers, of absolute value at most 2^53 - 1: there binary64 is
    exact, and comparison is that of the integers.  The quantities that
    [normalCase] and [eventGenerator] produce stay far inside that range.
    A statement on quantities chosen by a caller that depends on the exact
    value of a stock assumes [safe] of what the code computes; fractions,
    infinities and NaN are outside the model. *)

(** [Number.isSafeInteger], on the whole numbers. *)
Definition safe (n : Z) : bool := (Z.abs n <=? 9007199254740991)%Z.

(** The classes that implement [IEvent]. *)
Inductive IEvent : Type :=
  | MachineSaleEvent (_sold : Z) (_machineId : string)
  | MachineRefillEvent (_refill : Z) (_machineId : string)
  | LowStockWarningEvent (_machineId : string)
  | StockLevelOkEvent (_machineId : string).

Global Instance IEvent_eq_dec : EqDecision IEvent.
Proof. solve_decision. Defined.

Definition machineId (event : IEvent) : string :=
  match event with
  | MachineSaleEvent _ m | MachineRefillEvent _ m
  | LowStockWarningEvent m | StockLevelOkEvent m => m
  end.

Definition type (event : IEvent) : string :=
  match event with
  | MachineSaleEvent _ _ => "sale"
  | MachineRefillEvent _ _ => "refill"
  | LowStockWarningEvent _ => "lowStockWarning"
  | StockLevelOkEvent _ => "stockLevelOk"
  end.

(** [class Machine]; [new Machine(id)] starts at [stockLevel = 10]. *)
Record Machine : Type := mkMachine { stockLevel : Z; id : string }.

Definition newMachine (i : string) : Machine := mkMachine 10 i.

(** The lines written by [console.log]. *)
Inductive LogLine : Type :=
  | LogSold (machine : string) (stock : Z)      (* Machine .. sold an item. New stock: .. *)
  | LogLowStock (machine : string) (stock : Z)  (* Machine .. is low on stock. Stock: .. *)
  | LogRefilled (machine : string) (stock : Z)  (* Machine .. refilled. New stock: .. *)
  | LogStockOk (machine : string) (stock : Z)   (* Machine .. stock is ok. Stock: .. *)
  | LogWarning (machine : string)               (* Low stock warning for machine .. *)
  | LogCleared (machine : string).              (* Stock level OK for machine .. *)

Global Instance LogLine_eq_dec : EqDecision LogLine.
Proof. solve_decision. Defined.

(** What the subscribers own: the [machines] array, which the sale and the
    refill subscriber share, the [warningStates] map of the stock-warning
    subscriber, and the console. *)
Record World : Type := mkWorld {
  machines : list Machine;
  warningStates : gmap string bool;
  console : list LogLine
}.

(** The subscriber objects created by [normalCase]. *)
Inductive ISubscriber : Type :=
  | saleSubscriber
  | refillSubscriber
  | stockWarningSubscriber.

Global Instance ISubscriber_eq_dec : EqDecision ISubscriber.
Proof. solve_decision. Defined.

(** [this.machines.find(m => m.id === i)] *)
Definition find_machine (i : string) (ms : list Machine) : option Machine :=
  List.find (fun m => bool_decide (id m = i)) ms.

(** Assignment to [stockLevel] of the object that [find] returned: the
    first machine of the array with that id. *)
Fixpoint set_stockLevel (i : string) (level : Z) (ms : list Machine) : list Machine :=
  match ms with
  | [] => []
  | m :: ms' =>
      if bool_decide (id m = i) then mkMachine level (id m) :: ms'
      else m :: set_stockLevel i level ms'
  end.

Definition console_log (l : LogLine) (w : World) : World :=
  mkWorld (machines w) (warningStates w) (console w ++ [l]).

Definition with_machines (ms : list Machine) (w : World) : World :=
  mkWorld ms (warningStates w) (console w).

Definition with_warningStates (ws : gmap string bool) (w : World) : World :=
  mkWorld (machines w) ws (console w).

(** [MachineSaleSubscriber.handle].  The parameter type is erased at run
    time: an event without [getSoldQuantity] makes the call throw, once a
    machine was found. *)
Definition MachineSaleSubscriber_handle (event : IEvent) (w : World)
  : World * list (Call IEvent ISubscriber) :=
  match find_machine (machineId event) (machines w) with
  | Some machine =>
      match event with
      | MachineSaleEvent sold _ =>
          let level := (stockLevel machine - sold)%Z in
          let w := with_machines (set_stockLevel (id machine) level (machines w)) w in
          let w := console_log (LogSold (id machine) level) w in
          if decide (level < 3)%Z then
            (console_log (LogLowStock (id machine) level) w,
             [CallPublish (LowStockWarningEvent (id machine))])
          else (w, [])
      | _ => (w, [Throw])
      end
  | None => (w, [])
  end.

(** [MachineRefillSubscriber.handle] *)
Definition MachineRefillSubscriber_handle (event : IEvent) (w : World)
  : World * list (Call IEvent ISubscriber) :=
  match find_machine (machineId event) (machines w) with
  | Some machine =>
      match event with
      | MachineRefillEvent refill _ =>
          let level := (stockLevel machine + refill)%Z in
          let w := with_machines (set_stockLevel (id machine) level (machines w)) w in
          let w := console_log (LogRefilled (id machine) level) w in
          if decide (3 ≤ level)%Z then
            (console_log (LogStockOk (id machine) level) w,
             [CallPublish (StockLevelOkEvent (id machine))])
          else (w, [])
      | _ => (w, [Throw])
      end
  | None => (w, [])
  end.

(** [this.warningStates.get(i)] read as a condition: an absent key gives
    [undefined], which is falsy. *)
Definition warned (i : string) (w : World) : bool :=
  default false (warningStates w !! i).

(** [StockWarningSubscriber.handle] *)
Definition StockWarningSubscriber_handle (event : IEvent) (w : World)
  : World * list (Call IEvent ISubscriber) :=
  match event with
  | LowStockWarningEvent i =>
      if negb (warned i w) then
        (with_warningStates (<[i := true]> (warningStates w))
           (console_log (LogWarning i) w), [])
      else (w, [])
  | StockLevelOkEvent i =>
      if warned i w then
        (with_warningStates (<[i := false]> (warningStates w))
           (console_log (LogCleared i) w), [])
      else (w, [])
  | _ => (w, [])
  end.

(** [handle] of each of the three objects. *)
Definition handle (s : ISubscriber) : IEvent → World → World * list (Call IEvent ISubscriber) :=
  match s with
  | saleSubscriber => MachineSaleSubscriber_handle
  | refillSubscriber => MachineRefillSubscriber_handle
  | stockWarningSubscriber => StockWarningSubscriber_handle
  end.

(** The state built by [normalCase] before it publishes anything. *)
Definition normalCase_world : World :=
  mkWorld [newMachine "001"; newMachine "002"; newMachine "003"] ∅ [].

Definition normalCase : System IEvent ISubscriber World :=
  call_subscribe "stockLevelOk" stockWarningSubscriber
    (call_subscribe "lowStockWarning" stockWarningSubscriber
       (call_subscribe "refill" refillSubscriber
          (call_subscribe "sale" saleSubscriber
             (initial normalCase_world)))).

(** The states of the scenario: a sale of 8, then a sale of 1, then a
    refill of 5, all for machine ["001"], each published by the driver. *)
Definition after (event : IEvent) (σ : System IEvent ISubscriber World)
  : System IEvent ISubscriber World :=
  match publish type handle 10 event σ with
  | Some (_, σ') => σ'
  | None => σ
  end.

Definition after_sale_8 : System IEvent ISubscriber World :=
  after (MachineSaleEvent 8 "001") normalCase.

Definition after_sale_1 : System IEvent ISubscriber World :=
  after (MachineSaleEvent 1 "001") after_sale_8.

Definition after_refill_5 : System IEvent ISubscriber World :=
  after (MachineRefillEvent 5 "001") after_sale_1.

(** [normalCase] with the stock-warning subscriber subscribed twice more
    for the low-stock kind, and that state after a sale of 8. *)
Definition subscribed_again : System IEvent ISubscriber World :=
  with_svc (subscribe "lowStockWarning" stockWarningSubscriber)
    (with_svc (subscribe "lowStockWarning" stockWarningSubscriber) normalCase).

Definition subscribed_again_after_sale_8 : System IEvent ISubscriber World :=
  after (MachineSaleEvent 8 "001") subscribed_again.

(** The stock-warning subscriber fed a sequence of events. *)
Definition track (events : list IEvent) (w : World) : World :=
  foldl (fun w event => (StockWarningSubscriber_handle event w).1) w events.

(** The lines of the console that report a warning, or its clearing, for
    machine [i]. *)
Definition warnings_for (i : string) (lines : list LogLine) : nat :=
  length (filter (fun l => l = LogWarning i) lines).

Definition clearings_for (i : string) (lines : list LogLine) : nat :=
  length (filter (fun l => l = LogCleared i) lines).

(** ** Small systems used as examples

    Events that are their own kind, subscribers named by numbers, nothing
    owned by the handlers. *)
Definition demo_type (event : string) : string := event.

Definition demo_handle (s : nat) (event : string) (w : unit)
  : unit * list (Call string nat) :=
  match s with
  | 1 => (w, [CallUnsubscribe event 2])
  | 3 => (w, [CallPublish "B"; Throw])
  | 4 => (w, [CallSubscribe event 5])
  | _ => (w, [])
  end.

(** Subscribers 1 and 2 registered for ["E"], in that order. *)
Definition demo_unsubscribing : System string nat unit :=
  with_svc (subscribe "E" 2) (with_svc (subscribe "E" 1) (initial ())).

(** Subscriber 3 registered for ["A"], subscriber 2 for ["B"]. *)
Definition demo_throwing : System string nat unit :=
  with_svc (subscribe "B" 2) (with_svc (subscribe "A" 3) (initial ())).

(** Subscriber 4 registered for ["S"]. *)
Definition demo_subscribing : System string nat unit :=
  with_svc (subscribe "S" 4) (initial ()).

(** The first of these systems in the middle of a drain. *)
Definition demo_draining : System string nat unit :=
  with_svc (set_processing true) demo_unsubscribing.

Definition demo_delivered : System string nat unit :=
  match forEach demo_type demo_handle 10 "E" "E" 0 demo_draining with
  | Some (_, σ) => σ
  | None => demo_draining
  end.

(** The second after ["A"] was published, and then ["C"]. *)
Definition demo_thrown : System string nat unit :=
  match publish demo_type demo_handle 10 "A" demo_throwing with
  | Some (_, σ) => σ
  | None => demo_throwing
  end.

Definition demo_thrown_then_C : System string nat unit :=
  match publish demo_type demo_handle 10 "C" demo_thrown with
  | Some (_, σ) => σ
  | None => demo_thrown
  end.

(** The second system with its subscriptions made by calls of the driver,
    and that system after ["A"] was published: a handler has thrown. *)
Definition demo_called : System string nat unit :=
  call_subscribe "B" 2 (call_subscribe "A" 3 (initial ())).

Definition demo_called_thrown : System string nat unit :=
  match publish demo_type demo_handle 10 "A" demo_called with
  | Some (_, σ) => σ
  | None => demo_called
  end.

Definition demo_called_thrown_then_C : System string nat unit :=
  match publish demo_type demo_handle 10 "C" demo_called_thrown with
  | Some (_, σ) => σ
  | None => demo_called_thrown
  end.

(** A subscriber that counts the events it handled and, the first two
    times, unsubscribes itself and subscribes again. *)
Definition demo_counting_handle (s : nat) (event : string) (w : nat)
  : nat * list (Call string nat) :=
  if decide (w < 2) then (S w, [CallUnsubscribe event s; CallSubscribe event s])
  else (w, []).

(** Subscriber 1 subscribed twice for ["E"], and that system after ["E"]
    was published. *)
Definition demo_twice : System string nat nat :=
  with_svc (subscribe "E" 1) (with_svc (subscribe "E" 1) (initial 0)).

Definition demo_twice_published : System string nat nat :=
  match publish demo_type demo_counting_handle 20 "E" demo_twice with
  | Some (_, σ) => σ
  | None => demo_twice
  end.

(** ** The run of [normalCase]

    [randomMachine], [eventGenerator], the five events that [normalCase]
    generates and the [publish] calls it makes with them.  [Math.random()]
    is a source of binary64 numbers, read in the order of the calls: the
    helpers take the number of calls made so far and return it with their
    result.  Comparison and product are those of IEEE 754, as in
    JavaScript. *)

(** [events.map(event => pubSubService.publish(event))]: an exception that
    leaves a [publish] ends the [map]. *)
Fixpoint publish_each (fuel : nat) (events : list IEvent)
    (σ : System IEvent ISubscriber World)
  : option (Outcome * System IEvent ISubscriber World) :=
  match events with
  | [] => Some (Returned, σ)
  | event :: events =>
      match publish type handle fuel event σ with
      | Some (Returned, σ') => publish_each fuel events σ'
      | r => r
      end
  end.

Section Generator.
Import PrimFloat.

(** The [n]-th number returned by [Math.random()]. *)
Variable Math_random : nat → float.

(** [randomMachine] *)
Definition randomMachine (n : nat) : string * nat :=
  let random := (Math_random n * 3)%float in
  let n := S n in
  if (random <? 1)%float then ("001", n)
  else if (random <? 2)%float then ("002", n)
  else ("003", n).

(** [eventGenerator] *)
Definition eventGenerator (n : nat) : IEvent * nat :=
  let random := Math_random n in
  let n := S n in
  if (random <? 0.5)%float then
    let saleQty := if (Math_random n <? 0.5)%float then 1%Z else 2%Z in
    let n := S n in
    let '(machine, n) := randomMachine n in
    (MachineSaleEvent saleQty machine, n)
  else
    let refillQty := if (Math_random n <? 0.5)%float then 3%Z else 5%Z in
    let n := S n in
    let '(machine, n) := randomMachine n in
    (MachineRefillEvent refillQty machine, n).

(** [items.map(i => eventGenerator())] *)
Fixpoint map_eventGenerator (items : list Z) (n : nat) : list IEvent * nat :=
  match items with
  | [] => ([], n)
  | _ :: items =>
      let '(event, n) := eventGenerator n in
      let '(events, n) := map_eventGenerator items n in
      (event :: events, n)
  end.

(** The [events] of [normalCase]. *)
Definition normalCase_events : list IEvent :=
  (map_eventGenerator [1; 2; 3; 4; 5]%Z 0).1.

(** [normalCase] from the subscriptions to the last [publish]; the machines
    of the world it ends in are what it logs as the final machines. *)
Definition normalCase_run (fuel : nat)
  : option (Outcome * System IEvent ISubscriber World) :=
  publish_each fuel normalCase_events normalCase.
End Generator.

(** *** Reading a state of the example *)

(** The service as [normalCase] wired it, between two calls of the driver. *)
Definition wired (σ : System IEvent ISubscriber World) : Prop :=
  subscribers (svc σ) = subscribers (svc normalCase) ∧
  eventQueue (svc σ) = [] ∧
  isProcessing (svc σ) = false.

(** The subscriber that [normalCase] registers for the kind of [event]. *)
Definition subscriber_of (event : IEvent) : ISubscriber :=
  match event with
  | MachineSaleEvent _ _ => saleSubscriber
  | MachineRefillEvent _ _ => refillSubscriber
  | LowStockWarningEvent _ | StockLevelOkEvent _ => stockWarningSubscriber
  end.

(** The event that the handler of a sale or of a refill can publish. *)
Definition follow_up (event : IEvent) : IEvent :=
  match event with
  | MachineSaleEvent _ m => LowStockWarningEvent m
  | _ => StockLevelOkEvent (machineId event)
  end.

(** The observations of a publish that causes no other event, and of one
    that causes [follow_up]. *)
Definition alone (e : IEvent) : list (Obs IEvent ISubscriber) :=
  [OEnq e; ODrainBegin; OShift e; OHandle (subscriber_of e) e; ODrainEnd].

Definition followed (e : IEvent) : list (Obs IEvent ISubscriber) :=
  [OEnq e; ODrainBegin; OShift e; OHandle (subscriber_of e) e;
   OEnq (follow_up e); OShift (follow_up e);
   OHandle stockWarningSubscriber (follow_up e); ODrainEnd].

(** The warning flag of every machine id says whether the machine that
    [find] gives for the id is below 3. *)
Definition in_step (w : World) : Prop :=
  ∀ i, warned i w = true ↔
       ∃ m, find_machine i (machines w) = Some m ∧ (stockLevel m < 3)%Z.

(** What [event] asks to add to the stock of machine [i]. *)
Definition stock_change (i : string) (event : IEvent) : Z :=
  match event with
  | MachineSaleEvent sold m => if decide (m = i) then (- sold)%Z else 0%Z
  | MachineRefillEvent refill m => if decide (m = i) then refill else 0%Z
  | _ => 0%Z
  end.

(** A sale or a refill of a quantity that is not negative. *)
Definition not_negative (event : IEvent) : Prop :=
  match event with
  | MachineSaleEvent q _ | MachineRefillEvent q _ => (0 ≤ q)%Z
  | _ => False
  end.

(** What [eventGenerator] can return. *)
Definition generated (event : IEvent) : Prop :=
  machineId event ∈ ["001"; "002"; "003"] ∧
  match event with
  | MachineSaleEvent q _ => q ∈ [1; 2]%Z
  | MachineRefillEvent q _ => q ∈ [3; 5]%Z
  | _ => False
  end.

(** What [events] ask to add to the stock of machine [i], all together. *)
Definition total_change (i : string) (events : list IEvent) : Z :=
  foldr (fun event z => (stock_change i event + z)%Z) 0%Z events.

(** The quantity that a sale or a refill carries. *)
Definition quantity (event : IEvent) : Z :=
  match event with
  | MachineSaleEvent q _ | MachineRefillEvent q _ => q
  | _ => 0%Z
  end.

(** Publishing [events] one after the other keeps the arithmetic of the
    handlers within the safe integers: every quantity is one, and so is
    the stock of every machine at the start and after each event. *)
Definition stays_safe (events : list IEvent) (w : World) : bool :=
  forallb (fun event => safe (quantity event)) events &&
  forallb (fun n =>
             forallb (fun m => safe (stockLevel m +
                                     total_change (id m) (take n events)))
                     (machines w))
          (seq 0 (S (length events))).

(** What the handlers make of the world when the driver publishes [event]
    in the wiring of [normalCase]: the subscriber of the event's kind, then
    the stock-warning subscriber for the event it published. *)
Definition warn (w : World) (calls : list (Call IEvent ISubscriber)) : World :=
  foldl (fun w call =>
           match call with
           | CallPublish event => (StockWarningSubscriber_handle event w).1
           | _ => w
           end) w calls.

Definition settle (event : IEvent) (w : World) : World :=
  match event with
  | MachineSaleEvent _ _ =>
      warn (MachineSaleSubscriber_handle event w).1
           (MachineSaleSubscriber_handle event w).2
  | MachineRefillEvent _ _ =>
      warn (MachineRefillSubscriber_handle event w).1
           (MachineRefillSubscriber_handle event w).2
  | _ => (StockWarningSubscriber_handle event w).1
  end.

(** * Properties *)

(** ** Sets *)

Section JSSetFacts.
Context {A : Type} `{EqDecision A}.
Implicit Types (s : JSSet A) (x y : A).

Lemma live_app s1 s2 : live (s1 ++ s2) = live s1 ++ live s2.
Proof. unfold live. apply omap_app. Qed.

Lemma elem_of_live x s : x ∈ live s ↔ Some x ∈ s.
Proof.
  unfold live. rewrite list_elem_of_omap. split.
  - intros (e & He & Heq). simpl in Heq. by subst.
  - intros He. by exists (Some x).
Qed.

Lemma set_has_true x s : set_has x s = true ↔ x ∈ live s.
Proof. unfold set_has. rewrite bool_decide_eq_true. symmetry. apply elem_of_live. Qed.

Lemma set_add_present x s : x ∈ live s → set_add x s = s.
Proof. intros Hx. unfold set_add. apply set_has_true in Hx. by rewrite Hx. Qed.

Lemma set_add_absent x s : x ∉ live s → set_add x s = s ++ [Some x].
Proof.
  intros Hx. unfold set_add. destruct (set_has x s) eqn:Hhas; [|done].
  apply set_has_true in Hhas. contradiction.
Qed.

Lemma live_set_add x s :
  live (set_add x s) = if decide (x ∈ live s) then live s else live s ++ [x].
Proof.
  case_decide as Hx.
  - by rewrite set_add_present.
  - rewrite set_add_absent by done. by rewrite live_app.
Qed.

Lemma elem_of_set_add x s : x ∈ live (set_add x s).
Proof.
  rewrite live_set_add. case_decide; [done|]. apply elem_of_app. right. left.
Qed.

Lemma elem_of_set_add_inv x y s : y ∈ live (set_add x s) → y = x ∨ y ∈ live s.
Proof.
  rewrite live_set_add. case_decide; [by right|].
  intros [?|?%list_elem_of_singleton]%elem_of_app; auto.
Qed.

Lemma set_add_idempotent x s : set_add x (set_add x s) = set_add x s.
Proof. apply set_add_present, elem_of_set_add. Qed.

Lemma NoDup_set_add x s : NoDup (live s) → NoDup (live (set_add x s)).
Proof.
  intros Hnd. rewrite live_set_add. case_decide as Hx; [done|].
  apply NoDup_app. split_and!; [done| |apply NoDup_singleton].
  intros y Hy ->%list_elem_of_singleton. contradiction.
Qed.

Lemma set_delete_length x s : length (set_delete x s) = length s.
Proof. induction s as [|e s IH]; simpl; [done|]. case_decide; simpl; congruence. Qed.

Lemma set_delete_absent x s : x ∉ live s → set_delete x s = s.
Proof.
  rewrite elem_of_live. induction s as [|e s IH]; simpl; intros Hx; [done|].
  case_decide as He.
  - subst. exfalso. apply Hx. left.
  - f_equal. apply IH. intros Hin. apply Hx. by right.
Qed.

Lemma set_delete_app x s1 s2 :
  x ∉ live s1 → set_delete x (s1 ++ s2) = s1 ++ set_delete x s2.
Proof.
  rewrite elem_of_live. induction s1 as [|e s1 IH]; simpl; intros Hx; [done|].
  case_decide as He.
  - subst. exfalso. apply Hx. left.
  - f_equal. apply IH. intros Hin. apply Hx. by right.
Qed.

Lemma live_set_delete_sublist x s : live (set_delete x s) `sublist_of` live s.
Proof.
  induction s as [|e s IH]; simpl; [done|].
  case_decide as He.
  - subst e. change (live (Some x :: s)) with (x :: live s).
    change (live (None :: s)) with (live s). by apply sublist_cons.
  - destruct e as [y|].
    + change (live (Some y :: ?l)) with (y :: live l). by apply sublist_skip.
    + change (live (None :: ?l)) with (live l). done.
Qed.

Lemma NoDup_set_delete x s : NoDup (live s) → NoDup (live (set_delete x s)).
Proof. intros Hnd. eapply sublist_NoDup; [done|apply live_set_delete_sublist]. Qed.

Lemma elem_of_set_delete_inv x y s : y ∈ live (set_delete x s) → y ∈ live s.
Proof. intros Hy. eapply elem_of_sublist; [done|apply live_set_delete_sublist]. Qed.

(** Deleting another value keeps a member. *)
Lemma elem_of_set_delete_ne x y s : y ≠ x → y ∈ live s → y ∈ live (set_delete x s).
Proof.
  intros Hne. induction s as [|e s IH]; simpl; [done|].
  case_decide as He.
  - subst e. change (live (Some x :: s)) with (x :: live s).
    change (live (None :: s)) with (live s).
    intros [?|?]%elem_of_cons; [congruence|done].
  - destruct e as [z|].
    + change (live (Some z :: ?l)) with (z :: live l).
      intros [->|?]%elem_of_cons; [left|right; auto].
    + change (live (None :: ?l)) with (live l). done.
Qed.

Lemma filter_ne_absent x (l : list A) : x ∉ l → filter (fun y => y ≠ x) l = l.
Proof.
  induction l as [|y l IH]; intros Hx; [done|].
  apply not_elem_of_cons in Hx as [Hne Hx].
  rewrite filter_cons_True by congruence. f_equal. auto.
Qed.

Lemma elem_of_live_drop x i s : x ∈ live (drop i s) → x ∈ live s.
Proof. rewrite !elem_of_live. apply subseteq_drop. Qed.

Lemma live_cons e s :
  live (e :: s) = match e with Some x => x :: live s | None => live s end.
Proof. by destruct e. Qed.

(** On a set without repetitions [delete] removes the value from the
    members still to visit, wherever the walk is. *)
Lemma live_drop_set_delete x s : ∀ i,
  NoDup (live s) →
  live (drop i (set_delete x s)) = filter (fun y => y ≠ x) (live (drop i s)).
Proof.
  induction s as [|e s IH]; intros i Hnd; [by destruct i|].
  cbn [set_delete]. case_decide as He.
  - subst e. rewrite live_cons in Hnd. apply NoDup_cons in Hnd as [Hx Hnd].
    destruct i as [|i]; cbn [drop].
    + rewrite !live_cons, filter_cons_False by (intros Hne; by apply Hne).
      by rewrite filter_ne_absent.
    + rewrite filter_ne_absent; [done|].
      intros Hin. by apply Hx, (elem_of_live_drop _ i).
  - assert (NoDup (live s)) as Hnd'.
    { rewrite live_cons in Hnd.
      destruct e; [by apply NoDup_cons in Hnd as [_ ?]|done]. }
    destruct i as [|i]; cbn [drop]; [|by apply IH].
    rewrite !live_cons. specialize (IH 0 Hnd'). rewrite !drop_0 in IH.
    destruct e as [y|]; [|done].
    rewrite filter_cons_True by congruence. by f_equal.
Qed.

Lemma live_set_delete x s :
  NoDup (live s) → live (set_delete x s) = filter (fun y => y ≠ x) (live s).
Proof. intros Hnd. by rewrite <-(drop_0 (set_delete x s)), live_drop_set_delete. Qed.

(** A deleted value is gone from a set without repetitions. *)
Lemma not_elem_of_set_delete x s : NoDup (live s) → x ∉ live (set_delete x s).
Proof.
  intros Hnd. rewrite live_set_delete by done.
  intros [Hne _]%list_elem_of_filter. by apply Hne.
Qed.

(** [add] puts a new value among the members still to visit. *)
Lemma live_drop_set_add x s i :
  i ≤ length s →
  live (drop i (set_add x s)) =
    if decide (x ∈ live s) then live (drop i s) else live (drop i s) ++ [x].
Proof.
  intros Hi. case_decide as Hx.
  - by rewrite set_add_present.
  - rewrite set_add_absent by done. by rewrite drop_app_le, live_app.
Qed.

Lemma set_add_length x s : length s ≤ length (set_add x s).
Proof.
  unfold set_add. destruct (set_has x s); [done|]. rewrite length_app. lia.
Qed.

(** The first member still to visit, and the emptied slots before it. *)
Lemma next_live s : ∀ n i x rest,
  n = length s - i →
  live (drop i s) = x :: rest →
  ∃ j, i ≤ j ∧ s !! j = Some (Some x) ∧
       (∀ k, i ≤ k < j → s !! k = Some None) ∧
       live (drop (S j) s) = rest.
Proof.
  induction n as [|n IH]; intros i x rest Hn Hlive.
  - rewrite drop_ge in Hlive by lia. done.
  - destruct (s !! i) as [[y|]|] eqn:Hslot.
    + rewrite (drop_S _ _ _ Hslot), live_cons in Hlive. injection Hlive as -> <-.
      exists i. split_and!; [lia|done| |done]. intros k Hk. lia.
    + rewrite (drop_S _ _ _ Hslot), live_cons in Hlive.
      destruct (IH (S i) x rest) as (j & Hj & Hsj & Hdead & Hrest); [lia|done|].
      exists j. split_and!; [lia|done| |done].
      intros k Hk. destruct (decide (k = i)) as [->|Hne]; [done|]. apply Hdead. lia.
    + apply lookup_ge_None in Hslot. lia.
Qed.

(** With no member left to visit, every slot left is empty. *)
Lemma no_live_left s i k :
  live (drop i s) = [] → i ≤ k → k < length s → s !! k = Some None.
Proof.
  intros Hlive Hik Hk. destruct (s !! k) as [[x|]|] eqn:Hslot; [|done|].
  - assert (x ∈ live (drop i s)) as Hin.
    { apply elem_of_live, list_elem_of_lookup. exists (k - i).
      rewrite lookup_drop. by replace (i + (k - i)) with k by lia. }
    rewrite Hlive in Hin. by apply elem_of_nil in Hin.
  - apply lookup_ge_None in Hslot. lia.
Qed.

Lemma evolves_refl s : evolves s s.
Proof. split; [done|]. intros; by left. Qed.

Lemma evolves_trans s1 s2 s3 : evolves s1 s2 → evolves s2 s3 → evolves s1 s3.
Proof.
  intros [Hl12 H12] [Hl23 H23]. split; [lia|].
  intros i Hi. destruct (H12 i Hi) as [Heq|Heq], (H23 i ltac:(lia)) as [Heq'|Heq'];
    rewrite Heq', ?Heq; auto.
Qed.

Lemma set_add_evolves x s : evolves s (set_add x s).
Proof.
  unfold set_add. destruct (set_has x s); [apply evolves_refl|].
  split; [rewrite length_app; lia|].
  intros i Hi. left. by apply lookup_app_l.
Qed.

Lemma set_delete_evolves x s : evolves s (set_delete x s).
Proof.
  split; [by rewrite set_delete_length|].
  induction s as [|e s IH]; simpl; intros i Hi; [lia|].
  case_decide as He.
  - destruct i; simpl; auto.
  - destruct i; simpl; [auto|]. apply IH. lia.
Qed.

(** A slot that is live after the set evolved was live, with the same
    value, before. *)
Lemma evolves_live_before s s' i x :
  evolves s s' → i < length s → s' !! i = Some (Some x) → s !! i = Some (Some x).
Proof. intros [_ Hev] Hi Hs'. destruct (Hev i Hi) as [Heq|Heq]; congruence. Qed.

Lemma live_lookup s x : x ∈ live s ↔ ∃ i, s !! i = Some (Some x).
Proof. rewrite elem_of_live. apply list_elem_of_lookup. Qed.

End JSSetFacts.

(** ** The registry *)

Section DispatcherFacts.
Context {Event Sub W : Type} `{EqDecision Event} `{EqDecision Sub}.
Variable type : Event → string.
Variable handle : Sub → Event → W → W * list (Call Event Sub).

Implicit Types (p : PubSubService Event Sub) (σ : System Event Sub W).
Implicit Types (t : list (Obs Event Sub)) (a : Ref (Event := Event)).
Implicit Types (key : string) (s : Sub) (e event : Event) (o : Obs Event Sub).

Lemma service_eq p p' :
  subscribers p = subscribers p' → eventQueue p = eventQueue p' →
  isProcessing p = isProcessing p' → p = p'.
Proof. destruct p, p'. simpl. by intros -> -> ->. Qed.

Lemma subscribers_subscribe key s p key' :
  subscribers (subscribe key s p) !! key' =
    if decide (key = key')
    then Some (set_add s (default [] (subscribers p !! key)))
    else subscribers p !! key'.
Proof.
  unfold subscribe. simpl. destruct (decide (key = key')) as [<-|Hk].
  - case_decide as Hsome.
    + destruct Hsome as [l Hl]. rewrite lookup_alter_eq, Hl. done.
    + rewrite lookup_alter_eq, lookup_insert_eq.
      apply eq_None_not_Some in Hsome. by rewrite Hsome.
  - rewrite lookup_alter_ne by done. case_decide; [done|].
    by rewrite lookup_insert_ne.
Qed.

Lemma subscribers_unsubscribe key s p key' :
  subscribers (unsubscribe key s p) !! key' =
    if decide (key = key')
    then set_delete s <$> subscribers p !! key
    else subscribers p !! key'.
Proof.
  unfold unsubscribe. destruct (decide (key = key')) as [<-|Hk].
  - case_decide as Hsome; simpl.
    + by rewrite lookup_alter_eq.
    + apply eq_None_not_Some in Hsome. by rewrite Hsome.
  - case_decide as Hsome; simpl; [|done]. by rewrite lookup_alter_ne.
Qed.

Lemma members_subscribe key s p key' :
  members key' (subscribe key s p) =
    if decide (key = key') then live (set_add s (default [] (subscribers p !! key)))
    else members key' p.
Proof. unfold members. rewrite subscribers_subscribe. by case_decide. Qed.

Lemma members_unsubscribe key s p key' :
  members key' (unsubscribe key s p) =
    if decide (key = key') then live (set_delete s (default [] (subscribers p !! key)))
    else members key' p.
Proof.
  unfold members. rewrite subscribers_unsubscribe. case_decide; [|done].
  by destruct (subscribers p !! key).
Qed.

Lemma unsubscribe_queue key s p : eventQueue (unsubscribe key s p) = eventQueue p.
Proof. unfold unsubscribe. by case_decide. Qed.

Lemma unsubscribe_flag key s p : isProcessing (unsubscribe key s p) = isProcessing p.
Proof. unfold unsubscribe. by case_decide. Qed.

Lemma wf_newPubSubService : wf_registry (newPubSubService (Event := Event) (Sub := Sub)).
Proof. intros key s. unfold newPubSubService. simpl. by rewrite lookup_empty. Qed.

Lemma wf_subscribe key s p : wf_registry p → wf_registry (subscribe key s p).
Proof.
  intros Hwf key' l. rewrite subscribers_subscribe. case_decide.
  - intros [= <-]. apply NoDup_set_add.
    destruct (subscribers p !! key) eqn:Hl; simpl; [by eapply Hwf|apply NoDup_nil_2].
  - apply Hwf.
Qed.

Lemma wf_unsubscribe key s p : wf_registry p → wf_registry (unsubscribe key s p).
Proof.
  intros Hwf key' l. rewrite subscribers_unsubscribe. case_decide.
  - destruct (subscribers p !! key) eqn:Hl; simpl; [|done].
    intros [= <-]. apply NoDup_set_delete. by eapply Hwf.
  - apply Hwf.
Qed.

Lemma wf_members key p : wf_registry p → NoDup (members key p).
Proof.
  intros Hwf. unfold members.
  destruct (subscribers p !! key) eqn:Hl; simpl; [by eapply Hwf|apply NoDup_nil_2].
Qed.

(** ** One step of each function *)

Lemma publish_S fuel e σ :
  publish type handle (S fuel) e σ =
    if isProcessing (svc σ)
    then Some (Returned, observe (OEnq e) (with_svc (push e) σ))
    else processEventQueue type handle fuel (observe (OEnq e) (with_svc (push e) σ)).
Proof. done. Qed.

Lemma processEventQueue_S fuel σ :
  processEventQueue type handle (S fuel) σ =
    match whileLoop type handle fuel
            (observe ODrainBegin (with_svc (set_processing true) σ)) with
    | Some (Returned, σ') =>
        Some (Returned, observe ODrainEnd (with_svc (set_processing false) σ'))
    | Some (Threw, σ') => Some (Threw, observe ODrainAbort σ')
    | None => None
    end.
Proof. done. Qed.

Lemma whileLoop_S fuel σ :
  whileLoop type handle (S fuel) σ =
    match eventQueue (svc σ) with
    | [] => Some (Returned, σ)
    | e :: rest =>
        match subscribers (svc σ) !! type e with
        | Some _ =>
            match forEach type handle fuel (type e) e 0
                    (observe (OShift e) (with_svc (set_queue rest) σ)) with
            | Some (Returned, σ') => whileLoop type handle fuel σ'
            | r => r
            end
        | None =>
            whileLoop type handle fuel (observe (OShift e) (with_svc (set_queue rest) σ))
        end
    end.
Proof. done. Qed.

Lemma forEach_S fuel key e index σ :
  forEach type handle (S fuel) key e index σ =
    match default [] (subscribers (svc σ) !! key) !! index with
    | None => Some (Returned, σ)
    | Some None => forEach type handle fuel key e (S index) σ
    | Some (Some s) =>
        match runCalls type handle fuel (handle s e (world σ)).2
                (observe (OHandle s e) (with_world (handle s e (world σ)).1 σ)) with
        | Some (Returned, σ') => forEach type handle fuel key e (S index) σ'
        | r => r
        end
    end.
Proof.
  simpl. destruct (default [] (subscribers (svc σ) !! key) !! index) as [[s|]|]; [|done..].
  by destruct (handle s e (world σ)).
Qed.

Lemma runCalls_S fuel calls σ :
  runCalls type handle (S fuel) calls σ =
    match calls with
    | [] => Some (Returned, σ)
    | CallPublish e :: calls =>
        match publish type handle fuel e σ with
        | Some (Returned, σ') => runCalls type handle fuel calls σ'
        | r => r
        end
    | CallSubscribe key s :: calls =>
        runCalls type handle fuel calls
          (observe (OSubscribe key s) (with_svc (subscribe key s) σ))
    | CallUnsubscribe key s :: calls =>
        runCalls type handle fuel calls
          (observe (OUnsubscribe key s) (with_svc (unsubscribe key s) σ))
    | Throw :: _ => Some (Threw, observe ORaise σ)
    end.
Proof. done. Qed.

(** Inside a drain [publish] appends and returns. *)
Lemma publish_nested fuel e σ :
  isProcessing (svc σ) = true →
  publish type handle (S fuel) e σ =
    Some (Returned, observe (OEnq e) (with_svc (push e) σ)).
Proof. intros Hflag. by rewrite publish_S, Hflag. Qed.

(** ** Registry moves *)

Lemma untouched_app key t1 t2 :
  untouched key (t1 ++ t2) ↔ untouched key t1 ∧ untouched key t2.
Proof. apply Forall_app. Qed.

Lemma registry_moves_same p p' t :
  subscribers p' = subscribers p → registry_moves p p' t.
Proof.
  intros Heq. unfold registry_moves, members, wf_registry. rewrite Heq.
  split_and!; auto using evolves_refl.
Qed.

Lemma registry_moves_trans p1 p2 p3 t1 t2 :
  registry_moves p1 p2 t1 → registry_moves p2 p3 t2 →
  registry_moves p1 p3 (t1 ++ t2).
Proof.
  intros (He1 & Hs1 & Hu1 & Hin1 & Hout1 & Hwf1) (He2 & Hs2 & Hu2 & Hin2 & Hout2 & Hwf2).
  split_and!.
  - intros key. eapply evolves_trans; eauto.
  - auto.
  - intros key [Ht1 Ht2]%untouched_app. by rewrite Hu2, Hu1.
  - intros key s Hs. destruct (Hin2 key s Hs) as [Hs'|Hs'].
    + destruct (Hin1 key s Hs'); [by left|right]. apply elem_of_app. by left.
    + right. apply elem_of_app. by right.
  - intros key s Hs. destruct (Hout1 key s Hs) as [Hs'|Hs'].
    + destruct (Hout2 key s Hs'); [by left|right]. apply elem_of_app. by right.
    + right. apply elem_of_app. by left.
  - auto.
Qed.

Lemma registry_moves_subscribe key s p :
  registry_moves p (subscribe key s p) [OSubscribe key s].
Proof.
  split_and!.
  - intros key'. rewrite subscribers_subscribe. case_decide as Hk.
    + subst. simpl. apply set_add_evolves.
    + apply evolves_refl.
  - intros key'. rewrite subscribers_subscribe. case_decide; [by eexists|done].
  - intros key' Hun. rewrite subscribers_subscribe. case_decide as Hk; [|done].
    subst. apply Forall_inv in Hun. cbn in Hun.
    by rewrite bool_decide_eq_true_2 in Hun.
  - intros key' s'. rewrite members_subscribe. case_decide as Hk; [|by left].
    subst. intros [->|Hs']%elem_of_set_add_inv; [right; left|by left].
  - intros key' s'. rewrite members_subscribe. case_decide as Hk; [|by left].
    subst. intros Hs'. left. rewrite live_set_add. case_decide; [done|].
    apply elem_of_app. by left.
  - apply wf_subscribe.
Qed.

Lemma registry_moves_unsubscribe key s p :
  registry_moves p (unsubscribe key s p) [OUnsubscribe key s].
Proof.
  split_and!.
  - intros key'. rewrite subscribers_unsubscribe. case_decide as Hk.
    + subst. destruct (subscribers p !! key'); simpl;
        [apply set_delete_evolves|apply evolves_refl].
    + apply evolves_refl.
  - intros key'. rewrite subscribers_unsubscribe. case_decide as Hk; [|done].
    subst. intros [l ->]. by eexists.
  - intros key' Hun. rewrite subscribers_unsubscribe. case_decide as Hk; [|done].
    subst. apply Forall_inv in Hun. cbn in Hun.
    by rewrite bool_decide_eq_true_2 in Hun.
  - intros key' s'. rewrite members_unsubscribe. case_decide as Hk; [|by left].
    subst. intros Hs'%elem_of_set_delete_inv. by left.
  - intros key' s'. rewrite members_unsubscribe. case_decide as Hk; [|by left].
    subst. intros Hs'. destruct (decide (s' = s)) as [->|Hne]; [right; left|left].
    by apply elem_of_set_delete_ne.
  - apply wf_unsubscribe.
Qed.

(** ** The queue to compare with *)

Lemma ref_run_stuck t :
  foldl (fun oa o => oa ≫= fun a => ref_step a o) None t = None.
Proof. by induction t. Qed.

Lemma ref_run_cons a o t :
  ref_run a (o :: t) = ref_step a o ≫= fun a1 => ref_run a1 t.
Proof.
  unfold ref_run. simpl. destruct (ref_step a o); simpl; [done|apply ref_run_stuck].
Qed.

Lemma ref_run_app a t1 t2 :
  ref_run a (t1 ++ t2) = ref_run a t1 ≫= fun a1 => ref_run a1 t2.
Proof.
  revert a. induction t1 as [|o t1 IH]; intros a; [done|].
  simpl. rewrite !ref_run_cons. destruct (ref_step a o); simpl; [apply IH|done].
Qed.

Lemma ref_run_app_Some a t1 a1 t2 a2 :
  ref_run a t1 = Some a1 → ref_run a1 t2 = Some a2 → ref_run a (t1 ++ t2) = Some a2.
Proof. intros H1 H2. by rewrite ref_run_app, H1. Qed.

Lemma ref_run_app_inv a t1 t2 a2 :
  ref_run a (t1 ++ t2) = Some a2 →
  ∃ a1, ref_run a t1 = Some a1 ∧ ref_run a1 t2 = Some a2.
Proof.
  rewrite ref_run_app. destruct (ref_run a t1) as [a1|]; simpl; [|done]. eauto.
Qed.

(** ** What a drain does

    Each function is followed through one run: the observations it adds are
    accepted by the queue to compare with, the queue and the flag agree with
    it afterwards, and the registry only moves as [registry_moves] allows.
    Inside a drain the flag is set, so a nested [publish] never drains and
    the lemmas go from the innermost function outwards. *)

Lemma runCalls_run fuel : ∀ calls σ a c r σ',
  isProcessing (svc σ) = true →
  pending a = eventQueue (svc σ) →
  mode a = Draining (Some c) →
  runCalls type handle fuel calls σ = Some (r, σ') →
  ∃ t a', trace σ' = trace σ ++ t ∧
          ref_run a t = Some a' ∧
          pending a' = eventQueue (svc σ') ∧
          isProcessing (svc σ') = true ∧
          world σ' = world σ ∧
          Forall (fun o => from_handler o = true) t ∧
          registry_moves (svc σ) (svc σ') t ∧
          match r with
          | Returned => mode a' = Draining (Some c)
          | Threw => mode a' = Raised ∧ ∃ t0, t = t0 ++ [ORaise]
          end.
Proof.
  induction fuel as [|fuel IH]; intros calls σ a c r σ' Hflag Hpend Hmode Hrun;
    [done|].
  rewrite runCalls_S in Hrun.
  destruct calls as [|[e|key s|key s|] calls].
  - injection Hrun as <- <-. exists [], a. rewrite app_nil_r.
    split_and!; try done. by apply registry_moves_same.
  - destruct fuel as [|fuel']; [done|].
    rewrite publish_nested in Hrun by done.
    set (σ1 := observe (OEnq e) (with_svc (push e) σ)) in Hrun.
    destruct (IH calls σ1 (mkRef (pending a ++ [e]) (mode a)) c r σ')
      as (t & a' & Htr & Hacc & Hp & Hf & Hw & Hsh & Hreg & Hr);
      [done|by simpl; rewrite Hpend|done|done|].
    exists (OEnq e :: t), a'.
    split_and!; [|by rewrite ref_run_cons|done|done|done|by constructor| |].
    + rewrite Htr. simpl. by rewrite <-app_assoc.
    + apply (registry_moves_trans _ (svc σ1) _ [OEnq e] t); [|done].
      by apply registry_moves_same.
    + destruct r; [done|]. destruct Hr as (? & t0 & ->). split; [done|].
      by exists (OEnq e :: t0).
  - set (σ1 := observe (OSubscribe key s) (with_svc (subscribe key s) σ)) in Hrun.
    destruct (IH calls σ1 a c r σ')
      as (t & a' & Htr & Hacc & Hp & Hf & Hw & Hsh & Hreg & Hr);
      [done|done|done|done|].
    exists (OSubscribe key s :: t), a'.
    split_and!; [| |done|done|done|by constructor| |].
    + rewrite Htr. simpl. by rewrite <-app_assoc.
    + by rewrite ref_run_cons.
    + apply (registry_moves_trans _ (svc σ1) _ [OSubscribe key s] t); [|done].
      apply registry_moves_subscribe.
    + destruct r; [done|]. destruct Hr as (? & t0 & ->). split; [done|].
      by exists (OSubscribe key s :: t0).
  - set (σ1 := observe (OUnsubscribe key s) (with_svc (unsubscribe key s) σ)) in Hrun.
    destruct (IH calls σ1 a c r σ')
      as (t & a' & Htr & Hacc & Hp & Hf & Hw & Hsh & Hreg & Hr);
      [by simpl; rewrite unsubscribe_flag
      |by simpl; rewrite unsubscribe_queue|done|done|].
    exists (OUnsubscribe key s :: t), a'.
    split_and!; [| |done|done|done|by constructor| |].
    + rewrite Htr. simpl. by rewrite <-app_assoc.
    + by rewrite ref_run_cons.
    + apply (registry_moves_trans _ (svc σ1) _ [OUnsubscribe key s] t); [|done].
      apply registry_moves_unsubscribe.
    + destruct r; [done|]. destruct Hr as (? & t0 & ->). split; [done|].
      by exists (OUnsubscribe key s :: t0).
  - injection Hrun as <- <-. exists [ORaise], (mkRef (pending a) Raised).
    split_and!; [done| |done|done|done|by repeat constructor| |done|by exists []].
    + rewrite ref_run_cons. unfold ref_step. by rewrite Hmode.
    + by apply registry_moves_same.
Qed.

Lemma shifted_app t1 t2 : shifted (t1 ++ t2) = shifted t1 ++ shifted t2.
Proof. apply omap_app. Qed.

Lemma enqueued_app t1 t2 : enqueued (t1 ++ t2) = enqueued t1 ++ enqueued t2.
Proof. apply omap_app. Qed.

Lemma recipients_app e t1 t2 :
  recipients e (t1 ++ t2) = recipients e t1 ++ recipients e t2.
Proof. apply omap_app. Qed.

Lemma recipients_handle s e t : recipients e (OHandle s e :: t) = s :: recipients e t.
Proof. unfold recipients. simpl. by rewrite decide_True. Qed.

Lemma recipients_handle_ne s e e' t :
  e' ≠ e → recipients e' (OHandle s e :: t) = recipients e' t.
Proof. intros Hne. unfold recipients. simpl. by rewrite decide_False. Qed.

Lemma from_handler_delivery e t :
  Forall (fun o => from_handler o = true) t →
  Forall (fun o => from_delivery e o = true) t.
Proof. intros Hall. eapply Forall_impl; [done|]. by intros []. Qed.

Lemma from_delivery_in_drain e t :
  Forall (fun o => from_delivery e o = true) t →
  Forall (fun o => in_drain o = true) t.
Proof. intros Hall. eapply Forall_impl; [done|]. by intros []. Qed.

Lemma ref_step_handle a s e :
  mode a = Draining (Some e) → ref_step a (OHandle s e) = Some a.
Proof. intros Hmode. unfold ref_step. rewrite Hmode. by rewrite decide_True. Qed.

Lemma forEach_run fuel : ∀ key e index σ a r σ',
  isProcessing (svc σ) = true →
  pending a = eventQueue (svc σ) →
  mode a = Draining (Some e) →
  forEach type handle fuel key e index σ = Some (r, σ') →
  ∃ t a', trace σ' = trace σ ++ t ∧
          ref_run a t = Some a' ∧
          pending a' = eventQueue (svc σ') ∧
          isProcessing (svc σ') = true ∧
          Forall (fun o => from_delivery e o = true) t ∧
          registry_moves (svc σ) (svc σ') t ∧
          match r with
          | Returned => mode a' = Draining (Some e)
          | Threw => mode a' = Raised ∧ ∃ t0, t = t0 ++ [ORaise]
          end.
Proof.
  induction fuel as [|fuel IH]; intros key e index σ a r σ' Hflag Hpend Hmode Hrun;
    [done|].
  rewrite forEach_S in Hrun.
  destruct (default [] (subscribers (svc σ) !! key) !! index) as [[s|]|] eqn:Hslot.
  - set (σ0 := observe (OHandle s e) (with_world (handle s e (world σ)).1 σ)) in Hrun.
    destruct (runCalls type handle fuel (handle s e (world σ)).2 σ0)
      as [[r1 σ1]|] eqn:Hcalls; [|done].
    destruct (runCalls_run _ _ σ0 a e _ _ Hflag Hpend Hmode Hcalls)
      as (t1 & a1 & Htr1 & Hacc1 & Hp1 & Hf1 & _ & Hfh1 & Hreg1 & Hr1).
    apply (from_handler_delivery e) in Hfh1.
    destruct r1.
    + destruct (IH key e (S index) σ1 a1 r σ' Hf1 Hp1 Hr1 Hrun)
        as (t2 & a' & Htr2 & Hacc2 & Hp2 & Hf2 & Hfd2 & Hreg2 & Hr2).
      exists (OHandle s e :: t1 ++ t2), a'.
      split_and!; [| |done|done| | |].
      * rewrite Htr2, Htr1. simpl. by rewrite <-!app_assoc.
      * rewrite ref_run_cons, ref_step_handle by done. simpl.
        by eapply ref_run_app_Some.
      * constructor; [by apply bool_decide_eq_true_2|]. by apply Forall_app.
      * apply (registry_moves_trans _ (svc σ0) _ [OHandle s e] (t1 ++ t2));
          [by apply registry_moves_same|].
        by eapply registry_moves_trans.
      * destruct r; [done|]. destruct Hr2 as (? & t0 & ->). split; [done|].
        exists (OHandle s e :: t1 ++ t0). simpl. by rewrite <-app_assoc.
    + injection Hrun as <- <-. destruct Hr1 as (Hm1 & t0 & ->).
      exists (OHandle s e :: t0 ++ [ORaise]), a1.
      split_and!; [| |done|done| | |done|].
      * rewrite Htr1. simpl. by rewrite <-!app_assoc.
      * by rewrite ref_run_cons, ref_step_handle by done.
      * constructor; [by apply bool_decide_eq_true_2|done].
      * apply (registry_moves_trans _ (svc σ0) _ [OHandle s e] (t0 ++ [ORaise]));
          [by apply registry_moves_same|done].
      * by exists (OHandle s e :: t0).
  - by apply (IH key e (S index) σ a r σ').
  - injection Hrun as <- <-. exists [], a. rewrite app_nil_r.
    split_and!; try done. by apply registry_moves_same.
Qed.

Lemma whileLoop_run fuel : ∀ σ a c r σ',
  isProcessing (svc σ) = true →
  pending a = eventQueue (svc σ) →
  mode a = Draining c →
  whileLoop type handle fuel σ = Some (r, σ') →
  ∃ t a', trace σ' = trace σ ++ t ∧
          ref_run a t = Some a' ∧
          pending a' = eventQueue (svc σ') ∧
          isProcessing (svc σ') = true ∧
          Forall (fun o => in_drain o = true) t ∧
          registry_moves (svc σ) (svc σ') t ∧
          match r with
          | Returned => eventQueue (svc σ') = [] ∧ ∃ c', mode a' = Draining c'
          | Threw => mode a' = Raised ∧ ∃ t0, t = t0 ++ [ORaise]
          end.
Proof.
  induction fuel as [|fuel IH]; intros σ a c r σ' Hflag Hpend Hmode Hrun; [done|].
  rewrite whileLoop_S in Hrun.
  destruct (eventQueue (svc σ)) as [|e rest] eqn:Hq.
  - injection Hrun as <- <-. exists [], a. rewrite app_nil_r.
    split_and!; [done|done|by rewrite Hq|done|done|by apply registry_moves_same
                |done|by exists c].
  - set (σ0 := observe (OShift e) (with_svc (set_queue rest) σ)) in Hrun.
    set (a0 := mkRef rest (Draining (Some e))).
    assert (ref_step a (OShift (Sub := Sub) e) = Some a0) as Hstep.
    { unfold ref_step. rewrite Hmode, Hpend. by rewrite decide_True. }
    assert (registry_moves (svc σ) (svc σ0) [OShift e]) as Hreg0
      by by apply registry_moves_same.
    destruct (subscribers (svc σ) !! type e) eqn:Hsubs.
    + destruct (forEach type handle fuel (type e) e 0 σ0) as [[r1 σ1]|] eqn:Hwalk;
        [|done].
      destruct (forEach_run _ _ _ _ σ0 a0 _ _ Hflag eq_refl eq_refl Hwalk)
        as (t1 & a1 & Htr1 & Hacc1 & Hp1 & Hf1 & Hin1 & Hreg1 & Hr1).
      apply from_delivery_in_drain in Hin1.
      destruct r1.
      * destruct (IH σ1 a1 (Some e) r σ' Hf1 Hp1 Hr1 Hrun)
          as (t2 & a' & Htr2 & Hacc2 & Hp2 & Hf2 & Hin2 & Hreg2 & Hr2).
        exists (OShift e :: t1 ++ t2), a'.
        split_and!; [| |done|done| | |].
        -- rewrite Htr2, Htr1. simpl. by rewrite <-!app_assoc.
        -- rewrite ref_run_cons, Hstep. simpl. by eapply ref_run_app_Some.
        -- constructor; [done|]. by apply Forall_app.
        -- apply (registry_moves_trans _ (svc σ0) _ [OShift e] (t1 ++ t2)); [done|].
           by eapply registry_moves_trans.
        -- destruct r; [done|]. destruct Hr2 as (? & t0 & ->). split; [done|].
           exists (OShift e :: t1 ++ t0). simpl. by rewrite <-app_assoc.
      * injection Hrun as <- <-. destruct Hr1 as (Hm1 & t0 & ->).
        exists (OShift e :: t0 ++ [ORaise]), a1.
        split_and!; [| |done|done| | |done|].
        -- rewrite Htr1. simpl. by rewrite <-!app_assoc.
        -- by rewrite ref_run_cons, Hstep.
        -- by constructor.
        -- by apply (registry_moves_trans _ (svc σ0) _ [OShift e] (t0 ++ [ORaise])).
        -- by exists (OShift e :: t0).
    + destruct (IH σ0 a0 (Some e) r σ' Hflag eq_refl eq_refl Hrun)
        as (t2 & a' & Htr2 & Hacc2 & Hp2 & Hf2 & Hin2 & Hreg2 & Hr2).
      exists (OShift e :: t2), a'.
      split_and!; [| |done|done| | |].
      * rewrite Htr2. simpl. by rewrite <-!app_assoc.
      * by rewrite ref_run_cons, Hstep.
      * by constructor.
      * by apply (registry_moves_trans _ (svc σ0) _ [OShift e] t2).
      * destruct r; [done|]. destruct Hr2 as (? & t0 & ->). split; [done|].
        by exists (OShift e :: t0).
Qed.

Lemma processEventQueue_run fuel σ a r σ' :
  pending a = eventQueue (svc σ) →
  mode a = Idle →
  processEventQueue type handle fuel σ = Some (r, σ') →
  ∃ t a', trace σ' = trace σ ++ t ∧
          ref_run a t = Some a' ∧
          pending a' = eventQueue (svc σ') ∧
          registry_moves (svc σ) (svc σ') t ∧
          match r with
          | Returned =>
              eventQueue (svc σ') = [] ∧ isProcessing (svc σ') = false ∧
              mode a' = Idle ∧
              ∃ t0, t = ODrainBegin :: t0 ++ [ODrainEnd] ∧
                    Forall (fun o => in_drain o = true) t0
          | Threw =>
              isProcessing (svc σ') = true ∧ mode a' = Stuck ∧
              ∃ t0, t = ODrainBegin :: t0 ++ [ORaise; ODrainAbort] ∧
                    Forall (fun o => in_drain o = true) t0
          end.
Proof.
  intros Hpend Hmode Hrun. destruct fuel as [|fuel]; [done|].
  rewrite processEventQueue_S in Hrun.
  set (σ0 := observe ODrainBegin (with_svc (set_processing true) σ)) in Hrun.
  set (a0 := mkRef (pending a) (Draining None)).
  assert (ref_step a (ODrainBegin (Sub := Sub)) = Some a0) as Hstep.
  { unfold ref_step. by rewrite Hmode. }
  destruct (whileLoop type handle fuel σ0) as [[r1 σ1]|] eqn:Hloop; [|done].
  destruct (whileLoop_run _ σ0 a0 None _ _ eq_refl Hpend eq_refl Hloop)
    as (t1 & a1 & Htr1 & Hacc1 & Hp1 & Hf1 & Hin1 & Hreg1 & Hr1).
  destruct r1; injection Hrun as <- <-.
  - destruct Hr1 as (Hq1 & c' & Hm1).
    exists (ODrainBegin :: t1 ++ [ODrainEnd]), (mkRef [] Idle).
    split_and!; [| |done| |done|done|done|by exists t1].
    + simpl. rewrite Htr1. simpl. by rewrite <-!app_assoc.
    + rewrite ref_run_cons, Hstep. simpl. eapply ref_run_app_Some; [done|].
      rewrite ref_run_cons. unfold ref_step. by rewrite Hm1, Hp1, Hq1.
    + apply (registry_moves_trans _ (svc σ0) _ [ODrainBegin] (t1 ++ [ODrainEnd]));
        [by apply registry_moves_same|].
      eapply registry_moves_trans; [done|by apply registry_moves_same].
  - destruct Hr1 as (Hm1 & t0 & ->).
    exists (ODrainBegin :: (t0 ++ [ORaise]) ++ [ODrainAbort]), (mkRef (pending a1) Stuck).
    split_and!; [| |done| |done|done|].
    + simpl. rewrite Htr1. simpl. by rewrite <-!app_assoc.
    + rewrite ref_run_cons, Hstep. simpl. eapply ref_run_app_Some; [done|].
      rewrite ref_run_cons. unfold ref_step. by rewrite Hm1.
    + apply (registry_moves_trans _ (svc σ0) _ [ODrainBegin] (_ ++ [ODrainAbort]));
        [by apply registry_moves_same|].
      eapply registry_moves_trans; [done|by apply registry_moves_same].
    + exists t0. split; [by rewrite <-app_assoc|].
      by apply Forall_app in Hin1 as [? _].
Qed.

(** A [publish] made while the flag is clear. *)
Lemma publish_run fuel e σ a r σ' :
  isProcessing (svc σ) = false →
  pending a = eventQueue (svc σ) →
  mode a = Idle →
  publish type handle fuel e σ = Some (r, σ') →
  ∃ t a', trace σ' = trace σ ++ t ∧
          ref_run a t = Some a' ∧
          pending a' = eventQueue (svc σ') ∧
          registry_moves (svc σ) (svc σ') t ∧
          match r with
          | Returned =>
              eventQueue (svc σ') = [] ∧ isProcessing (svc σ') = false ∧
              mode a' = Idle ∧
              ∃ t0, t = OEnq e :: ODrainBegin :: t0 ++ [ODrainEnd] ∧
                    Forall (fun o => in_drain o = true) t0
          | Threw =>
              isProcessing (svc σ') = true ∧ mode a' = Stuck ∧
              ∃ t0, t = OEnq e :: ODrainBegin :: t0 ++ [ORaise; ODrainAbort] ∧
                    Forall (fun o => in_drain o = true) t0
          end.
Proof.
  intros Hflag Hpend Hmode Hrun. destruct fuel as [|fuel]; [done|].
  rewrite publish_S, Hflag in Hrun.
  set (σ0 := observe (OEnq e) (with_svc (push e) σ)) in Hrun.
  set (a0 := mkRef (pending a ++ [e]) Idle).
  destruct (processEventQueue_run _ σ0 a0 _ _ (f_equal (.++ [e]) Hpend) eq_refl Hrun)
    as (t1 & a1 & Htr1 & Hacc1 & Hp1 & Hreg1 & Hr1).
  exists (OEnq e :: t1), a1.
  split_and!; [| |done| |].
  - rewrite Htr1. simpl. by rewrite <-!app_assoc.
  - rewrite ref_run_cons. unfold ref_step. simpl. by rewrite Hmode.
  - apply (registry_moves_trans _ (svc σ0) _ [OEnq e] t1);
      [by apply registry_moves_same|done].
  - destruct r.
    + destruct Hr1 as (? & ? & ? & t0 & -> & ?). split_and!; [done..|]. by exists t0.
    + destruct Hr1 as (? & ? & t0 & -> & ?). split_and!; [done..|]. by exists t0.
Qed.

(** ** Reading an accepted trace *)

Lemma shifted_cons o t : shifted (o :: t) = shifted [o] ++ shifted t.
Proof. apply (shifted_app [o] t). Qed.

Lemma enqueued_cons o t : enqueued (o :: t) = enqueued [o] ++ enqueued t.
Proof. apply (enqueued_app [o] t). Qed.

Lemma drains_begun_app t1 t2 :
  drains_begun (t1 ++ t2) = drains_begun t1 + drains_begun t2.
Proof. unfold drains_begun. by rewrite List.filter_app, length_app. Qed.

Lemma drains_finished_app t1 t2 :
  drains_finished (t1 ++ t2) = drains_finished t1 + drains_finished t2.
Proof. unfold drains_finished. by rewrite List.filter_app, length_app. Qed.

Lemma in_drain_counts t :
  Forall (fun o => in_drain o = true) t → drains_begun t = 0 ∧ drains_finished t = 0.
Proof.
  induction 1 as [|o t Ho _ [IHb IHf]]; [done|].
  change (o :: t) with ([o] ++ t).
  rewrite drains_begun_app, drains_finished_app, IHb, IHf.
  by destruct o.
Qed.

Lemma from_delivery_recipients e e' t :
  Forall (fun o => from_delivery e o = true) t → e' ≠ e → recipients e' t = [].
Proof.
  intros Hall Hne. induction Hall as [|o t Ho _ IH]; [done|].
  destruct o as [| |s e0| | | | | |]; try done.
  apply bool_decide_eq_true in Ho as ->. by rewrite recipients_handle_ne.
Qed.

Lemma from_delivery_shifted e t :
  Forall (fun o => from_delivery e o = true) t → shifted t = [].
Proof. induction 1 as [|o t Ho _ IH]; [done|]. by destruct o. Qed.

(** One accepted observation keeps the books of the queue: what was
    shifted plus what is pending is what was there plus what was enqueued. *)
Lemma ref_step_fifo a o a' :
  ref_step a o = Some a' →
  shifted [o] ++ pending a' = pending a ++ enqueued [o].
Proof.
  destruct a as [q m]. unfold ref_step. simpl. intros Hstep.
  destruct o; repeat case_match; simplify_eq/=; by rewrite ?app_nil_r.
Qed.

Lemma ref_run_fifo t : ∀ a a',
  ref_run a t = Some a' →
  shifted t ++ pending a' = pending a ++ enqueued t.
Proof.
  induction t as [|o t IH]; intros a a'.
  - intros [= <-]. simpl. by rewrite app_nil_r.
  - rewrite ref_run_cons. destruct (ref_step a o) as [a1|] eqn:Hstep; [|done].
    intros Hrun. change (ref_run a1 t = Some a') in Hrun.
    rewrite shifted_cons, enqueued_cons.
    rewrite <-app_assoc, (IH _ _ Hrun), !app_assoc. f_equal.
    by apply ref_step_fifo.
Qed.



(** [OHandle] is accepted only for the event being delivered. *)
Lemma ref_step_handle_inv a s e a' :
  ref_step a (OHandle s e) = Some a' → mode a = Draining (Some e).
Proof.
  unfold ref_step. destruct (mode a) as [|[c|]| |]; try done.
  case_decide; [by subst|done].
Qed.

(** Begun drains and finished drains differ by the drain in progress. *)
Lemma ref_step_active a o a' :
  ref_step a o = Some a' →
  drains_begun [o] + active a = drains_finished [o] + active a'.
Proof.
  destruct a as [q m]. unfold ref_step, active. simpl. intros Hstep.
  destruct o; repeat case_match; by simplify_eq/=.
Qed.

Lemma ref_run_active t : ∀ a a',
  ref_run a t = Some a' →
  drains_begun t + active a = drains_finished t + active a'.
Proof.
  induction t as [|o t IH]; intros a a'.
  - by intros [= <-].
  - rewrite ref_run_cons. destruct (ref_step a o) as [a1|] eqn:Hstep; [|done].
    intros Hrun. change (ref_run a1 t = Some a') in Hrun.
    apply IH in Hrun. apply ref_step_active in Hstep.
    change (o :: t) with ([o] ++ t).
    rewrite drains_begun_app, drains_finished_app. lia.
Qed.

(** After an exception no drain ends well. *)
Lemma ref_step_raised a o a' :
  ref_step a o = Some a' →
  mode a = Raised ∨ mode a = Stuck ∨ o = ORaise →
  mode a' = Raised ∨ mode a' = Stuck.
Proof.
  destruct a as [q m]. unfold ref_step. simpl. intros Hstep Hor.
  destruct o; repeat case_match; simplify_eq/=; auto;
    destruct Hor as [?|[?|?]]; by auto.
Qed.

Lemma ref_run_raised t : ∀ a a',
  ref_run a t = Some a' →
  mode a = Raised ∨ mode a = Stuck ∨ ORaise ∈ t →
  mode a' = Raised ∨ mode a' = Stuck.
Proof.
  induction t as [|o t IH]; intros a a'.
  - intros [= <-] [?|[?|?%elem_of_nil]]; auto; done.
  - rewrite ref_run_cons. destruct (ref_step a o) as [a1|] eqn:Hstep; [|done].
    intros Hrun Hor. change (ref_run a1 t = Some a') in Hrun.
    eapply IH; [done|].
    destruct Hor as [Ha|[Ha|Hin]].
    + destruct (ref_step_raised _ _ _ Hstep) as [?|?]; auto.
    + destruct (ref_step_raised _ _ _ Hstep) as [?|?]; auto.
    + apply elem_of_cons in Hin as [<-|Hin]; [|by auto].
      destruct (ref_step_raised _ _ _ Hstep) as [?|?]; auto.
Qed.

(** The flag stays set only after an exception. *)
Lemma ref_step_raised_inv a o a' :
  ref_step a o = Some a' →
  mode a' = Raised ∨ mode a' = Stuck →
  mode a = Raised ∨ mode a = Stuck ∨ o = ORaise.
Proof.
  destruct a as [q m]. unfold ref_step. simpl. intros Hstep Hor.
  destruct o; repeat case_match; simplify_eq/=; auto;
    destruct Hor as [?|?]; by auto.
Qed.

Lemma ref_run_raised_inv t : ∀ a a',
  ref_run a t = Some a' →
  mode a' = Raised ∨ mode a' = Stuck →
  mode a = Raised ∨ mode a = Stuck ∨ ORaise ∈ t.
Proof.
  induction t as [|o t IH]; intros a a'.
  - intros [= <-] [?|?]; auto.
  - rewrite ref_run_cons. destruct (ref_step a o) as [a1|] eqn:Hstep; [|done].
    intros Hrun Hor. change (ref_run a1 t = Some a') in Hrun.
    destruct (IH _ _ Hrun Hor) as [Ha|[Ha|Hin]].
    + destruct (ref_step_raised_inv _ _ _ Hstep) as [?|[?| ->]]; auto.
      do 2 right. left.
    + destruct (ref_step_raised_inv _ _ _ Hstep) as [?|[?| ->]]; auto.
      do 2 right. left.
    + do 2 right. by right.
Qed.

(** ** Between two calls of the driver *)

Lemma steps_run σ0 σ a0 :
  steps type handle σ0 σ →
  agrees σ0 a0 →
  ∃ t a, trace σ = trace σ0 ++ t ∧ ref_run a0 t = Some a ∧ agrees σ a ∧
         (wf_registry (svc σ0) → wf_registry (svc σ)) ∧
         ((isProcessing (svc σ0) = false → eventQueue (svc σ0) = []) →
          isProcessing (svc σ) = false → eventQueue (svc σ) = []).
Proof.
  intros Hsteps Hag0. induction Hsteps as
    [σ0|σ0 σ1 fuel e r σ2 _ IH Hpub|σ0 σ1 key s _ IH|σ0 σ1 key s _ IH].
  - exists [], a0. by rewrite app_nil_r.
  - destruct (IH Hag0) as (t1 & a1 & Htr1 & Hacc1 & [Hp1 Hm1] & Hwf1 & Hq1).
    destruct (isProcessing (svc σ1)) eqn:Hflag.
    + destruct fuel as [|fuel]; [done|].
      rewrite publish_nested in Hpub by done. injection Hpub as <- <-.
      exists (t1 ++ [OEnq e]), (mkRef (pending a1 ++ [e]) Stuck).
      split_and!; [by simpl; rewrite Htr1, <-app_assoc| | |done|].
      * eapply ref_run_app_Some; [done|].
        rewrite ref_run_cons. unfold ref_step. by rewrite Hm1.
      * split; simpl; [by rewrite Hp1|by rewrite Hflag].
      * simpl. intros _. by rewrite Hflag.
    + destruct (publish_run _ _ _ a1 _ _ Hflag Hp1 Hm1 Hpub)
        as (t2 & a2 & Htr2 & Hacc2 & Hp2 & Hreg2 & Hr2).
      exists (t1 ++ t2), a2.
      split_and!; [by rewrite Htr2, Htr1, <-app_assoc|by eapply ref_run_app_Some| | |].
      * split; [done|]. destruct r.
        -- destruct Hr2 as (_ & -> & -> & _). done.
        -- destruct Hr2 as (-> & -> & _). done.
      * intros Hwf. by apply Hreg2, Hwf1.
      * intros _. destruct r; [by destruct Hr2 as (? & _)|].
        destruct Hr2 as (-> & _). done.
  - destruct (IH Hag0) as (t1 & a1 & Htr1 & Hacc1 & Hag1 & Hwf1 & Hq1).
    exists (t1 ++ [OSubscribe key s]), a1.
    split_and!; [by simpl; rewrite Htr1, <-app_assoc| |done| |done].
    + by eapply ref_run_app_Some.
    + intros Hwf. by apply wf_subscribe, Hwf1.
  - destruct (IH Hag0) as (t1 & a1 & Htr1 & Hacc1 & [Hp1 Hm1] & Hwf1 & Hq1).
    exists (t1 ++ [OUnsubscribe key s]), a1.
    split_and!; [by simpl; rewrite Htr1, <-app_assoc| | | |].
    + by eapply ref_run_app_Some.
    + split; simpl; [by rewrite unsubscribe_queue|by rewrite unsubscribe_flag].
    + intros Hwf. by apply wf_unsubscribe, Hwf1.
    + simpl. rewrite unsubscribe_queue, unsubscribe_flag. done.
Qed.

Lemma reachable_run σ :
  reachable type handle σ →
  ∃ a, ref_run (mkRef [] Idle) (trace σ) = Some a ∧ agrees σ a ∧
       wf_registry (svc σ) ∧
       (isProcessing (svc σ) = false → eventQueue (svc σ) = []).
Proof.
  intros [w Hsteps].
  destruct (steps_run _ _ (mkRef [] Idle) Hsteps)
    as (t & a & Htr & Hacc & Hag & Hwf & Hq); [done|].
  exists a. simpl in Htr. rewrite Htr. split_and!; [done..| |by apply Hq].
  apply Hwf, wf_newPubSubService.
Qed.

(** ** One walk over a subscriber set *)

Lemma from_handler_recipients e t :
  Forall (fun o => from_handler o = true) t → recipients e t = [].
Proof. induction 1 as [|o t Ho _ IH]; [done|]. by destruct o. Qed.

Lemma live_drop_lookup (l : JSSet Sub) index :
  live (drop index l) =
    match l !! index with
    | Some (Some s) => s :: live (drop (S index) l)
    | Some None => live (drop (S index) l)
    | None => []
    end.
Proof.
  destruct (l !! index) as [[s|]|] eqn:Hslot.
  - by rewrite (drop_S _ _ _ Hslot).
  - by rewrite (drop_S _ _ _ Hslot).
  - apply lookup_ge_None in Hslot. by rewrite drop_ge.
Qed.

(** A walk that returned: the slots passed and still live at the end were
    visited; who was visited was a member at the start or was subscribed on
    the way; and when no handler touched the key, the walk visited the
    members it started from, in order. *)
Lemma forEach_walk fuel : ∀ key e index σ σ',
  isProcessing (svc σ) = true →
  forEach type handle fuel key e index σ = Some (Returned, σ') →
  ∃ t, trace σ' = trace σ ++ t ∧
       (∀ j s, index ≤ j →
               default [] (subscribers (svc σ') !! key) !! j = Some (Some s) →
               s ∈ recipients e t) ∧
       (∀ s, s ∈ recipients e t →
             s ∈ members key (svc σ) ∨ OSubscribe key s ∈ t) ∧
       (untouched key t →
        recipients e t = live (drop index (default [] (subscribers (svc σ) !! key))) ∧
        subscribers (svc σ') !! key = subscribers (svc σ) !! key) ∧
       registry_moves (svc σ) (svc σ') t.
Proof.
  induction fuel as [|fuel IH]; intros key e index σ σ' Hflag Hrun; [done|].
  set (a := mkRef (eventQueue (svc σ)) (Draining (Some e))).
  destruct (forEach_run _ _ _ _ _ a _ _ Hflag eq_refl eq_refl Hrun)
    as (t & _ & Htr & _ & _ & _ & _ & Hreg & _).
  exists t. split; [done|].
  rewrite forEach_S in Hrun. rewrite (live_drop_lookup _ index).
  destruct (default [] (subscribers (svc σ) !! key) !! index) as [[s0|]|] eqn:Hslot.
  - set (σ0 := observe (OHandle s0 e) (with_world (handle s0 e (world σ)).1 σ)) in Hrun.
    destruct (runCalls type handle fuel (handle s0 e (world σ)).2 σ0)
      as [[[|] σ1]|] eqn:Hcalls; [|done..].
    destruct (runCalls_run _ _ σ0 a e _ _ Hflag eq_refl eq_refl Hcalls)
      as (t1 & _ & Htr1 & _ & _ & Hf1 & _ & Hfh1 & Hreg1 & _).
    destruct (IH key e (S index) σ1 σ' Hf1 Hrun)
      as (t2 & Htr2 & Hvis2 & Hrec2 & Hun2 & Hreg2).
    assert (t = OHandle s0 e :: t1 ++ t2) as ->.
    { apply (app_inv_head (trace σ)). rewrite <-Htr, Htr2, Htr1. simpl.
      by rewrite <-!app_assoc. }
    rewrite recipients_handle, recipients_app, (from_handler_recipients _ _ Hfh1).
    simpl. split_and!; [| | |done].
    + intros j s Hj Hs. destruct (decide (j = index)) as [->|Hne].
      * destruct Hreg as (Hev & _). apply lookup_lt_Some in Hslot as Hlt.
        rewrite (evolves_live_before _ _ _ _ (Hev key) Hlt Hs) in Hslot.
        injection Hslot as ->. left.
      * right. apply (Hvis2 j s); [lia|done].
    + intros s [->|Hs]%elem_of_cons.
      { left. apply live_lookup. by exists index. }
      destruct (Hrec2 s Hs) as [Hin|Hin].
      * destruct Hreg1 as (_ & _ & _ & Hin1 & _).
        destruct (Hin1 key s Hin) as [?|?]; [by left|].
        right. right. apply elem_of_app. by left.
      * right. right. apply elem_of_app. by right.
    + intros Hun. change (OHandle s0 e :: t1 ++ t2) with ([OHandle s0 e] ++ t1 ++ t2) in Hun.
      apply untouched_app in Hun as [_ [Hut1 Hut2]%untouched_app].
      destruct (Hun2 Hut2) as [-> ->]. destruct Hreg1 as (_ & _ & Hsame & _).
      rewrite (Hsame key Hut1). done.
  - destruct (IH key e (S index) σ σ' Hflag Hrun)
      as (t2 & Htr2 & Hvis2 & Hrec2 & Hun2 & Hreg2).
    assert (t = t2) as -> by (apply (app_inv_head (trace σ)); congruence).
    split_and!; [|done|done|done].
    intros j s Hj Hs. destruct (decide (j = index)) as [->|Hne].
    + destruct Hreg as (Hev & _). apply lookup_lt_Some in Hslot as Hlt.
      rewrite (evolves_live_before _ _ _ _ (Hev key) Hlt Hs) in Hslot. done.
    + apply (Hvis2 j s); [lia|done].
  - injection Hrun as <-.
    assert (t = []) as -> by (apply (app_inv_head (trace σ)); by rewrite app_nil_r).
    split_and!; [|by intros s ?%elem_of_nil|done|done].
    intros j s Hj Hs. apply lookup_ge_None in Hslot.
    apply lookup_lt_Some in Hs. lia.
Qed.

(** ** Counting deliveries *)

Lemma occurrences_app {A} `{EqDecision A} (x : A) (l1 l2 : list A) :
  occurrences x (l1 ++ l2) = occurrences x l1 + occurrences x l2.
Proof. unfold occurrences. by rewrite filter_app, length_app. Qed.

Lemma occurrences_absent {A} `{EqDecision A} (x : A) (l : list A) :
  x ∉ l → occurrences x l = 0.
Proof.
  unfold occurrences. induction l as [|y l IH]; intros Hx; [done|].
  apply not_elem_of_cons in Hx as [Hne Hx].
  rewrite filter_cons_False by congruence. auto.
Qed.

Lemma occurrences_NoDup {A} `{EqDecision A} (x : A) (l : list A) :
  NoDup l → x ∈ l → occurrences x l = 1.
Proof.
  unfold occurrences. induction 1 as [|y l Hy Hnd IH]; intros Hx.
  - by apply elem_of_nil in Hx.
  - destruct (decide (y = x)) as [->|Hne].
    + rewrite filter_cons_True by done. simpl. f_equal.
      by apply (occurrences_absent x l).
    + rewrite filter_cons_False by done. apply IH.
      apply elem_of_cons in Hx as [?|?]; [congruence|done].
Qed.

Lemma occurrences_singleton {A} `{EqDecision A} (x y : A) :
  occurrences x [y] = if decide (y = x) then 1 else 0.
Proof.
  unfold occurrences. case_decide.
  - by rewrite filter_cons_True.
  - by rewrite filter_cons_False.
Qed.

Lemma members_same key p p' :
  subscribers p' !! key = subscribers p !! key → members key p' = members key p.
Proof. unfold members. by intros ->. Qed.

(** In a drain whose handlers leave [key] alone, a member for [key] is
    handed an event of that kind once each time the event is shifted. *)
Lemma whileLoop_counts fuel : ∀ key s σ σ' t,
  isProcessing (svc σ) = true →
  wf_registry (svc σ) →
  s ∈ members key (svc σ) →
  whileLoop type handle fuel σ = Some (Returned, σ') →
  trace σ' = trace σ ++ t →
  untouched key t →
  ∀ e, type e = key → occurrences s (recipients e t) = occurrences e (shifted t).
Proof.
  induction fuel as [|fuel IH]; intros key s σ σ' t Hflag Hwf Hs Hrun Htr Hut e He;
    [done|].
  rewrite whileLoop_S in Hrun.
  destruct (eventQueue (svc σ)) as [|e0 rest] eqn:Hq.
  - injection Hrun as <-.
    assert (t = []) as -> by (apply (app_inv_head (trace σ)); by rewrite app_nil_r).
    done.
  - set (σ0 := observe (OShift e0) (with_svc (set_queue rest) σ)) in Hrun.
    set (a0 := mkRef rest (Draining (Some e0))).
    destruct (subscribers (svc σ) !! type e0) eqn:Hsubs.
    + destruct (forEach type handle fuel (type e0) e0 0 σ0)
        as [[[|] σ1]|] eqn:Hwalk; [|done..].
      destruct (forEach_run _ _ _ _ σ0 a0 _ _ Hflag eq_refl eq_refl Hwalk)
        as (t1 & a1 & Htr1 & _ & Hp1 & Hf1 & Hfd1 & Hreg1 & Hm1).
      destruct (forEach_walk _ _ _ _ σ0 _ Hflag Hwalk)
        as (t1' & Htr1' & _ & _ & Hun1 & _).
      assert (t1' = t1) as -> by (apply (app_inv_head (trace σ0)); congruence).
      destruct (whileLoop_run _ σ1 a1 _ _ _ Hf1 Hp1 Hm1 Hrun)
        as (t2 & _ & Htr2 & _).
      assert (t = [OShift e0] ++ t1 ++ t2) as ->.
      { apply (app_inv_head (trace σ)). rewrite <-Htr, Htr2, Htr1. simpl.
        by rewrite <-!app_assoc. }
      apply untouched_app in Hut as [_ [Hut1 Hut2]%untouched_app].
      destruct Hreg1 as (_ & _ & Hsame1 & _ & _ & Hwf1).
      rewrite !recipients_app, !shifted_app, !occurrences_app.
      rewrite (from_delivery_shifted _ _ Hfd1).
      rewrite (IH key s σ1 σ' t2 Hf1 (Hwf1 Hwf)); [|  |done..].
      2:{ by rewrite (members_same _ _ _ (Hsame1 key Hut1)). }
      change (recipients e [OShift e0]) with (@nil Sub).
      change (shifted [OShift (Sub := Sub) e0]) with [e0].
      rewrite occurrences_singleton. simpl. f_equal.
      case_decide as Heq.
      * subst e0. rewrite He in Hun1. destruct (Hun1 Hut1) as [-> _].
        rewrite drop_0. apply occurrences_NoDup; [|done].
        by apply (wf_members key (svc σ)).
      * by rewrite (from_delivery_recipients e0 e t1).
    + destruct (whileLoop_run _ σ0 a0 _ _ _ Hflag eq_refl eq_refl Hrun)
        as (t2 & _ & Htr2 & _).
      assert (t = [OShift e0] ++ t2) as ->.
      { apply (app_inv_head (trace σ)). rewrite <-Htr, Htr2. simpl.
        by rewrite <-!app_assoc. }
      apply untouched_app in Hut as [_ Hut2].
      rewrite !recipients_app, !shifted_app, !occurrences_app.
      rewrite (IH key s σ0 σ' t2 Hflag Hwf Hs Hrun Htr2 Hut2 e He).
      change (recipients e [OShift e0]) with (@nil Sub).
      change (shifted [OShift (Sub := Sub) e0]) with [e0].
      rewrite occurrences_singleton. simpl. f_equal.
      case_decide as Heq; [|done]. subst e0. rewrite He in Hsubs.
      unfold members in Hs. rewrite Hsubs in Hs. by apply elem_of_nil in Hs.
Qed.

(** The same for a [publish] made while the flag is clear. *)
Lemma publish_counts fuel key s e0 σ σ' t :
  isProcessing (svc σ) = false →
  wf_registry (svc σ) →
  s ∈ members key (svc σ) →
  publish type handle fuel e0 σ = Some (Returned, σ') →
  trace σ' = trace σ ++ t →
  untouched key t →
  ∀ e, type e = key → occurrences s (recipients e t) = occurrences e (shifted t).
Proof.
  intros Hflag Hwf Hs Hrun Htr Hut e He. destruct fuel as [|fuel]; [done|].
  rewrite publish_S, Hflag in Hrun. destruct fuel as [|fuel]; [done|].
  rewrite processEventQueue_S in Hrun.
  set (σ0 := observe ODrainBegin (with_svc (set_processing true)
               (observe (OEnq e0) (with_svc (push e0) σ)))) in Hrun.
  destruct (whileLoop type handle fuel σ0) as [[[|] σ1]|] eqn:Hloop; [|done..].
  injection Hrun as <-.
  set (a0 := mkRef (eventQueue (svc σ0)) (Draining None)).
  destruct (whileLoop_run _ σ0 a0 _ _ _ eq_refl eq_refl eq_refl Hloop)
    as (t1 & _ & Htr1 & _).
  assert (t = [OEnq e0; ODrainBegin] ++ t1 ++ [ODrainEnd]) as ->.
  { apply (app_inv_head (trace σ)). rewrite <-Htr. simpl. rewrite Htr1. simpl.
    by rewrite <-!app_assoc. }
  apply untouched_app in Hut as [_ [Hut1 _]%untouched_app].
  rewrite !recipients_app, !shifted_app, !occurrences_app.
  rewrite (whileLoop_counts _ key s σ0 σ1 t1 eq_refl Hwf Hs Hloop Htr1 Hut1 e He).
  done.
Qed.

(** ** Fuel

    More fuel never changes a result. *)

Lemma fuel_mono fuel :
  (∀ e σ res, publish type handle fuel e σ = Some res →
     ∀ fuel', fuel ≤ fuel' → publish type handle fuel' e σ = Some res) ∧
  (∀ σ res, processEventQueue type handle fuel σ = Some res →
     ∀ fuel', fuel ≤ fuel' → processEventQueue type handle fuel' σ = Some res) ∧
  (∀ σ res, whileLoop type handle fuel σ = Some res →
     ∀ fuel', fuel ≤ fuel' → whileLoop type handle fuel' σ = Some res) ∧
  (∀ key e index σ res, forEach type handle fuel key e index σ = Some res →
     ∀ fuel', fuel ≤ fuel' → forEach type handle fuel' key e index σ = Some res) ∧
  (∀ calls σ res, runCalls type handle fuel calls σ = Some res →
     ∀ fuel', fuel ≤ fuel' → runCalls type handle fuel' calls σ = Some res).
Proof.
  induction fuel as [|fuel (IHpub & IHproc & IHloop & IHwalk & IHcalls)];
    [by split_and!|].
  split_and!.
  - intros e σ res Hrun [|fuel'] Hle; [lia|]. rewrite publish_S in Hrun |- *.
    destruct (isProcessing (svc σ)); [done|]. apply IHproc; [done|lia].
  - intros σ res Hrun [|fuel'] Hle; [lia|].
    rewrite processEventQueue_S in Hrun |- *.
    destruct (whileLoop type handle fuel _) as [res1|] eqn:Hloop; [|done].
    by rewrite (IHloop _ _ Hloop fuel') by lia.
  - intros σ res Hrun [|fuel'] Hle; [lia|]. rewrite whileLoop_S in Hrun |- *.
    destruct (eventQueue (svc σ)) as [|e rest]; [done|].
    destruct (subscribers (svc σ) !! type e).
    + destruct (forEach type handle fuel _ _ _ _) as [[r1 σ1]|] eqn:Hwalk; [|done].
      rewrite (IHwalk _ _ _ _ _ Hwalk fuel') by lia.
      destruct r1; [|done]. apply IHloop; [done|lia].
    + apply IHloop; [done|lia].
  - intros key e index σ res Hrun [|fuel'] Hle; [lia|].
    rewrite forEach_S in Hrun |- *.
    destruct (default [] (subscribers (svc σ) !! key) !! index) as [[s|]|]; [| |done].
    + destruct (runCalls type handle fuel _ _) as [[r1 σ1]|] eqn:Hcalls; [|done].
      rewrite (IHcalls _ _ _ Hcalls fuel') by lia.
      destruct r1; [|done]. apply IHwalk; [done|lia].
    + apply IHwalk; [done|lia].
  - intros calls σ res Hrun [|fuel'] Hle; [lia|]. rewrite runCalls_S in Hrun |- *.
    destruct calls as [|[e|key s|key s|] calls]; [done| | |  |done].
    + destruct (publish type handle fuel e σ) as [[r1 σ1]|] eqn:Hpub; [|done].
      rewrite (IHpub _ _ _ Hpub fuel') by lia.
      destruct r1; [|done]. apply IHcalls; [done|lia].
    + apply IHcalls; [done|lia].
    + apply IHcalls; [done|lia].
Qed.

Lemma whileLoop_mono fuel fuel' σ res :
  whileLoop type handle fuel σ = Some res → fuel ≤ fuel' →
  whileLoop type handle fuel' σ = Some res.
Proof. intros Hrun. by apply (fuel_mono fuel). Qed.

Lemma forEach_mono fuel fuel' key e index σ res :
  forEach type handle fuel key e index σ = Some res → fuel ≤ fuel' →
  forEach type handle fuel' key e index σ = Some res.
Proof. intros Hrun. by apply (fuel_mono fuel). Qed.

Lemma runCalls_mono fuel fuel' calls σ res :
  runCalls type handle fuel calls σ = Some res → fuel ≤ fuel' →
  runCalls type handle fuel' calls σ = Some res.
Proof. intros Hrun. by apply (fuel_mono fuel). Qed.

Lemma publish_mono fuel fuel' e σ res :
  publish type handle fuel e σ = Some res → fuel ≤ fuel' →
  publish type handle fuel' e σ = Some res.
Proof. intros Hrun. by apply (fuel_mono fuel). Qed.

(** ** Services that cannot be told apart

    What a run does depends on the members of each kind, not on the slots
    that [delete] emptied nor on whether a kind without members has an
    entry: two systems that are alike stay alike, with the same outcome,
    the same world and the same trace. *)

Lemma alike_members key σ1 σ2 :
  alike σ1 σ2 → members key (svc σ1) = members key (svc σ2).
Proof. by intros [[Hmem _] _]. Qed.

Lemma same_members_sym p1 p2 : same_members p1 p2 → same_members p2 p1.
Proof. intros (Hmem & Hq & Hf). by split_and!. Qed.

Lemma alike_sym σ1 σ2 : alike σ1 σ2 → alike σ2 σ1.
Proof. intros (Hsame & Hw & Ht). split_and!; [by apply same_members_sym|done..]. Qed.

Lemma alike_observe o σ1 σ2 : alike σ1 σ2 → alike (observe o σ1) (observe o σ2).
Proof. intros (Hsame & Hw & Ht). split_and!; simpl; [done..|by rewrite Ht]. Qed.

Lemma alike_with_svc f σ1 σ2 :
  alike σ1 σ2 → same_members (f (svc σ1)) (f (svc σ2)) →
  alike (with_svc f σ1) (with_svc f σ2).
Proof. by intros (Hsame & Hw & Ht) Hf. Qed.

Lemma same_members_push e p1 p2 :
  same_members p1 p2 → same_members (push e p1) (push e p2).
Proof. intros (Hmem & Hq & Hf). split_and!; simpl; [done|by rewrite Hq|done]. Qed.

Lemma same_members_set_queue q p1 p2 :
  same_members p1 p2 → same_members (set_queue q p1) (set_queue q p2).
Proof. by intros (Hmem & Hq & Hf). Qed.

Lemma same_members_set_processing b p1 p2 :
  same_members p1 p2 → same_members (set_processing b p1) (set_processing b p2).
Proof. by intros (Hmem & Hq & Hf). Qed.

Lemma same_members_subscribe key s p1 p2 :
  same_members p1 p2 → same_members (subscribe key s p1) (subscribe key s p2).
Proof.
  intros (Hmem & Hq & Hf). split_and!; [|done..].
  intros key'. rewrite !members_subscribe. case_decide; [|done].
  rewrite !live_set_add. fold (members key p1) (members key p2).
  by rewrite (Hmem key).
Qed.

Lemma same_members_unsubscribe key s p1 p2 :
  wf_registry p1 → wf_registry p2 →
  same_members p1 p2 → same_members (unsubscribe key s p1) (unsubscribe key s p2).
Proof.
  intros Hwf1 Hwf2 (Hmem & Hq & Hf).
  split_and!; [|by rewrite !unsubscribe_queue|by rewrite !unsubscribe_flag].
  intros key'. rewrite !members_unsubscribe. case_decide; [|done].
  rewrite !live_set_delete by (by apply wf_members).
  fold (members key p1) (members key p2). by rewrite (Hmem key).
Qed.

Lemma walk_alike_subscribe key i1 i2 key' s p1 p2 :
  same_members p1 p2 →
  walk_alike key i1 i2 p1 p2 →
  walk_alike key i1 i2 (subscribe key' s p1) (subscribe key' s p2).
Proof.
  intros (Hmem & _) (Hi1 & Hi2 & Hlive). unfold walk_alike.
  rewrite !subscribers_subscribe. case_decide as Hk; [|done]. subst key'. simpl.
  split_and!.
  - etrans; [done|apply set_add_length].
  - etrans; [done|apply set_add_length].
  - rewrite !live_drop_set_add by done. fold (members key p1) (members key p2).
    rewrite Hlive, (Hmem key). done.
Qed.

Lemma walk_alike_unsubscribe key i1 i2 key' s p1 p2 :
  wf_registry p1 → wf_registry p2 →
  walk_alike key i1 i2 p1 p2 →
  walk_alike key i1 i2 (unsubscribe key' s p1) (unsubscribe key' s p2).
Proof.
  intros Hwf1 Hwf2 (Hi1 & Hi2 & Hlive). unfold walk_alike.
  rewrite !subscribers_unsubscribe. case_decide as Hk; [|done]. subst key'.
  assert (∀ p, default [] (set_delete s <$> subscribers p !! key) =
               set_delete s (default [] (subscribers p !! key))) as Hdef.
  { intros p. by destruct (subscribers p !! key). }
  rewrite !Hdef, !set_delete_length.
  split_and!; [done..|].
  rewrite !live_drop_set_delete by (by apply wf_members). by rewrite Hlive.
Qed.

Lemma runCalls_alike fuel : ∀ calls σ1 σ2 r σ1',
  isProcessing (svc σ1) = true →
  wf_registry (svc σ1) → wf_registry (svc σ2) →
  alike σ1 σ2 →
  runCalls type handle fuel calls σ1 = Some (r, σ1') →
  ∃ σ2', runCalls type handle fuel calls σ2 = Some (r, σ2') ∧
         alike σ1' σ2' ∧ isProcessing (svc σ1') = true ∧
         wf_registry (svc σ1') ∧ wf_registry (svc σ2') ∧
         ∀ key i1 i2, walk_alike key i1 i2 (svc σ1) (svc σ2) →
                      walk_alike key i1 i2 (svc σ1') (svc σ2').
Proof.
  induction fuel as [|fuel IH];
    intros calls σ1 σ2 r σ1' Hflag Hwf1 Hwf2 Hal Hrun; [done|].
  assert (isProcessing (svc σ2) = true) as Hflag2
    by (destruct Hal as ((_ & _ & <-) & _); done).
  rewrite runCalls_S in Hrun |- *.
  destruct calls as [|[e|key s|key s|] calls].
  - injection Hrun as <- <-. by exists σ2.
  - destruct fuel as [|fuel']; [done|].
    rewrite publish_nested in Hrun |- * by done.
    destruct (IH calls (observe (OEnq e) (with_svc (push e) σ1))
                (observe (OEnq e) (with_svc (push e) σ2)) r σ1')
      as (σ2' & Hrun2 & Hal2 & Hf2 & Hwf1' & Hwf2' & Hwalk); [done..| |done|].
    { apply alike_observe, alike_with_svc; [done|].
      apply same_members_push. by destruct Hal. }
    by exists σ2'.
  - destruct (IH calls (observe (OSubscribe key s) (with_svc (subscribe key s) σ1))
                (observe (OSubscribe key s) (with_svc (subscribe key s) σ2)) r σ1')
      as (σ2' & Hrun2 & Hal2 & Hf2 & Hwf1' & Hwf2' & Hwalk);
      [done|by apply wf_subscribe|by apply wf_subscribe| |done|].
    { apply alike_observe, alike_with_svc; [done|].
      apply same_members_subscribe. by destruct Hal. }
    exists σ2'. split_and!; [done..|].
    intros k i1 i2 Hwalk0. apply Hwalk. simpl.
    apply walk_alike_subscribe; [by destruct Hal|done].
  - destruct (IH calls
                (observe (OUnsubscribe key s) (with_svc (unsubscribe key s) σ1))
                (observe (OUnsubscribe key s) (with_svc (unsubscribe key s) σ2))
                r σ1')
      as (σ2' & Hrun2 & Hal2 & Hf2 & Hwf1' & Hwf2' & Hwalk);
      [by simpl; rewrite unsubscribe_flag
      |by apply wf_unsubscribe|by apply wf_unsubscribe| |done|].
    { apply alike_observe, alike_with_svc; [done|].
      apply same_members_unsubscribe; [done..|]. by destruct Hal. }
    exists σ2'. split_and!; [done..|].
    intros k i1 i2 Hwalk0. apply Hwalk. simpl.
    by apply walk_alike_unsubscribe.
  - injection Hrun as <- <-. exists (observe ORaise σ2).
    split_and!; [done|by apply alike_observe|done..].
Qed.

(** Emptied slots are passed without a call. *)
Lemma forEach_skip n : ∀ fuel key e i σ,
  (∀ k, i ≤ k < i + n → default [] (subscribers (svc σ) !! key) !! k = Some None) →
  forEach type handle (n + fuel) key e i σ =
  forEach type handle fuel key e (i + n) σ.
Proof.
  induction n as [|n IH]; intros fuel key e i σ Hdead.
  - by rewrite Nat.add_0_r.
  - change (S n + fuel) with (S (n + fuel)). rewrite forEach_S, Hdead by lia.
    rewrite IH; [by replace (S i + n) with (i + S n) by lia|].
    intros k Hk. apply Hdead. lia.
Qed.

(** A walk with no member left to visit returns at once. *)
Lemma forEach_no_member key e i σ :
  live (drop i (default [] (subscribers (svc σ) !! key))) = [] →
  ∃ fuel, forEach type handle fuel key e i σ = Some (Returned, σ).
Proof.
  intros Hlive. set (l := default [] (subscribers (svc σ) !! key)) in *.
  exists ((length l - i) + 1). rewrite forEach_skip.
  - rewrite forEach_S. fold l.
    rewrite (proj2 (lookup_ge_None l (i + (length l - i)))) by lia. done.
  - intros k Hk. fold l. apply (no_live_left l i); [done|lia..].
Qed.

Lemma forEach_alike fuel : ∀ key e i1 i2 σ1 σ2 r σ1',
  isProcessing (svc σ1) = true →
  wf_registry (svc σ1) → wf_registry (svc σ2) →
  alike σ1 σ2 →
  walk_alike key i1 i2 (svc σ1) (svc σ2) →
  forEach type handle fuel key e i1 σ1 = Some (r, σ1') →
  ∃ fuel' σ2', forEach type handle fuel' key e i2 σ2 = Some (r, σ2') ∧
               alike σ1' σ2' ∧ isProcessing (svc σ1') = true ∧
               wf_registry (svc σ1') ∧ wf_registry (svc σ2').
Proof.
  induction fuel as [|fuel IH];
    intros key e i1 i2 σ1 σ2 r σ1' Hflag Hwf1 Hwf2 Hal Hwalk Hrun; [done|].
  rewrite forEach_S in Hrun. destruct Hwalk as (Hi1 & Hi2 & Hlive).
  rewrite (live_drop_lookup _ i1) in Hlive.
  destruct (default [] (subscribers (svc σ1) !! key) !! i1) as [[s|]|] eqn:Hslot.
  - symmetry in Hlive.
    destruct (next_live _ _ i2 s _ eq_refl Hlive) as (j2 & Hj2 & Hs2 & Hdead & Hrest).
    pose proof Hal as (Hsame & Hw & Ht).
    set (σ1_0 := observe (OHandle s e) (with_world (handle s e (world σ1)).1 σ1)) in Hrun.
    set (σ2_0 := observe (OHandle s e) (with_world (handle s e (world σ2)).1 σ2)).
    assert (alike σ1_0 σ2_0) as Hal0.
    { split_and!; simpl; [done|by rewrite Hw|by rewrite Ht]. }
    destruct (runCalls type handle fuel (handle s e (world σ1)).2 σ1_0)
      as [[r1 σ1_1]|] eqn:Hcalls; [|done].
    destruct (runCalls_alike _ _ σ1_0 σ2_0 _ _ Hflag Hwf1 Hwf2 Hal0 Hcalls)
      as (σ2_1 & Hcalls2 & Hal1 & Hf1 & Hwf1' & Hwf2' & Hkeep).
    rewrite Hw in Hcalls2.
    assert (walk_alike key (S i1) (S j2) (svc σ1_1) (svc σ2_1)) as Hwalk1.
    { apply Hkeep. split_and!; simpl.
      - by apply lookup_lt_Some in Hslot.
      - by apply lookup_lt_Some in Hs2.
      - done. }
    assert (∀ f, forEach type handle ((j2 - i2) + S f) key e i2 σ2 =
                 match runCalls type handle f (handle s e (world σ2)).2 σ2_0 with
                 | Some (Returned, σ') => forEach type handle f key e (S j2) σ'
                 | res => res
                 end) as Hside2.
    { intros f. rewrite forEach_skip.
      - replace (i2 + (j2 - i2)) with j2 by lia. by rewrite forEach_S, Hs2.
      - intros k Hk. apply Hdead. lia. }
    destruct r1.
    + destruct (IH key e (S i1) (S j2) σ1_1 σ2_1 r σ1' Hf1 Hwf1' Hwf2' Hal1 Hwalk1 Hrun)
        as (fuel2 & σ2' & Hrun2 & Hal2 & Hf2 & Hwf1'' & Hwf2'').
      exists ((j2 - i2) + S (fuel `max` fuel2)), σ2'. split_and!; [|done..].
      rewrite Hside2, (runCalls_mono _ _ _ _ _ Hcalls2) by lia.
      apply (forEach_mono _ _ _ _ _ _ _ Hrun2). lia.
    + injection Hrun as <- <-. exists ((j2 - i2) + S fuel), σ2_1.
      split_and!; [|done..]. by rewrite Hside2, Hcalls2.
  - apply (IH key e (S i1) i2 σ1 σ2 r σ1'); try done.
    split_and!; [by apply lookup_lt_Some in Hslot|done..].
  - injection Hrun as <- <-. symmetry in Hlive.
    destruct (forEach_no_member key e i2 σ2 Hlive) as (fuel2 & Hrun2).
    by exists fuel2, σ2.
Qed.

(** The loop hands every event to [forEach]: for a kind without entry the
    walk is over the empty list. *)
Lemma whileLoop_S_walk fuel σ :
  whileLoop type handle (S fuel) σ =
    match eventQueue (svc σ) with
    | [] => Some (Returned, σ)
    | e :: rest =>
        match forEach type handle fuel (type e) e 0
                (observe (OShift e) (with_svc (set_queue rest) σ)) with
        | Some (Returned, σ') => whileLoop type handle fuel σ'
        | r => r
        end
    end.
Proof.
  rewrite whileLoop_S. destruct (eventQueue (svc σ)) as [|e rest]; [done|].
  destruct (subscribers (svc σ) !! type e) eqn:Hsubs; [done|].
  destruct fuel as [|fuel]; [done|]. rewrite forEach_S. simpl. by rewrite Hsubs.
Qed.

Lemma whileLoop_alike fuel : ∀ σ1 σ2 r σ1',
  isProcessing (svc σ1) = true →
  wf_registry (svc σ1) → wf_registry (svc σ2) →
  alike σ1 σ2 →
  whileLoop type handle fuel σ1 = Some (r, σ1') →
  ∃ fuel' σ2', whileLoop type handle fuel' σ2 = Some (r, σ2') ∧
               alike σ1' σ2' ∧ wf_registry (svc σ1') ∧ wf_registry (svc σ2').
Proof.
  induction fuel as [|fuel IH]; intros σ1 σ2 r σ1' Hflag Hwf1 Hwf2 Hal Hrun; [done|].
  rewrite whileLoop_S_walk in Hrun.
  assert (eventQueue (svc σ1) = eventQueue (svc σ2)) as Hq
    by (by destruct Hal as ((_ & ? & _) & _)).
  destruct (eventQueue (svc σ1)) as [|e rest] eqn:Hq1.
  - injection Hrun as <- <-. exists 1, σ2. rewrite whileLoop_S, <-Hq. done.
  - set (σ1_0 := observe (OShift e) (with_svc (set_queue rest) σ1)) in Hrun.
    set (σ2_0 := observe (OShift e) (with_svc (set_queue rest) σ2)).
    assert (alike σ1_0 σ2_0) as Hal0.
    { apply alike_observe, alike_with_svc; [done|].
      apply same_members_set_queue. by destruct Hal. }
    assert (walk_alike (type e) 0 0 (svc σ1_0) (svc σ2_0)) as Hwalk0.
    { split_and!; [lia..|]. rewrite !drop_0. apply (alike_members (type e) _ _ Hal). }
    destruct (forEach type handle fuel (type e) e 0 σ1_0) as [[r1 σ1_1]|] eqn:Hwalk;
      [|done].
    destruct (forEach_alike _ _ _ _ _ σ1_0 σ2_0 _ _ Hflag Hwf1 Hwf2 Hal0 Hwalk0 Hwalk)
      as (fuel1 & σ2_1 & Hwalk2 & Hal1 & Hf1 & Hwf1' & Hwf2').
    destruct r1.
    + destruct (IH σ1_1 σ2_1 r σ1' Hf1 Hwf1' Hwf2' Hal1 Hrun)
        as (fuel2 & σ2' & Hrun2 & Hal2 & Hwf1'' & Hwf2'').
      exists (S (fuel1 `max` fuel2)), σ2'. split_and!; [|done..].
      rewrite whileLoop_S_walk, <-Hq. fold σ2_0.
      rewrite (forEach_mono _ _ _ _ _ _ _ Hwalk2) by lia.
      apply (whileLoop_mono _ _ _ _ Hrun2). lia.
    + injection Hrun as <- <-. exists (S fuel1), σ2_1. split_and!; [|done..].
      rewrite whileLoop_S_walk, <-Hq. fold σ2_0. by rewrite Hwalk2.
Qed.

(** A [publish] on two systems that are alike has the same outcome and
    leaves them alike. *)
Lemma publish_alike fuel e σ1 σ2 r σ1' :
  wf_registry (svc σ1) → wf_registry (svc σ2) →
  alike σ1 σ2 →
  publish type handle fuel e σ1 = Some (r, σ1') →
  ∃ fuel' σ2', publish type handle fuel' e σ2 = Some (r, σ2') ∧ alike σ1' σ2'.
Proof.
  intros Hwf1 Hwf2 Hal Hrun. destruct fuel as [|fuel]; [done|].
  assert (isProcessing (svc σ1) = isProcessing (svc σ2)) as Hf
    by (by destruct Hal as ((_ & _ & ?) & _)).
  assert (alike (observe (OEnq e) (with_svc (push e) σ1))
                (observe (OEnq e) (with_svc (push e) σ2))) as Halq.
  { apply alike_observe, alike_with_svc; [done|]. apply same_members_push.
    by destruct Hal. }
  rewrite publish_S in Hrun.
  destruct (isProcessing (svc σ1)) eqn:Hflag.
  - injection Hrun as <- <-. exists 1, (observe (OEnq e) (with_svc (push e) σ2)).
    by rewrite publish_S, <-Hf.
  - destruct fuel as [|fuel]; [done|]. rewrite processEventQueue_S in Hrun.
    set (σ1_0 := observe ODrainBegin (with_svc (set_processing true)
                   (observe (OEnq e) (with_svc (push e) σ1)))) in Hrun.
    set (σ2_0 := observe ODrainBegin (with_svc (set_processing true)
                   (observe (OEnq e) (with_svc (push e) σ2)))).
    assert (alike σ1_0 σ2_0) as Hal0.
    { apply alike_observe, alike_with_svc; [done|].
      apply same_members_set_processing. by destruct Halq. }
    destruct (whileLoop type handle fuel σ1_0) as [[r1 σ1_1]|] eqn:Hloop; [|done].
    destruct (whileLoop_alike _ σ1_0 σ2_0 _ _ eq_refl Hwf1 Hwf2 Hal0 Hloop)
      as (fuel2 & σ2_1 & Hloop2 & Hal1 & _).
    destruct r1; injection Hrun as <- <-.
    + exists (S (S fuel2)), (observe ODrainEnd (with_svc (set_processing false) σ2_1)).
      rewrite publish_S, <-Hf, processEventQueue_S. fold σ2_0. rewrite Hloop2.
      split; [done|]. apply alike_observe, alike_with_svc; [done|].
      apply same_members_set_processing. by destruct Hal1.
    + exists (S (S fuel2)), (observe ODrainAbort σ2_1).
      rewrite publish_S, <-Hf, processEventQueue_S. fold σ2_0. rewrite Hloop2.
      split; [done|]. by apply alike_observe.
Qed.

Lemma publish_wf fuel e σ r σ' :
  wf_registry (svc σ) →
  publish type handle fuel e σ = Some (r, σ') →
  wf_registry (svc σ').
Proof.
  intros Hwf Hrun. destruct (isProcessing (svc σ)) eqn:Hflag.
  - destruct fuel as [|fuel]; [done|]. rewrite publish_nested in Hrun by done.
    by injection Hrun as <- <-.
  - set (a := mkRef (eventQueue (svc σ)) Idle).
    destruct (publish_run _ _ _ a _ _ Hflag eq_refl eq_refl Hrun)
      as (t & a' & _ & _ & _ & Hreg & _).
    by apply Hreg.
Qed.

(** Whatever the driver calls next, two systems that are alike stay so. *)
Lemma steps_alike σ1 σ1' :
  steps type handle σ1 σ1' →
  ∀ σ2, wf_registry (svc σ1) → wf_registry (svc σ2) → alike σ1 σ2 →
  ∃ σ2', steps type handle σ2 σ2' ∧ alike σ1' σ2' ∧
         wf_registry (svc σ1') ∧ wf_registry (svc σ2').
Proof.
  induction 1 as
    [σ1|σ1 σ1a fuel e r σ1b _ IH Hpub|σ1 σ1a key s _ IH|σ1 σ1a key s _ IH];
    intros σ2 Hwf1 Hwf2 Hal.
  - exists σ2. split_and!; [apply steps_refl|done..].
  - destruct (IH σ2 Hwf1 Hwf2 Hal) as (σ2a & Hsteps & Hala & Hwf1a & Hwf2a).
    destruct (publish_alike _ _ _ σ2a _ _ Hwf1a Hwf2a Hala Hpub)
      as (fuel' & σ2b & Hpub2 & Halb).
    exists σ2b. split_and!; [by eapply steps_publish|done|..].
    + apply (publish_wf _ _ _ _ _ Hwf1a Hpub).
    + apply (publish_wf _ _ _ _ _ Hwf2a Hpub2).
  - destruct (IH σ2 Hwf1 Hwf2 Hal) as (σ2a & Hsteps & Hala & Hwf1a & Hwf2a).
    exists (call_subscribe key s σ2a).
    split_and!; [by apply steps_subscribe| |by apply wf_subscribe..].
    apply alike_observe, alike_with_svc; [done|].
    apply same_members_subscribe. by destruct Hala.
  - destruct (IH σ2 Hwf1 Hwf2 Hal) as (σ2a & Hsteps & Hala & Hwf1a & Hwf2a).
    exists (call_unsubscribe key s σ2a).
    split_and!; [by apply steps_unsubscribe| |by apply wf_unsubscribe..].
    apply alike_observe, alike_with_svc; [done|].
    apply same_members_unsubscribe; [done..|]. by destruct Hala.
Qed.

(** ** Who is handed an event

    The registry holds the subscribers that the calls observed so far have
    registered, and [handle] is entered only by a subscriber that is, at
    that moment, registered for the kind of the event. *)











(** Once an exception has left [publish], the flag stays set and nothing is
    shifted any more: later events pile up in the queue. *)
Lemma stuck_steps σ σ' :
  steps type handle σ σ' →
  isProcessing (svc σ) = true →
  isProcessing (svc σ') = true ∧
  shifted (trace σ') = shifted (trace σ) ∧
  ∃ later, eventQueue (svc σ') = eventQueue (svc σ) ++ later.
Proof.
  intros Hsteps Hflag. induction Hsteps as
    [σ|σ σ1 fuel e r σ2 _ IH Hpub|σ σ1 key s _ IH|σ σ1 key s _ IH].
  - split_and!; [done..|]. exists []. by rewrite app_nil_r.
  - destruct (IH Hflag) as (Hf1 & Hsh1 & later & Hq1).
    destruct fuel as [|fuel]; [done|].
    rewrite publish_nested in Hpub by done. injection Hpub as <- <-. simpl.
    split_and!; [done| |].
    + by rewrite shifted_app, Hsh1, app_nil_r.
    + exists (later ++ [e]). by rewrite Hq1, <-app_assoc.
  - destruct (IH Hflag) as (Hf1 & Hsh1 & later & Hq1). simpl.
    rewrite shifted_app, app_nil_r. split_and!; [done..|]. by exists later.
  - destruct (IH Hflag) as (Hf1 & Hsh1 & later & Hq1). simpl.
    rewrite unsubscribe_flag, unsubscribe_queue, shifted_app, app_nil_r.
    split_and!; [done..|]. by exists later.
Qed.

(** ** The dispatcher: order, drains, exceptions *)

(** C3, as the code has it: an exception raised by a handler leaves
    [publish] at once; [processEventQueue] never gets to clear the flag, the
    events still queued stay queued, and from then on every [publish] only
    appends: nothing is shifted again. *)
Theorem throw_leaves_flag_set fuel e σ r σ' t :
  isProcessing (svc σ) = false →
  publish type handle fuel e σ = Some (r, σ') →
  trace σ' = trace σ ++ t →
  (r = Threw ↔ ORaise ∈ t) ∧
  (r = Threw →
   (∃ t0, t = t0 ++ [ORaise; ODrainAbort]) ∧
   shifted t ++ eventQueue (svc σ') = eventQueue (svc σ) ++ enqueued t ∧
   isProcessing (svc σ') = true ∧
   (∀ fuel' e', publish type handle (S fuel') e' σ' =
                  Some (Returned, observe (OEnq e') (with_svc (push e') σ'))) ∧
   (∀ σ'', steps type handle σ' σ'' →
           isProcessing (svc σ'') = true ∧
           shifted (trace σ'') = shifted (trace σ') ∧
           ∃ later, eventQueue (svc σ'') = eventQueue (svc σ') ++ later)).
Proof.
  intros Hflag Hrun Htr. set (a := mkRef (eventQueue (svc σ)) Idle).
  destruct (publish_run _ _ _ a _ _ Hflag eq_refl eq_refl Hrun)
    as (t' & a' & Htr' & Hacc & Hpend & _ & Hr).
  assert (t' = t) as -> by (apply (app_inv_head (trace σ)); congruence).
  split.
  - split.
    + intros ->. destruct Hr as (_ & _ & t0 & -> & _).
      do 2 right. apply elem_of_app. right. left.
    + intros Hin. destruct r; [|done]. destruct Hr as (_ & _ & Hm & _).
      destruct (ref_run_raised t a a' Hacc) as [Hm'|Hm']; [by auto|..];
        rewrite Hm in Hm'; done.
  - intros ->. destruct Hr as (Hf & _ & t0 & -> & _). split_and!.
    + by exists (OEnq e :: ODrainBegin :: t0).
    + rewrite <-Hpend. by apply (ref_run_fifo _ a).
    + done.
    + intros fuel' e'. by apply publish_nested.
    + intros σ'' Hsteps. by apply stuck_steps.
Qed.

(** C5, as the code has it: subscribing the same subscriber twice for a
    kind leaves the service as subscribing it once does, so whatever is
    published afterwards does the same in both cases, and the subscriber
    is then a member for the kind exactly once.  It is handed each event
    of the kind once each time the event is shifted, in a [publish] that
    returns and in which no handler calls [subscribe] or [unsubscribe] for
    that kind. *)
Theorem subscribe_twice_is_once :
  (∀ key s p, subscribe key s (subscribe key s p) = subscribe key s p) ∧
  (∀ fuel key s e (σ : System Event Sub W),
     publish type handle fuel e
       (with_svc (subscribe key s) (with_svc (subscribe key s) σ)) =
     publish type handle fuel e (with_svc (subscribe key s) σ)) ∧
  (∀ key s p, wf_registry p →
              occurrences s (members key (subscribe key s p)) = 1) ∧
  (∀ fuel key s e0 σ σ' t,
     let σ2 := with_svc (subscribe key s) (with_svc (subscribe key s) σ) in
     wf_registry (svc σ) →
     isProcessing (svc σ) = false →
     publish type handle fuel e0 σ2 = Some (Returned, σ') →
     trace σ' = trace σ2 ++ t →
     untouched key t →
     ∀ e, type e = key →
          occurrences s (recipients e t) = occurrences e (shifted t)).
Proof.
  assert (∀ key s (p : PubSubService Event Sub),
            subscribe key s (subscribe key s p) = subscribe key s p) as Hidem.
  { intros key s p. apply service_eq; [|done..].
    apply map_eq. intros key'. rewrite !subscribers_subscribe.
    case_decide; [|done]. rewrite decide_True by done. simpl.
    by rewrite set_add_idempotent. }
  split_and!.
  - done.
  - intros fuel key s e σ. unfold with_svc. simpl. by rewrite Hidem.
  - intros key s p Hwf. apply occurrences_NoDup.
    + by apply wf_members, wf_subscribe.
    + rewrite members_subscribe, decide_True by done. apply elem_of_set_add.
  - intros fuel key s e0 σ σ' t σ2 Hwf Hflag Hrun Htr Hut e He.
    eapply (publish_counts fuel key s e0 σ2); try done.
    + by apply wf_subscribe, wf_subscribe.
    + simpl. rewrite members_subscribe, decide_True by done. apply elem_of_set_add.
Qed.

(** C6, as the code has it: for a subscriber that is not registered for
    the kind, [subscribe] then [unsubscribe] leaves every kind with the
    members it had, in the same order, and the queue and the flag as they
    were; a second [unsubscribe] changes nothing.  What is left behind, an
    emptied slot or an entry without member for a kind that had none,
    cannot be observed: a [publish] on the service with the round trip and
    on the service without it has the same outcome, and whatever the
    driver calls afterwards the two have the same world and the same
    trace, and stay alike. *)
Theorem subscribe_unsubscribe_roundtrip key s p :
  wf_registry p →
  s ∉ members key p →
  let p' := unsubscribe key s (subscribe key s p) in
  same_members p' p ∧
  unsubscribe key s p' = p' ∧
  (∀ (w : W) t fuel e r σ,
     publish type handle fuel e (mkSystem p w t) = Some (r, σ) →
     ∃ fuel' σ', publish type handle fuel' e (mkSystem p' w t) = Some (r, σ') ∧
                 alike σ' σ) ∧
  (∀ (w : W) t σ,
     steps type handle (mkSystem p w t) σ →
     ∃ σ', steps type handle (mkSystem p' w t) σ' ∧ alike σ' σ) ∧
  (∀ (w : W) t σ',
     steps type handle (mkSystem p' w t) σ' →
     ∃ σ, steps type handle (mkSystem p w t) σ ∧ alike σ' σ).
Proof.
  intros Hwf Hs p'.
  assert (same_members p' p) as Hsame.
  { split_and!; [|by unfold p'; rewrite unsubscribe_queue
                  |by unfold p'; rewrite unsubscribe_flag].
    intros key'. unfold p'. rewrite members_unsubscribe. case_decide as Hk.
    - subst key'. rewrite subscribers_subscribe, decide_True by done. simpl.
      fold (members key p) in *. unfold members in *.
      rewrite set_add_absent, set_delete_app by done. simpl.
      rewrite decide_True by done. rewrite live_app. simpl. by rewrite app_nil_r.
    - by rewrite members_subscribe, decide_False. }
  assert (wf_registry p') as Hwf' by (by apply wf_unsubscribe, wf_subscribe).
  assert (∀ (w : W) t, alike (mkSystem p' w t) (mkSystem p w t)) as Hal.
  { intros w t. by split_and!. }
  split_and!; [done| | | |].
  - assert (s ∉ members key p') as Hs1 by (by rewrite (proj1 Hsame key)).
    apply service_eq; [|by rewrite unsubscribe_queue|by rewrite unsubscribe_flag].
    apply map_eq. intros key'. rewrite subscribers_unsubscribe.
    case_decide as Hk; [|done]. subst key'. unfold members in Hs1.
    destruct (subscribers p' !! key) as [l|]; [|done]. simpl in *.
    by rewrite set_delete_absent.
  - intros w t fuel e r σ Hrun.
    destruct (publish_alike fuel e (mkSystem p w t) (mkSystem p' w t) r σ)
      as (fuel' & σ' & Hrun' & Hal'); [done..|by apply alike_sym|done|].
    exists fuel', σ'. split; [done|]. by apply alike_sym.
  - intros w t σ Hsteps.
    destruct (steps_alike _ _ Hsteps (mkSystem p' w t))
      as (σ' & Hsteps' & Hal' & _); [done..|by apply alike_sym|].
    exists σ'. split; [done|]. by apply alike_sym.
  - intros w t σ' Hsteps.
    destruct (steps_alike _ _ Hsteps (mkSystem p w t))
      as (σ & Hsteps' & Hal' & _); [done..|].
    by exists σ.
Qed.

End DispatcherFacts.

Section DeliveryFacts.
Context {Event Sub W : Type} `{EqDecision Event} `{EqDecision Sub}.
Variable type : Event → string.
Variable handle : Sub → Event → W → W * list (Call Event Sub).

Implicit Types (p : PubSubService Event Sub) (σ : System Event Sub W).
Implicit Types (t : list (Obs Event Sub)) (a : Ref (Event := Event)).
Implicit Types (key : string) (s : Sub) (e event : Event) (o : Obs Event Sub).

(** ** Every delivery reaches the registered subscribers

    A delivery that was ended, by the next [shift] or by the end of the
    drain, has handed its event to every subscriber registered for the
    kind at that moment. *)





















(** Between two calls of the driver no drain is in progress, and the flag
    is set exactly when a handler has thrown. *)
Lemma reachable_flag σ :
  reachable type handle σ →
  drains_begun (trace σ) = drains_finished (trace σ) ∧
  (isProcessing (svc σ) = true ↔ ORaise ∈ trace σ) ∧
  (∀ t1 t2, trace σ = t1 ++ t2 →
            drains_finished t1 ≤ drains_begun t1 ≤ S (drains_finished t1)).
Proof.
  intros Hreach.
  destruct (reachable_run type handle σ Hreach) as (a & Hacc & [Hpend Hmode] & _ & _).
  split_and!.
  - apply ref_run_active in Hacc. unfold active in Hacc. simpl in Hacc.
    rewrite Hmode in Hacc. destruct (isProcessing (svc σ)); lia.
  - split.
    + intros Hflag. rewrite Hflag in Hmode.
      destruct (ref_run_raised_inv _ _ _ Hacc) as [?|[?|?]]; by auto.
    + intros Hin. destruct (ref_run_raised _ _ _ Hacc) as [Hm|Hm]; [by auto|..];
        destruct (isProcessing (svc σ)); congruence.
  - intros t1 t2 Hsplit. rewrite Hsplit in Hacc.
    apply ref_run_app_inv in Hacc as (a1 & Hacc1 & _).
    apply ref_run_active in Hacc1. unfold active in Hacc1. simpl in Hacc1.
    destruct (mode a1); lia.
Qed.


Lemma runCalls_appends fuel : ∀ calls σ r σ',
  isProcessing (svc σ) = true →
  runCalls type handle fuel calls σ = Some (r, σ') →
  ∃ t, trace σ' = trace σ ++ t ∧
       Forall (fun o => from_handler o = true) t ∧
       isProcessing (svc σ') = true ∧
       eventQueue (svc σ') = eventQueue (svc σ) ++ enqueued t.
Proof.
  induction fuel as [|fuel IH]; intros calls σ r σ' Hflag Hrun; [done|].
  rewrite runCalls_S in Hrun.
  destruct calls as [|[e|key s|key s|] calls].
  - injection Hrun as <- <-. exists []. by rewrite !app_nil_r.
  - destruct fuel as [|fuel']; [done|].
    rewrite publish_nested in Hrun by done.
    apply IH in Hrun as (t & Htr & Hall & Hf & Hq); [|done].
    exists (OEnq e :: t). split_and!; [|by constructor|done|].
    + rewrite Htr. simpl. by rewrite <-app_assoc.
    + rewrite Hq. simpl. by rewrite <-app_assoc.
  - apply IH in Hrun as (t & Htr & Hall & Hf & Hq); [|done].
    exists (OSubscribe key s :: t). split_and!; [|by constructor|exact Hf|exact Hq].
    rewrite Htr. simpl. by rewrite <-app_assoc.
  - apply IH in Hrun as (t & Htr & Hall & Hf & Hq);
      [|by simpl; rewrite unsubscribe_flag].
    exists (OUnsubscribe key s :: t). split_and!; [|by constructor|exact Hf|].
    + rewrite Htr. simpl. by rewrite <-app_assoc.
    + rewrite Hq. simpl. by rewrite unsubscribe_queue.
  - injection Hrun as <- <-. exists [ORaise]. split_and!; [done|by constructor|done|].
    simpl. by rewrite app_nil_r.
Qed.

Lemma from_handler_begins_none t :
  Forall (fun o => from_handler o = true) t → drains_begun t = 0.
Proof.
  induction 1 as [|o t Ho _ IH]; [done|].
  unfold drains_begun in *. simpl. by destruct o.
Qed.

(** C4, as the code has it: what [publish] does is decided by the flag
    [isProcessing], not by whether a drain is in progress.  With the flag
    set, [publish] always returns, with its event appended to the queue:
    it begins no drain and changes nothing else.  This is what the calls
    of a handler find: whatever a handler calls, no drain begins, the flag
    stays set, and the events it publishes are appended to the queue in
    the order of the calls.  With the flag clear it begins
    exactly one drain, however many events the handlers publish meanwhile;
    at every moment of the call at most one drain has begun and not
    finished; and if it returns, the queue has been drained and the flag
    is clear again.  In the history of the driver at most one drain is in
    progress at any moment, handlers run only inside a drain, and between
    two calls of the driver no drain is in progress; but the flag is set
    there exactly when a handler has thrown, and then a [publish] by the
    driver, made while no drain is in progress, only appends. *)
Theorem at_most_one_drain :
  (∀ fuel e σ r σ' t,
     publish type handle fuel e σ = Some (r, σ') →
     trace σ' = trace σ ++ t →
     if isProcessing (svc σ)
     then r = Returned ∧ t = [OEnq e] ∧
          eventQueue (svc σ') = eventQueue (svc σ) ++ [e] ∧
          subscribers (svc σ') = subscribers (svc σ) ∧
          isProcessing (svc σ') = true ∧
          world σ' = world σ
     else drains_begun t = 1 ∧
          (∀ t1 t2, t = t1 ++ t2 →
                    drains_finished t1 ≤ drains_begun t1 ≤ S (drains_finished t1)) ∧
          (∃ t0, t = OEnq e :: ODrainBegin :: t0) ∧
          (r = Returned →
           eventQueue (svc σ') = [] ∧ isProcessing (svc σ') = false ∧
           ∃ t0, t = OEnq e :: ODrainBegin :: t0 ++ [ODrainEnd])) ∧
  (∀ σ, reachable type handle σ →
     drains_begun (trace σ) = drains_finished (trace σ) ∧
     (isProcessing (svc σ) = true ↔ ORaise ∈ trace σ) ∧
     (∀ t1 t2, trace σ = t1 ++ t2 →
               drains_finished t1 ≤ drains_begun t1 ≤ S (drains_finished t1)) ∧
     (∀ t1 s e t2, trace σ = t1 ++ OHandle s e :: t2 →
                   drains_begun t1 = S (drains_finished t1)) ∧
     (∀ t1 t2, trace σ = t1 ++ ODrainBegin :: t2 →
               drains_begun t1 = drains_finished t1)) ∧
  (∀ fuel calls σ r σ' t,
     isProcessing (svc σ) = true →
     runCalls type handle fuel calls σ = Some (r, σ') →
     trace σ' = trace σ ++ t →
     drains_begun t = 0 ∧
     isProcessing (svc σ') = true ∧
     eventQueue (svc σ') = eventQueue (svc σ) ++ enqueued t) ∧
  (∀ fuel e σ, isProcessing (svc σ) = true →
     ∃ σ', publish type handle (S fuel) e σ = Some (Returned, σ') ∧
           trace σ' = trace σ ++ [OEnq e] ∧
           eventQueue (svc σ') = eventQueue (svc σ) ++ [e]).
Proof.
  split; [|split; [|split]].
  - intros fuel e σ r σ' t Hrun Htr. destruct (isProcessing (svc σ)) eqn:Hflag.
    + destruct fuel as [|fuel]; [done|].
      rewrite publish_nested in Hrun by done. injection Hrun as <- <-.
      split_and!; [done| |done..].
      by apply (app_inv_head (trace σ)).
    + set (a := mkRef (eventQueue (svc σ)) Idle).
      destruct (publish_run type handle _ _ _ a _ _ Hflag eq_refl eq_refl Hrun)
        as (t' & a' & Htr' & Hacc & _ & _ & Hr).
      assert (t' = t) as -> by (apply (app_inv_head (trace σ)); congruence).
      split_and!.
      * destruct r.
        -- destruct Hr as (_ & _ & _ & t0 & -> & [Hb _]%in_drain_counts).
           change (drains_begun ([OEnq e; ODrainBegin] ++ t0 ++ [ODrainEnd]) = 1).
           by rewrite !drains_begun_app, Hb.
        -- destruct Hr as (_ & _ & t0 & -> & [Hb _]%in_drain_counts).
           change (drains_begun ([OEnq e; ODrainBegin] ++ t0 ++ [ORaise; ODrainAbort]) = 1).
           by rewrite !drains_begun_app, Hb.
      * intros t1 t2 ->. apply ref_run_app_inv in Hacc as (a1 & Hacc1 & _).
        apply ref_run_active in Hacc1. unfold active in Hacc1. simpl in Hacc1.
        destruct (mode a1); lia.
      * destruct r.
        -- destruct Hr as (_ & _ & _ & t0 & -> & _). by eexists.
        -- destruct Hr as (_ & _ & t0 & -> & _). by eexists.
      * intros ->. destruct Hr as (Hq & Hf & _ & t0 & -> & _).
        split_and!; [done..|]. by exists t0.
  - intros σ Hreach.
    destruct (reachable_flag σ Hreach) as (Hnone & Hflag & Hone).
    split_and!; [done..| |].
    + intros t1 s e t2 Hsplit.
      destruct (reachable_run type handle σ Hreach) as (a & Hacc & _).
      rewrite Hsplit in Hacc. apply ref_run_app_inv in Hacc as (a1 & Hacc1 & Hacc2).
      rewrite ref_run_cons in Hacc2.
      destruct (ref_step a1 (OHandle s e)) as [a2|] eqn:Hstep; [|done].
      apply ref_step_handle_inv in Hstep.
      apply ref_run_active in Hacc1. unfold active in Hacc1. simpl in Hacc1.
      rewrite Hstep in Hacc1. lia.
    + intros t1 t2 Hsplit.
      pose proof (Hone t1 (ODrainBegin :: t2) Hsplit) as Hbefore.
      assert (trace σ = (t1 ++ [ODrainBegin]) ++ t2) as Hsplit'
        by (by rewrite <-app_assoc).
      pose proof (Hone _ t2 Hsplit') as Hafter.
      rewrite drains_begun_app, drains_finished_app in Hafter.
      change (drains_begun [ODrainBegin (Event := Event) (Sub := Sub)]) with 1 in Hafter.
      change (drains_finished [ODrainBegin (Event := Event) (Sub := Sub)]) with 0 in Hafter.
      lia.
  - intros fuel calls σ r σ' t Hflag Hrun Htr.
    destruct (runCalls_appends fuel calls σ r σ' Hflag Hrun)
      as (t' & Htr' & Hall & Hf & Hq).
    assert (t' = t) as -> by (apply (app_inv_head (trace σ)); congruence).
    split_and!; [by apply from_handler_begins_none|done..].
  - intros fuel e σ Hflag. eexists. split; [by apply publish_nested|]. done.
Qed.

(** C10, as the code has it: when a [publish] made while the flag is
    clear returns, the queue is empty and the flag is clear again, and
    every event that was in the queue or entered it during the call, the
    cascading ones included, has been shifted.  So as long as no handler
    has thrown, the driver finds the service idle after every call: an
    empty queue and a clear flag.  Once a handler has thrown this is no
    longer so: between two calls of the driver no drain is in progress but
    the flag is set, and every [publish] by the driver returns with its
    event added to a queue that is never drained. *)
Theorem publish_returns_idle :
  (∀ fuel e σ σ' t,
     isProcessing (svc σ) = false →
     publish type handle fuel e σ = Some (Returned, σ') →
     trace σ' = trace σ ++ t →
     eventQueue (svc σ') = [] ∧ isProcessing (svc σ') = false ∧
     shifted t = eventQueue (svc σ) ++ enqueued t) ∧
  (∀ σ, reachable type handle σ → ORaise ∉ trace σ →
        eventQueue (svc σ) = [] ∧ isProcessing (svc σ) = false) ∧
  (∀ σ, reachable type handle σ → ORaise ∈ trace σ →
        drains_begun (trace σ) = drains_finished (trace σ) ∧
        isProcessing (svc σ) = true ∧
        ∀ fuel e, ∃ σ',
          publish type handle (S fuel) e σ = Some (Returned, σ') ∧
          eventQueue (svc σ') = eventQueue (svc σ) ++ [e] ∧
          isProcessing (svc σ') = true).
Proof.
  split_and!.
  - intros fuel e σ σ' t Hflag Hrun Htr. set (a := mkRef (eventQueue (svc σ)) Idle).
    destruct (publish_run type handle _ _ _ a _ _ Hflag eq_refl eq_refl Hrun)
      as (t' & a' & Htr' & Hacc & Hpend & _ & Hq & Hf & _).
    assert (t' = t) as -> by (apply (app_inv_head (trace σ)); congruence).
    split_and!; [done..|].
    apply ref_run_fifo in Hacc. rewrite Hpend, Hq, app_nil_r in Hacc. done.
  - intros σ Hreach Hnoraise.
    destruct (reachable_run type handle σ Hreach) as (a & _ & _ & _ & Hempty).
    destruct (reachable_flag σ Hreach) as (_ & Hflag & _).
    assert (isProcessing (svc σ) = false) as Hclear.
    { destruct (isProcessing (svc σ)); [|done]. destruct Hnoraise. by apply Hflag. }
    by split; [apply Hempty|].
  - intros σ Hreach Hraise.
    destruct (reachable_flag σ Hreach) as (Hnone & Hflag & _).
    apply Hflag in Hraise. split_and!; [done..|].
    intros fuel e. eexists. split; [by apply publish_nested|]. done.
Qed.

(** ** One delivery, from the registry it starts with *)

Lemma registered_since_snoc p key s t o :
  registered_since p key s (t ++ [o]) = registers key s (registered_since p key s t) o.
Proof. unfold registered_since. by rewrite foldl_snoc. Qed.

Lemma follows_start σ : wf_registry (svc σ) → follows type (svc σ) (trace σ) σ.
Proof.
  intros Hwf. exists []. split_and!; [by rewrite app_nil_r|done| |].
  - intros key s. unfold registered_since. simpl.
    by rewrite bool_decide_eq_true.
  - intros ta s e tb Heq. by destruct ta.
Qed.

Lemma follows_handles p t o :
  (∀ ta s e tb, t = ta ++ OHandle s e :: tb →
                registered_since p (type e) s ta = true) →
  (∀ s e, o = OHandle s e → registered_since p (type e) s t = true) →
  ∀ ta s e tb, t ++ [o] = ta ++ OHandle s e :: tb →
               registered_since p (type e) s ta = true.
Proof.
  intros Hreg Ho ta s e tb Heq. destruct tb as [|x tb _] using rev_ind.
  - apply app_inj_tail in Heq as [-> ->]. by apply Ho.
  - rewrite app_comm_cons, app_assoc in Heq. apply app_inj_tail in Heq as [-> _].
    by apply (Hreg ta s e tb).
Qed.

Lemma follows_step p base σ σ' o :
  follows type p base σ →
  subscribers (svc σ') = subscribers (svc σ) →
  trace σ' = trace σ ++ [o] →
  (∀ key s b, registers key s b o = b) →
  (∀ s e, o = OHandle s e → s ∈ members (type e) (svc σ)) →
  follows type p base σ'.
Proof.
  intros (t & Htr & Hwf & Hmem & Hreg) Hsubs Htr' Hneutral Hhandle.
  exists (t ++ [o]). unfold wf_registry, members. rewrite Hsubs.
  split_and!; [by rewrite Htr', Htr, app_assoc|done| |].
  - intros key s. rewrite registered_since_snoc, Hneutral. apply Hmem.
  - apply follows_handles; [done|]. intros s e ->. by apply Hmem, Hhandle.
Qed.

Lemma follows_subscribe p base key s σ :
  follows type p base σ → follows type p base (call_subscribe key s σ).
Proof.
  intros (t & Htr & Hwf & Hmem & Hreg). exists (t ++ [OSubscribe key s]).
  split_and!; simpl.
  - by rewrite Htr, app_assoc.
  - by apply wf_subscribe.
  - intros key' s'. rewrite registered_since_snoc, members_subscribe. simpl.
    destruct (decide (key = key')) as [<-|Hk].
    + destruct (decide (s = s')) as [<-|Hs].
      * rewrite decide_True by done. split; [done|]. intros _. apply elem_of_set_add.
      * rewrite decide_False by (intros [_ ?]; done). rewrite <-Hmem.
        rewrite live_set_add. fold (members key (svc σ)).
        case_decide; [done|]. rewrite elem_of_app, list_elem_of_singleton.
        split; [intros [?|?]; [done|congruence]|by left].
    + rewrite decide_False by (intros [? _]; done). apply Hmem.
  - by apply follows_handles.
Qed.

Lemma follows_unsubscribe p base key s σ :
  follows type p base σ → follows type p base (call_unsubscribe key s σ).
Proof.
  intros (t & Htr & Hwf & Hmem & Hreg). exists (t ++ [OUnsubscribe key s]).
  split_and!; simpl.
  - by rewrite Htr, app_assoc.
  - by apply wf_unsubscribe.
  - intros key' s'. rewrite registered_since_snoc, members_unsubscribe. simpl.
    destruct (decide (key = key')) as [<-|Hk].
    + pose proof (wf_members key _ Hwf) as Hnd. unfold members in Hnd.
      destruct (decide (s = s')) as [<-|Hs].
      * rewrite decide_True by done. split; [|done].
        intros Hin. by apply not_elem_of_set_delete in Hin.
      * rewrite decide_False by (intros [_ ?]; done). rewrite <-Hmem.
        split; [apply elem_of_set_delete_inv|by apply elem_of_set_delete_ne].
    + rewrite decide_False by (intros [? _]; done). apply Hmem.
  - by apply follows_handles.
Qed.

Lemma runCalls_follows p base fuel : ∀ calls σ r σ',
  isProcessing (svc σ) = true →
  follows type p base σ →
  runCalls type handle fuel calls σ = Some (r, σ') →
  follows type p base σ'.
Proof.
  induction fuel as [|fuel IH]; intros calls σ r σ' Hflag Hfol Hrun; [done|].
  rewrite runCalls_S in Hrun. destruct calls as [|[e|key s|key s|] calls].
  - by injection Hrun as <- <-.
  - destruct fuel as [|fuel']; [done|]. rewrite publish_nested in Hrun by done.
    refine (IH _ _ _ _ _ _ Hrun); [done|].
    by apply (follows_step p base σ _ (OEnq e)).
  - refine (IH _ _ _ _ _ _ Hrun); [done|]. by apply follows_subscribe.
  - refine (IH _ _ _ _ _ _ Hrun); [by simpl; rewrite unsubscribe_flag|].
    by apply follows_unsubscribe.
  - injection Hrun as <- <-. by apply (follows_step p base σ _ ORaise).
Qed.

Lemma forEach_follows p base fuel : ∀ e index σ r σ',
  isProcessing (svc σ) = true →
  follows type p base σ →
  forEach type handle fuel (type e) e index σ = Some (r, σ') →
  follows type p base σ'.
Proof.
  induction fuel as [|fuel IH]; intros e index σ r σ' Hflag Hfol Hrun; [done|].
  rewrite forEach_S in Hrun.
  destruct (default [] (subscribers (svc σ) !! type e) !! index) as [[s|]|] eqn:Hslot.
  - set (σ0 := observe (OHandle s e) (with_world (handle s e (world σ)).1 σ)) in Hrun.
    assert (follows type p base σ0) as Hfol0.
    { apply (follows_step p base σ _ (OHandle s e)); try done.
      intros s' e' [= -> ->]. apply live_lookup. by exists index. }
    destruct (runCalls type handle fuel (handle s e (world σ)).2 σ0)
      as [[r1 σ1]|] eqn:Hcalls; [|done].
    pose proof (runCalls_follows p base _ _ σ0 _ _ Hflag Hfol0 Hcalls) as Hfol1.
    set (a := mkRef (eventQueue (svc σ0)) (Draining (Some e))).
    destruct (runCalls_run type handle _ _ σ0 a e _ _ Hflag eq_refl eq_refl Hcalls)
      as (_ & _ & _ & _ & _ & Hf1 & _).
    destruct r1; [by apply (IH e (S index) σ1 r σ')|by injection Hrun as <- <-].
  - by apply (IH e (S index) σ r σ').
  - by injection Hrun as <- <-.
Qed.

(** A walk goes through the members in order and stops where a handler
    throws: that handler is the last one entered. *)
Lemma forEach_stops fuel : ∀ key e index σ r σ',
  isProcessing (svc σ) = true →
  forEach type handle fuel key e index σ = Some (r, σ') →
  ∃ t, trace σ' = trace σ ++ t ∧
       (untouched key t →
        recipients e t `prefix_of`
          live (drop index (default [] (subscribers (svc σ) !! key)))) ∧
       (∀ s, s ∈ recipients e t →
             s ∈ members key (svc σ) ∨ OSubscribe key s ∈ t) ∧
       (r = Threw →
        ∃ t0 s t1, t = t0 ++ OHandle s e :: t1 ++ [ORaise] ∧
                   Forall (fun o => from_handler o = true) t1).
Proof.
  induction fuel as [|fuel IH]; intros key e index σ r σ' Hflag Hrun; [done|].
  set (a := mkRef (eventQueue (svc σ)) (Draining (Some e))).
  destruct (forEach_run type handle _ _ _ _ _ a _ _ Hflag eq_refl eq_refl Hrun)
    as (t & _ & Htr & _ & _ & _ & _ & _ & _).
  exists t. split; [done|].
  rewrite forEach_S in Hrun. rewrite (live_drop_lookup _ index).
  destruct (default [] (subscribers (svc σ) !! key) !! index) as [[s0|]|] eqn:Hslot.
  - set (σ0 := observe (OHandle s0 e) (with_world (handle s0 e (world σ)).1 σ)) in Hrun.
    destruct (runCalls type handle fuel (handle s0 e (world σ)).2 σ0)
      as [[r1 σ1]|] eqn:Hcalls; [|done].
    destruct (runCalls_run type handle _ _ σ0 a e _ _ Hflag eq_refl eq_refl Hcalls)
      as (t1 & a1 & Htr1 & _ & _ & Hf1 & _ & Hfh1 & Hreg1 & Hr1).
    assert (s0 ∈ members key (svc σ)) as Hs0 by (apply live_lookup; by exists index).
    destruct r1.
    + destruct (IH key e (S index) σ1 r σ' Hf1 Hrun)
        as (t2 & Htr2 & Hpre2 & Hrec2 & Hthrew2).
      assert (t = OHandle s0 e :: t1 ++ t2) as ->.
      { apply (app_inv_head (trace σ)). rewrite <-Htr, Htr2, Htr1. simpl.
        by rewrite <-!app_assoc. }
      rewrite recipients_handle, recipients_app, (from_handler_recipients _ _ Hfh1).
      simpl. split_and!.
      * intros Hun.
        change (OHandle s0 e :: t1 ++ t2) with ([OHandle s0 e] ++ t1 ++ t2) in Hun.
        apply untouched_app in Hun as [_ [Hut1 Hut2]%untouched_app].
        apply prefix_cons. specialize (Hpre2 Hut2).
        destruct Hreg1 as (_ & _ & Hsame & _).
        by rewrite (Hsame key Hut1) in Hpre2.
      * intros s [->|Hs]%elem_of_cons; [by left|].
        destruct (Hrec2 s Hs) as [Hin|Hin].
        -- destruct Hreg1 as (_ & _ & _ & Hin1 & _).
           destruct (Hin1 key s Hin) as [?|?]; [by left|].
           right. right. apply elem_of_app. by left.
        -- right. right. apply elem_of_app. by right.
      * intros Hthrew. destruct (Hthrew2 Hthrew) as (t0 & s & t3 & -> & Hfh3).
        exists (OHandle s0 e :: t1 ++ t0), s, t3. split; [|done].
        simpl. by rewrite <-!app_assoc.
    + injection Hrun as <- <-.
      assert (t = OHandle s0 e :: t1) as ->.
      { apply (app_inv_head (trace σ)). rewrite <-Htr, Htr1. simpl.
        by rewrite <-!app_assoc. }
      rewrite recipients_handle, (from_handler_recipients _ _ Hfh1). split_and!.
      * intros _. apply prefix_cons, prefix_nil.
      * intros s ->%list_elem_of_singleton. by left.
      * intros _. destruct Hr1 as (_ & t0 & ->).
        exists [], s0, t0. split; [done|].
        by apply Forall_app in Hfh1 as [? _].
  - destruct (IH key e (S index) σ r σ' Hflag Hrun)
      as (t2 & Htr2 & Hpre2 & Hrec2 & Hthrew2).
    assert (t = t2) as -> by (apply (app_inv_head (trace σ)); congruence).
    done.
  - injection Hrun as <- <-.
    assert (t = []) as -> by (apply (app_inv_head (trace σ)); by rewrite app_nil_r).
    split_and!; [done|by intros s ?%elem_of_nil|done].
Qed.

Lemma registered_since_true p key s t :
  registered_since p key s t = true → s ∈ members key p ∨ OSubscribe key s ∈ t.
Proof.
  unfold registered_since. induction t as [|o t IH] using rev_ind.
  - simpl. intros ?%bool_decide_eq_true. by left.
  - rewrite foldl_snoc. intros Hreg.
    assert (o = OSubscribe key s ∨
            foldl (registers key s) (bool_decide (s ∈ members key p)) t = true)
      as [->|Hold].
    { destruct o as [| | |k s'|k s'| | | |]; simpl in Hreg; try (by right).
      - case_decide as Hks; [|by right]. destruct Hks as [-> ->]. by left.
      - case_decide; [done|by right]. }
    + right. apply elem_of_app. right. left.
    + destruct (IH Hold) as [?|?]; [by left|]. right. apply elem_of_app. by left.
Qed.

(** C2, as the code has it: [forEach] walks the set itself, not a copy,
    so what the handlers subscribe and unsubscribe while an event is
    being delivered decides who is handed that event.  A subscriber is
    handed the event only at a moment when it is registered for the kind:
    it was registered when the delivery began or was subscribed since, and
    the last call that named it was not an [unsubscribe]; and the registry
    that the delivery leaves, which the deliveries after it walk, is the
    one it began with after these calls.  Whoever is handed the event was
    registered when the delivery began or was subscribed on the way.  When
    no call names the kind, the event goes to the subscribers registered
    at the start, in the order of registration, and to all of them if no
    handler throws.  If the delivery returns, whoever is registered for the
    kind at its end has been handed the event, a subscriber added on the
    way included, and a subscriber registered at the start and not handed
    the event was unsubscribed on the way.  If a handler throws, that
    handler is the last one entered: nobody is handed the event after
    it. *)
Theorem delivery_walks_the_live_set fuel e σ r σ' t :
  isProcessing (svc σ) = true →
  forEach type handle fuel (type e) e 0 σ = Some (r, σ') →
  trace σ' = trace σ ++ t →
  (wf_registry (svc σ) →
   (∀ ta s tb, t = ta ++ OHandle s e :: tb →
               registered_since (svc σ) (type e) s ta = true) ∧
   (∀ key s, s ∈ members key (svc σ') ↔
             registered_since (svc σ) key s t = true)) ∧
  (∀ s, s ∈ recipients e t →
        s ∈ members (type e) (svc σ) ∨ OSubscribe (type e) s ∈ t) ∧
  (untouched (type e) t →
   recipients e t `prefix_of` members (type e) (svc σ)) ∧
  (r = Returned →
   (∀ s, s ∈ members (type e) (svc σ') → s ∈ recipients e t) ∧
   (∀ s, s ∈ members (type e) (svc σ) →
         s ∈ recipients e t ∨ OUnsubscribe (type e) s ∈ t) ∧
   (untouched (type e) t → recipients e t = members (type e) (svc σ))) ∧
  (r = Threw →
   ∃ t0 s t1, t = t0 ++ OHandle s e :: t1 ++ [ORaise] ∧
              Forall (fun o => from_handler o = true) t1).
Proof.
  intros Hflag Hrun Htr.
  destruct (forEach_stops _ _ _ _ _ _ _ Hflag Hrun)
    as (t' & Htr' & Hpre & Hrec & Hthrew).
  assert (t' = t) as -> by (apply (app_inv_head (trace σ)); congruence).
  split_and!.
  - intros Hwf.
    destruct (forEach_follows (svc σ) (trace σ) _ _ _ _ _ _ Hflag
                (follows_start σ Hwf) Hrun) as (t' & Htr'' & _ & Hmem & Hreg).
    assert (t' = t) as -> by (apply (app_inv_head (trace σ)); congruence).
    split; [|done]. intros ta s tb Heq. by apply (Hreg ta s e tb).
  - done.
  - intros Hut. specialize (Hpre Hut). by rewrite drop_0 in Hpre.
  - intros ->.
    destruct (forEach_walk type handle _ _ _ _ _ _ Hflag Hrun)
      as (t' & Htr'' & Hvis & _ & Hun & Hreg).
    assert (t' = t) as -> by (apply (app_inv_head (trace σ)); congruence).
    assert (∀ s, s ∈ members (type e) (svc σ') → s ∈ recipients e t) as Hend.
    { intros s [j Hj]%live_lookup. apply (Hvis j s); [lia|done]. }
    split_and!.
    + done.
    + intros s Hs. destruct Hreg as (_ & _ & _ & _ & Hout & _).
      destruct (Hout _ _ Hs); auto.
    + intros Hut. destruct (Hun Hut) as [-> _]. by rewrite drop_0.
  - done.
Qed.

End DeliveryFacts.

(** ** The vending machines *)

Lemma find_machine_id i ms m : find_machine i ms = Some m → id m = i.
Proof.
  unfold find_machine. intros Hfind. apply List.find_some in Hfind as [_ Hid].
  by apply bool_decide_eq_true in Hid.
Qed.

(** The machine that [find] returns is the one that the assignment to
    [stockLevel] changes. *)
Lemma find_machine_set_stockLevel i level ms m :
  find_machine i ms = Some m →
  find_machine i (set_stockLevel i level ms) = Some (mkMachine level i).
Proof.
  unfold find_machine. induction ms as [|m0 ms IH]; simpl; [done|].
  destruct (bool_decide (id m0 = i)) eqn:Hid; simpl.
  - intros _. apply bool_decide_eq_true in Hid as Hid'. by rewrite Hid, Hid'.
  - rewrite Hid. apply IH.
Qed.

Lemma track_cons event events w :
  track (event :: events) w =
    track events (StockWarningSubscriber_handle event w).1.
Proof. done. Qed.

Lemma warnings_for_app i l1 l2 :
  warnings_for i (l1 ++ l2) = warnings_for i l1 + warnings_for i l2.
Proof. unfold warnings_for. by rewrite filter_app, length_app. Qed.

Lemma clearings_for_app i l1 l2 :
  clearings_for i (l1 ++ l2) = clearings_for i l1 + clearings_for i l2.
Proof. unfold clearings_for. by rewrite filter_app, length_app. Qed.

Lemma warnings_for_singleton i l :
  warnings_for i [l] = if decide (l = LogWarning i) then 1 else 0.
Proof.
  unfold warnings_for. case_decide.
  - by rewrite filter_cons_True.
  - by rewrite filter_cons_False.
Qed.

Lemma clearings_for_singleton i l :
  clearings_for i [l] = if decide (l = LogCleared i) then 1 else 0.
Proof.
  unfold clearings_for. case_decide.
  - by rewrite filter_cons_True.
  - by rewrite filter_cons_False.
Qed.

Lemma warned_insert i j b w l :
  warned i (with_warningStates (<[j := b]> (warningStates w)) (console_log l w)) =
    if decide (j = i) then b else warned i w.
Proof.
  unfold warned. simpl. case_decide as Hij.
  - subst. by rewrite lookup_insert_eq.
  - by rewrite lookup_insert_ne.
Qed.

(** Warnings reported for [i], plus one while [i] is not warned: a
    quantity that only a stock-ok event for [i] changes.  Likewise the
    clearings reported, plus one while [i] is warned, which only a
    low-stock event for [i] changes. *)
Lemma handle_keeps_warning_budget i event w :
  event ≠ StockLevelOkEvent i →
  let w' := (StockWarningSubscriber_handle event w).1 in
  warnings_for i (console w') + (if warned i w' then 0 else 1) =
  warnings_for i (console w) + (if warned i w then 0 else 1).
Proof.
  intros Hne. destruct event as [sold j|refill j|j|j]; simpl; [done|done| |].
  - destruct (warned j w) eqn:Hj; simpl; [done|].
    rewrite warned_insert, warnings_for_app, warnings_for_singleton.
    destruct (decide (j = i)) as [->|Hji].
    + rewrite Hj, decide_True by done. lia.
    + rewrite decide_False by congruence. lia.
  - assert (j ≠ i) as Hji by congruence.
    destruct (warned j w) eqn:Hj; simpl; [|done].
    rewrite warned_insert, decide_False by done.
    rewrite warnings_for_app, warnings_for_singleton, decide_False by done. lia.
Qed.

Lemma handle_keeps_clearing_budget i event w :
  event ≠ LowStockWarningEvent i →
  let w' := (StockWarningSubscriber_handle event w).1 in
  clearings_for i (console w') + (if warned i w' then 1 else 0) =
  clearings_for i (console w) + (if warned i w then 1 else 0).
Proof.
  intros Hne. destruct event as [sold j|refill j|j|j]; simpl; [done|done| |].
  - assert (j ≠ i) as Hji by congruence.
    destruct (warned j w) eqn:Hj; simpl; [done|].
    rewrite warned_insert, decide_False by done.
    rewrite clearings_for_app, clearings_for_singleton, decide_False by done. lia.
  - destruct (warned j w) eqn:Hj; simpl; [|done].
    rewrite warned_insert, clearings_for_app, clearings_for_singleton.
    destruct (decide (j = i)) as [->|Hji].
    + rewrite Hj, decide_True by done. lia.
    + rewrite decide_False by congruence. lia.
Qed.

Lemma track_keeps_warning_budget i events : ∀ w,
  Forall (fun event => event ≠ StockLevelOkEvent i) events →
  warnings_for i (console (track events w)) +
    (if warned i (track events w) then 0 else 1) =
  warnings_for i (console w) + (if warned i w then 0 else 1).
Proof.
  induction events as [|event events IH]; intros w Hall; [done|].
  apply Forall_cons in Hall as [Hne Hall].
  rewrite track_cons, (IH _ Hall). by apply handle_keeps_warning_budget.
Qed.

Lemma track_keeps_clearing_budget i events : ∀ w,
  Forall (fun event => event ≠ LowStockWarningEvent i) events →
  clearings_for i (console (track events w)) +
    (if warned i (track events w) then 1 else 0) =
  clearings_for i (console w) + (if warned i w then 1 else 0).
Proof.
  induction events as [|event events IH]; intros w Hall; [done|].
  apply Forall_cons in Hall as [Hne Hall].
  rewrite track_cons, (IH _ Hall). by apply handle_keeps_clearing_budget.
Qed.

(** C7: fed any sequence of events without a stock-ok event for machine
    [i], the stock-warning subscriber reports at most one warning for [i],
    and none if [i] was already warned; fed any sequence without a
    low-stock event for [i], it reports at most one clearing for [i], and
    none if [i] was not warned.  A low-stock event for a warned machine and
    a stock-ok event for a machine that is not warned change nothing, and
    the two other transitions move the machine between its two states. *)
Theorem tracker_reports_once_per_run i events w :
  (Forall (fun event => event ≠ StockLevelOkEvent i) events →
   warnings_for i (console (track events w)) ≤
     warnings_for i (console w) + (if warned i w then 0 else 1)) ∧
  (Forall (fun event => event ≠ LowStockWarningEvent i) events →
   clearings_for i (console (track events w)) ≤
     clearings_for i (console w) + (if warned i w then 1 else 0)) ∧
  (warned i w = true →
   StockWarningSubscriber_handle (LowStockWarningEvent i) w = (w, [])) ∧
  (warned i w = false →
   StockWarningSubscriber_handle (StockLevelOkEvent i) w = (w, [])) ∧
  (warned i w = false →
   let w' := (StockWarningSubscriber_handle (LowStockWarningEvent i) w).1 in
   warned i w' = true ∧ console w' = console w ++ [LogWarning i]) ∧
  (warned i w = true →
   let w' := (StockWarningSubscriber_handle (StockLevelOkEvent i) w).1 in
   warned i w' = false ∧ console w' = console w ++ [LogCleared i]).
Proof.
  split_and!.
  - intros Hall. pose proof (track_keeps_warning_budget i events w Hall). lia.
  - intros Hall. pose proof (track_keeps_clearing_budget i events w Hall). lia.
  - intros Hw. simpl. by rewrite Hw.
  - intros Hw. simpl. by rewrite Hw.
  - intros Hw. simpl. rewrite Hw. simpl. split; [|done].
    by rewrite warned_insert, decide_True.
  - intros Hw. simpl. rewrite Hw. simpl. split; [|done].
    by rewrite warned_insert, decide_True.
Qed.

(** C9: a sale of more than the machine holds is applied all the same:
    the stock level of the machine goes below zero, and the low-stock
    event for the machine is published. *)
Theorem sale_beyond_stock_goes_negative sold i w m :
  find_machine i (machines w) = Some m →
  (stockLevel m < sold)%Z →
  let r := MachineSaleSubscriber_handle (MachineSaleEvent sold i) w in
  find_machine i (machines r.1) = Some (mkMachine (stockLevel m - sold) i) ∧
  (stockLevel m - sold < 0)%Z ∧
  r.2 = [CallPublish (LowStockWarningEvent i)].
Proof.
  intros Hfind Hlt. unfold MachineSaleSubscriber_handle. simpl. rewrite Hfind.
  rewrite (find_machine_id _ _ _ Hfind).
  rewrite decide_True by lia. simpl.
  split_and!; [by eapply find_machine_set_stockLevel|lia|done].
Qed.

(** ** The scenario of [normalCase] *)

(** C8: three machines at 10.  A sale of 8 for ["001"] leaves it at 2 and
    the low-stock event for ["001"] is delivered to the stock-warning
    subscriber, which reports one warning.  A sale of 1 leaves it at 1, the
    low-stock event is delivered again and no second warning is reported.
    A refill of 5 leaves it at 6, the stock-ok event is published and
    delivered, and one clearing is reported. *)
Theorem normalCase_scenario :
  map stockLevel (machines (world normalCase)) = [10; 10; 10]%Z ∧
  publish type handle 10 (MachineSaleEvent 8 "001") normalCase =
    Some (Returned, after_sale_8) ∧
  find_machine "001" (machines (world after_sale_8)) = Some (mkMachine 2 "001") ∧
  recipients (LowStockWarningEvent "001") (trace after_sale_8) =
    [stockWarningSubscriber] ∧
  console (world after_sale_8) =
    [LogSold "001" 2; LogLowStock "001" 2; LogWarning "001"] ∧
  publish type handle 10 (MachineSaleEvent 1 "001") after_sale_8 =
    Some (Returned, after_sale_1) ∧
  find_machine "001" (machines (world after_sale_1)) = Some (mkMachine 1 "001") ∧
  console (world after_sale_1) =
    console (world after_sale_8) ++ [LogSold "001" 1; LogLowStock "001" 1] ∧
  warnings_for "001" (console (world after_sale_1)) = 1 ∧
  publish type handle 10 (MachineRefillEvent 5 "001") after_sale_1 =
    Some (Returned, after_refill_5) ∧
  find_machine "001" (machines (world after_refill_5)) = Some (mkMachine 6 "001") ∧
  enqueued (trace after_refill_5) =
    enqueued (trace after_sale_1) ++
    [MachineRefillEvent 5 "001"; StockLevelOkEvent "001"] ∧
  recipients (StockLevelOkEvent "001") (trace after_refill_5) =
    [stockWarningSubscriber] ∧
  console (world after_refill_5) =
    console (world after_sale_1) ++
    [LogRefilled "001" 6; LogStockOk "001" 6; LogCleared "001"] ∧
  warnings_for "001" (console (world after_refill_5)) = 1 ∧
  clearings_for "001" (console (world after_refill_5)) = 1.
Proof. split_and!; by vm_compute. Qed.

(** ** The theorems at work *)

Lemma wf_normalCase : wf_registry (svc normalCase).
Proof. simpl. repeat apply wf_subscribe. apply wf_newPubSubService. Qed.

(** After ["A"] is published, the handler of subscriber 3 publishes ["B"]
    and throws: ["B"] stays in the queue with the flag set, and publishing
    ["C"] afterwards only adds ["C"] behind it. *)
Lemma throw_leaves_flag_set_counterexample :
  ¬ resumes_after_throw demo_type demo_handle.
Proof.
  intros Hresume.
  specialize (Hresume 10 "A" demo_throwing demo_thrown 10 "C" demo_thrown_then_C).
  assert (eventQueue (svc demo_thrown_then_C) = ["B"; "C"]) as Hq
    by (vm_compute; reflexivity).
  rewrite Hresume in Hq; [discriminate|vm_compute; reflexivity..].
Qed.

Lemma throw_leaves_flag_set_witness :
  isProcessing (svc demo_throwing) = false ∧
  publish demo_type demo_handle 10 "A" demo_throwing = Some (Threw, demo_thrown) ∧
  (Threw = Threw ↔ ORaise ∈ trace demo_thrown) ∧
  (Threw = Threw →
   (∃ t0, trace demo_thrown = t0 ++ [ORaise; ODrainAbort]) ∧
   shifted (trace demo_thrown) ++ eventQueue (svc demo_thrown) =
     eventQueue (svc demo_throwing) ++ enqueued (trace demo_thrown) ∧
   isProcessing (svc demo_thrown) = true ∧
   (∀ fuel' e', publish demo_type demo_handle (S fuel') e' demo_thrown =
                  Some (Returned, observe (OEnq e') (with_svc (push e') demo_thrown))) ∧
   (∀ σ'', steps demo_type demo_handle demo_thrown σ'' →
           isProcessing (svc σ'') = true ∧
           shifted (trace σ'') = shifted (trace demo_thrown) ∧
           ∃ later, eventQueue (svc σ'') = eventQueue (svc demo_thrown) ++ later)).
Proof.
  assert (publish demo_type demo_handle 10 "A" demo_throwing =
            Some (Threw, demo_thrown)) as Hrun by (vm_compute; reflexivity).
  split_and!; [reflexivity|exact Hrun|..];
    apply (throw_leaves_flag_set demo_type demo_handle 10 "A" demo_throwing
             Threw demo_thrown (trace demo_thrown) eq_refl Hrun eq_refl).
Defined.

(** Subscribers 1 and 2 are registered for ["E"]; the handler of 1
    unsubscribes 2 while ["E"] is delivered, and 2 is not handed ["E"]. *)
Lemma delivery_walks_the_live_set_counterexample :
  ¬ snapshot_delivery demo_type demo_handle.
Proof.
  intros Hsnap.
  specialize (Hsnap 10 "E" demo_draining demo_delivered (trace demo_delivered)).
  assert (2 ∈ recipients "E" (trace demo_delivered)) as Hin.
  { apply Hsnap; [reflexivity|vm_compute; reflexivity|reflexivity|].
    vm_compute. right. left. }
  vm_compute in Hin. apply list_elem_of_singleton in Hin. discriminate.
Qed.

(** A subscriber added by a handler while an event is delivered is handed
    that event: subscriber 4 subscribes 5 for ["S"], and 5 receives the
    ["S"] being delivered. *)
Example subscribed_during_delivery_receives :
  ∃ σ, publish demo_type demo_handle 10 "S" demo_subscribing = Some (Returned, σ) ∧
       members "S" (svc demo_subscribing) = [4] ∧
       recipients "S" (trace σ) = [4; 5].
Proof. eexists. split_and!; by vm_compute. Qed.

Lemma subscribe_twice_is_once_witness :
  wf_registry (svc normalCase) ∧
  isProcessing (svc normalCase) = false ∧
  publish type handle 10 (MachineSaleEvent 8 "001") subscribed_again =
    Some (Returned, subscribed_again_after_sale_8) ∧
  untouched "lowStockWarning" (drop 4 (trace subscribed_again_after_sale_8)) ∧
  ∀ e, type e = "lowStockWarning" →
       occurrences stockWarningSubscriber
         (recipients e (drop 4 (trace subscribed_again_after_sale_8))) =
       occurrences e (shifted (drop 4 (trace subscribed_again_after_sale_8))).
Proof.
  assert (publish type handle 10 (MachineSaleEvent 8 "001") subscribed_again =
            Some (Returned, subscribed_again_after_sale_8)) as Hrun
    by (vm_compute; reflexivity).
  assert (untouched "lowStockWarning"
            (drop 4 (trace subscribed_again_after_sale_8))) as Hut
    by (vm_compute; repeat constructor).
  split_and!; [exact wf_normalCase|reflexivity|exact Hrun|exact Hut|].
  exact (proj2 (proj2 (proj2 (subscribe_twice_is_once type handle)))
           10 "lowStockWarning" stockWarningSubscriber (MachineSaleEvent 8 "001")
           normalCase subscribed_again_after_sale_8
           (drop 4 (trace subscribed_again_after_sale_8))
           wf_normalCase eq_refl Hrun eq_refl Hut).
Defined.

(** A subscriber that was registered before the round trip is no longer
    registered after it. *)
Lemma subscribe_unsubscribe_roundtrip_counterexample :
  ¬ roundtrip_restores (Event := string) (Sub := nat).
Proof.
  intros Hround.
  specialize (Hround "k" 1 (subscribe "k" 1 newPubSubService) "k"
                (wf_subscribe _ _ _ wf_newPubSubService)).
  vm_compute in Hround. discriminate.
Qed.

Lemma subscribe_unsubscribe_roundtrip_witness :
  wf_registry (svc normalCase) ∧
  (refillSubscriber ∉ members "sale" (svc normalCase)) ∧
  same_members
    (unsubscribe "sale" refillSubscriber
       (subscribe "sale" refillSubscriber (svc normalCase)))
    (svc normalCase) ∧
  unsubscribe "sale" refillSubscriber
    (unsubscribe "sale" refillSubscriber
       (subscribe "sale" refillSubscriber (svc normalCase))) =
  unsubscribe "sale" refillSubscriber
    (subscribe "sale" refillSubscriber (svc normalCase)).
Proof.
  assert (refillSubscriber ∉ members "sale" (svc normalCase)) as Hout.
  { vm_compute. intros Hin. apply list_elem_of_singleton in Hin. discriminate. }
  split_and!; [exact wf_normalCase|exact Hout|..];
    apply (subscribe_unsubscribe_roundtrip type handle "sale" refillSubscriber
             (svc normalCase) wf_normalCase Hout).
Defined.

Lemma tracker_reports_once_per_run_witness :
  let events := [LowStockWarningEvent "001"; LowStockWarningEvent "002";
                 LowStockWarningEvent "001"; StockLevelOkEvent "002";
                 LowStockWarningEvent "001"] in
  Forall (fun event => event ≠ StockLevelOkEvent "001") events ∧
  warnings_for "001" (console (track events normalCase_world)) ≤
    warnings_for "001" (console normalCase_world) +
    (if warned "001" normalCase_world then 0 else 1).
Proof.
  intros events.
  assert (Forall (fun event => event ≠ StockLevelOkEvent "001") events) as Hall
    by (repeat constructor; discriminate).
  split; [exact Hall|].
  exact (proj1 (tracker_reports_once_per_run "001" events normalCase_world) Hall).
Defined.

Lemma sale_beyond_stock_goes_negative_witness :
  find_machine "001" (machines normalCase_world) = Some (newMachine "001") ∧
  (stockLevel (newMachine "001") < 12)%Z ∧
  let r := MachineSaleSubscriber_handle (MachineSaleEvent 12 "001") normalCase_world in
  find_machine "001" (machines r.1) =
    Some (mkMachine (stockLevel (newMachine "001") - 12) "001") ∧
  (stockLevel (newMachine "001") - 12 < 0)%Z ∧
  r.2 = [CallPublish (LowStockWarningEvent "001")].
Proof.
  split_and!; [reflexivity|reflexivity|].
  exact (sale_beyond_stock_goes_negative 12 "001" normalCase_world (newMachine "001")
           eq_refl eq_refl).
Defined.

(** ** Instances for the order of deliveries, the drains and the walk *)


Lemma reachable_demo_called_thrown :
  reachable demo_type demo_handle demo_called_thrown.
Proof.
  exists ().
  apply (steps_publish demo_type demo_handle _ demo_called 10 "A" Threw);
    [|vm_compute; reflexivity].
  unfold demo_called. repeat apply steps_subscribe. apply steps_refl.
Qed.

Lemma raised_demo_called_thrown : ORaise ∈ trace demo_called_thrown.
Proof. vm_compute. repeat constructor. Qed.


(** The sale of 8 in the history of [after_refill_5]: between its shift
    and the next one it was handed to the sale subscriber, which was the
    one registered for sales. *)
Example sale_is_handed_to_its_subscriber :
  ∃ t1 t3,
    trace after_refill_5 =
      t1 ++ OShift (MachineSaleEvent 8 "001") ::
      [OHandle saleSubscriber (MachineSaleEvent 8 "001");
       OEnq (LowStockWarningEvent "001")] ++
      OShift (LowStockWarningEvent "001") :: t3 ∧
    registered "sale" saleSubscriber t1 = true.
Proof.
  exists (take 6 (trace after_refill_5)), (drop 10 (trace after_refill_5)).
  split; by vm_compute.
Qed.

Lemma at_most_one_drain_witness :
  publish type handle 10 (MachineSaleEvent 8 "001") normalCase =
    Some (Returned, after_sale_8) ∧
  (drains_begun (drop 4 (trace after_sale_8)) = 1 ∧
   (∀ t1 t2, drop 4 (trace after_sale_8) = t1 ++ t2 →
             drains_finished t1 ≤ drains_begun t1 ≤ S (drains_finished t1)) ∧
   (∃ t0, drop 4 (trace after_sale_8) =
            OEnq (MachineSaleEvent 8 "001") :: ODrainBegin :: t0) ∧
   (Returned = Returned →
    eventQueue (svc after_sale_8) = [] ∧ isProcessing (svc after_sale_8) = false ∧
    ∃ t0, drop 4 (trace after_sale_8) =
            OEnq (MachineSaleEvent 8 "001") :: ODrainBegin :: t0 ++ [ODrainEnd])) ∧
  reachable demo_type demo_handle demo_called_thrown ∧
  (drains_begun (trace demo_called_thrown) =
     drains_finished (trace demo_called_thrown) ∧
   (isProcessing (svc demo_called_thrown) = true ↔
    ORaise ∈ trace demo_called_thrown) ∧
   (∀ t1 t2, trace demo_called_thrown = t1 ++ t2 →
             drains_finished t1 ≤ drains_begun t1 ≤ S (drains_finished t1)) ∧
   (∀ t1 s e t2, trace demo_called_thrown = t1 ++ OHandle s e :: t2 →
                 drains_begun t1 = S (drains_finished t1)) ∧
   (∀ t1 t2, trace demo_called_thrown = t1 ++ ODrainBegin :: t2 →
             drains_begun t1 = drains_finished t1)) ∧
  isProcessing (svc demo_called_thrown) = true ∧
  runCalls demo_type demo_handle 5 [CallPublish "B"; CallPublish "C"]
    demo_called_thrown =
    Some (Returned,
          observe (OEnq "C")
            (with_svc (push "C")
               (observe (OEnq "B") (with_svc (push "B") demo_called_thrown)))) ∧
  (drains_begun [OEnq (Sub := nat) "B"; OEnq "C"] = 0 ∧
   isProcessing
     (svc (observe (OEnq "C")
             (with_svc (push "C")
                (observe (OEnq "B") (with_svc (push "B") demo_called_thrown))))) =
     true ∧
   eventQueue
     (svc (observe (OEnq "C")
             (with_svc (push "C")
                (observe (OEnq "B") (with_svc (push "B") demo_called_thrown))))) =
     eventQueue (svc demo_called_thrown) ++
     enqueued [OEnq (Sub := nat) "B"; OEnq "C"]) ∧
  (∃ σ', publish demo_type demo_handle (S 0) "C" demo_called_thrown =
           Some (Returned, σ') ∧
         trace σ' = trace demo_called_thrown ++ [OEnq "C"] ∧
         eventQueue (svc σ') = eventQueue (svc demo_called_thrown) ++ ["C"]).
Proof.
  assert (runCalls demo_type demo_handle 5 [CallPublish "B"; CallPublish "C"]
            demo_called_thrown =
          Some (Returned,
                observe (OEnq "C")
                  (with_svc (push "C")
                     (observe (OEnq "B") (with_svc (push "B") demo_called_thrown)))))
    as Hcalls by (vm_compute; reflexivity).
  assert (publish type handle 10 (MachineSaleEvent 8 "001") normalCase =
            Some (Returned, after_sale_8)) as Hrun by (vm_compute; reflexivity).
  split; [exact Hrun|]. split.
  - exact (proj1 (at_most_one_drain type handle) 10 (MachineSaleEvent 8 "001")
             normalCase Returned after_sale_8 (drop 4 (trace after_sale_8))
             Hrun eq_refl).
  - split; [exact reachable_demo_called_thrown|].
    split; [|split; [reflexivity|split; [exact Hcalls|split]]].
    + exact (proj1 (proj2 (at_most_one_drain demo_type demo_handle))
               demo_called_thrown reachable_demo_called_thrown).
    + exact (proj1 (proj2 (proj2 (at_most_one_drain demo_type demo_handle)))
               5 [CallPublish "B"; CallPublish "C"] demo_called_thrown Returned _
               [OEnq "B"; OEnq "C"] eq_refl Hcalls eq_refl).
    + exact (proj2 (proj2 (proj2 (at_most_one_drain demo_type demo_handle)))
               0 "C" demo_called_thrown eq_refl).
Defined.

(** After the handler of subscriber 3 has thrown no drain is in progress,
    and publishing ["C"] begins none. *)
Lemma at_most_one_drain_counterexample :
  ¬ idle_publish_drains demo_type demo_handle.
Proof.
  intros Hdrains.
  specialize (Hdrains demo_called_thrown 10 "C" Returned demo_called_thrown_then_C
                [OEnq "C"] reachable_demo_called_thrown).
  assert (drains_begun [OEnq (Sub := nat) "C"] = 1) as Hone.
  { apply Hdrains; vm_compute; reflexivity. }
  vm_compute in Hone. discriminate.
Qed.

Lemma publish_returns_idle_witness :
  isProcessing (svc normalCase) = false ∧
  publish type handle 10 (MachineSaleEvent 8 "001") normalCase =
    Some (Returned, after_sale_8) ∧
  (eventQueue (svc after_sale_8) = [] ∧ isProcessing (svc after_sale_8) = false ∧
   shifted (drop 4 (trace after_sale_8)) =
     eventQueue (svc normalCase) ++ enqueued (drop 4 (trace after_sale_8))) ∧
  reachable demo_type demo_handle demo_called_thrown ∧
  ORaise ∈ trace demo_called_thrown ∧
  (drains_begun (trace demo_called_thrown) =
     drains_finished (trace demo_called_thrown) ∧
   isProcessing (svc demo_called_thrown) = true ∧
   ∀ fuel e, ∃ σ',
     publish demo_type demo_handle (S fuel) e demo_called_thrown =
       Some (Returned, σ') ∧
     eventQueue (svc σ') = eventQueue (svc demo_called_thrown) ++ [e] ∧
     isProcessing (svc σ') = true).
Proof.
  assert (publish type handle 10 (MachineSaleEvent 8 "001") normalCase =
            Some (Returned, after_sale_8)) as Hrun by (vm_compute; reflexivity).
  split; [reflexivity|]. split; [exact Hrun|]. split; [|split; [|split]].
  - exact (proj1 (publish_returns_idle type handle) 10 (MachineSaleEvent 8 "001")
             normalCase after_sale_8 (drop 4 (trace after_sale_8))
             eq_refl Hrun eq_refl).
  - exact reachable_demo_called_thrown.
  - exact raised_demo_called_thrown.
  - exact (proj2 (proj2 (publish_returns_idle demo_type demo_handle))
             demo_called_thrown reachable_demo_called_thrown
             raised_demo_called_thrown).
Defined.

(** After the handler of subscriber 3 has thrown, publishing ["C"] returns
    with ["B"] and ["C"] in the queue and the flag set. *)
Lemma publish_returns_idle_counterexample :
  ¬ idle_publish_returns_idle demo_type demo_handle.
Proof.
  intros Hidle.
  specialize (Hidle demo_called_thrown 10 "C" demo_called_thrown_then_C
                reachable_demo_called_thrown).
  assert (eventQueue (svc demo_called_thrown_then_C) = []) as Hq.
  { apply Hidle; vm_compute; reflexivity. }
  vm_compute in Hq. discriminate.
Qed.

Lemma wf_demo_draining : wf_registry (svc demo_draining).
Proof. simpl. repeat apply wf_subscribe. apply wf_newPubSubService. Qed.

Lemma delivery_walks_the_live_set_witness :
  isProcessing (svc demo_draining) = true ∧
  forEach demo_type demo_handle 10 (demo_type "E") "E" 0 demo_draining =
    Some (Returned, demo_delivered) ∧
  wf_registry (svc demo_draining) ∧
  (wf_registry (svc demo_draining) →
   (∀ ta s tb, trace demo_delivered = ta ++ OHandle s "E" :: tb →
               registered_since (svc demo_draining) (demo_type "E") s ta = true) ∧
   (∀ key s, s ∈ members key (svc demo_delivered) ↔
             registered_since (svc demo_draining) key s (trace demo_delivered) = true)) ∧
  (∀ s, s ∈ recipients "E" (trace demo_delivered) →
        s ∈ members (demo_type "E") (svc demo_draining) ∨
        OSubscribe (demo_type "E") s ∈ trace demo_delivered) ∧
  (untouched (demo_type "E") (trace demo_delivered) →
   recipients "E" (trace demo_delivered) `prefix_of`
     members (demo_type "E") (svc demo_draining)) ∧
  (Returned = Returned →
   (∀ s, s ∈ members (demo_type "E") (svc demo_delivered) →
         s ∈ recipients "E" (trace demo_delivered)) ∧
   (∀ s, s ∈ members (demo_type "E") (svc demo_draining) →
         s ∈ recipients "E" (trace demo_delivered) ∨
         OUnsubscribe (demo_type "E") s ∈ trace demo_delivered) ∧
   (untouched (demo_type "E") (trace demo_delivered) →
    recipients "E" (trace demo_delivered) =
      members (demo_type "E") (svc demo_draining))) ∧
  (Returned = Threw →
   ∃ t0 s t1, trace demo_delivered = t0 ++ OHandle s "E" :: t1 ++ [ORaise] ∧
              Forall (fun o => from_handler o = true) t1).
Proof.
  assert (forEach demo_type demo_handle 10 (demo_type "E") "E" 0 demo_draining =
            Some (Returned, demo_delivered)) as Hrun by (vm_compute; reflexivity).
  split; [reflexivity|]. split; [exact Hrun|]. split; [exact wf_demo_draining|].
  exact (delivery_walks_the_live_set demo_type demo_handle 10 "E" demo_draining
           Returned demo_delivered (trace demo_delivered) eq_refl Hrun eq_refl).
Defined.

(** Subscriber 1 was subscribed twice for ["E"]; its handler unsubscribes
    it and subscribes it again the first two times, and ["E"], shifted
    once, is handed to it three times. *)
Lemma subscribe_twice_is_once_counterexample :
  ¬ handed_once_per_event demo_type demo_counting_handle.
Proof.
  intros Honce.
  specialize (Honce 20 "E" 1 "E" (initial 0) Returned demo_twice_published
                (trace demo_twice_published) wf_newPubSubService).
  assert (occurrences 1 (recipients "E" (trace demo_twice_published)) =
          occurrences "E" (shifted (trace demo_twice_published))) as Hsame.
  { apply Honce; vm_compute; reflexivity. }
  vm_compute in Hsame. discriminate.
Qed.

(** ** More on the dispatcher *)

Section RegistryFacts.
Context {Event Sub W : Type} `{EqDecision Event} `{EqDecision Sub}.
Variable type : Event → string.
Variable handle : Sub → Event → W → W * list (Call Event Sub).

Implicit Types (p : PubSubService Event Sub) (σ : System Event Sub W).
Implicit Types (t : list (Obs Event Sub)).
Implicit Types (key : string) (s : Sub) (e event : Event) (o : Obs Event Sub).

(** X1: an event of a kind that has no subscriber (no entry for the kind,
    or an entry whose set holds no one) is taken from the queue and
    dropped: [publish] returns, and the service and what the handlers own
    are as before. *)
Theorem publish_without_subscribers e σ :
  isProcessing (svc σ) = false →
  eventQueue (svc σ) = [] →
  members (type e) (svc σ) = [] →
  ∃ fuel, ∀ fuel', fuel ≤ fuel' →
    publish type handle fuel' e σ =
      Some (Returned,
            mkSystem (svc σ) (world σ)
                     (trace σ ++ [OEnq e; ODrainBegin; OShift e; ODrainEnd])).
Proof.
  intros Hflag Hqueue Hnone.
  set (σ1 := observe (OShift e)
               (with_svc (set_queue [])
                  (observe ODrainBegin
                     (with_svc (set_processing true)
                        (observe (OEnq e) (with_svc (push e) σ)))))).
  assert (Hend : observe ODrainEnd (with_svc (set_processing false) σ1) =
                 mkSystem (svc σ) (world σ)
                   (trace σ ++ [OEnq e; ODrainBegin; OShift e; ODrainEnd])).
  { unfold observe, with_svc; simpl. f_equal.
    - apply service_eq; simpl; congruence.
    - by rewrite <- !app_assoc. }
  assert (Hwalk : ∃ fuel, whileLoop type handle fuel
                    (observe ODrainBegin
                       (with_svc (set_processing true)
                          (observe (OEnq e) (with_svc (push e) σ)))) =
                  Some (Returned, σ1)).
  { destruct (subscribers (svc σ) !! type e) as [l|] eqn:Hl.
    - destruct (forEach_no_member type handle (type e) e 0 σ1) as [fuel Hfuel].
      { simpl. unfold members in Hnone. by rewrite Hl in Hnone |- *. }
      exists (S (S fuel)). rewrite whileLoop_S.
      cbn [observe with_svc set_processing push svc eventQueue subscribers].
      rewrite Hqueue. cbn [app]. rewrite Hl. fold σ1.
      rewrite (forEach_mono type handle fuel (S fuel) _ _ _ _ _ Hfuel) by lia.
      by rewrite whileLoop_S.
    - exists 2. rewrite whileLoop_S.
      cbn [observe with_svc set_processing push svc eventQueue subscribers].
      rewrite Hqueue. cbn [app]. by rewrite Hl. }
  destruct Hwalk as [fuel Hwalk]. exists (S (S fuel)). intros fuel' Hfuel'.
  apply (publish_mono type handle (S (S fuel))); [|done].
  by rewrite publish_S, Hflag, processEventQueue_S, Hwalk, Hend.
Qed.

(** X2: [unsubscribe] of a handler that is not registered for the kind,
    whether the kind has an entry or not, changes nothing. *)
Theorem unsubscribe_unregistered key s p :
  s ∉ members key p → unsubscribe key s p = p.
Proof.
  intros Hs. unfold unsubscribe. case_decide as Hsome; [|done].
  apply service_eq; simpl; [|done..].
  destruct Hsome as [l Hl]. apply map_eq. intros key'.
  destruct (decide (key = key')) as [<-|Hne].
  - rewrite lookup_alter_eq, Hl. simpl. f_equal. apply set_delete_absent.
    unfold members in Hs. by rewrite Hl in Hs.
  - by rewrite lookup_alter_ne.
Qed.

(** X3: [unsubscribe] followed by [subscribe] of the same pair puts the
    handler last among the members of the kind, which is the order in which
    [forEach] visits them; the other members keep their order and the other
    kinds their members. *)
Theorem resubscribe_moves_last key s p :
  wf_registry p →
  members key (subscribe key s (unsubscribe key s p)) =
    filter (fun s' => s' ≠ s) (members key p) ++ [s] ∧
  ∀ key', key' ≠ key →
    members key' (subscribe key s (unsubscribe key s p)) = members key' p.
Proof.
  intros Hwf. split.
  - rewrite members_subscribe. rewrite decide_True by done.
    rewrite subscribers_unsubscribe, decide_True by done.
    unfold members. destruct (subscribers p !! key) as [l|] eqn:Hl; simpl.
    + assert (Hnd : NoDup (live l)) by (by eapply Hwf).
      rewrite live_set_add, decide_False by (by apply not_elem_of_set_delete).
      by rewrite live_set_delete.
    + done.
  - intros key' Hne. rewrite members_subscribe, decide_False by done.
    by rewrite members_unsubscribe, decide_False.
Qed.

(** X4: calls of [subscribe] and [unsubscribe] for two different kinds
    can be made in either order: the service reached is the same. *)
Theorem calls_for_different_kinds_commute key1 key2 s1 s2 p :
  key1 ≠ key2 →
  subscribe key1 s1 (subscribe key2 s2 p) =
    subscribe key2 s2 (subscribe key1 s1 p) ∧
  subscribe key1 s1 (unsubscribe key2 s2 p) =
    unsubscribe key2 s2 (subscribe key1 s1 p) ∧
  unsubscribe key1 s1 (unsubscribe key2 s2 p) =
    unsubscribe key2 s2 (unsubscribe key1 s1 p).
Proof.
  intros Hne.
  assert (Hlookup : ∀ (q q' : PubSubService Event Sub),
            (∀ key, subscribers q !! key = subscribers q' !! key) →
            eventQueue q = eventQueue q' → isProcessing q = isProcessing q' →
            q = q').
  { intros q q' Hs Hq Hf. apply service_eq; [by apply map_eq|done..]. }
  split_and!; apply Hlookup; try (intros key;
    rewrite ?subscribers_subscribe, ?subscribers_unsubscribe;
    repeat (case_decide; simplify_eq;
            rewrite ?subscribers_subscribe, ?subscribers_unsubscribe); try done).
  all: try (unfold subscribe, unsubscribe; repeat case_decide; done).
Qed.

(** X5: [publish] itself registers and removes no one.  Whatever the
    handlers do and however the call ends, the set of a kind is changed
    only if a call of [subscribe] or [unsubscribe] named the kind meanwhile,
    no kind loses its entry, a handler is a member afterwards only if it
    was before or was subscribed, and one that was a member is still one
    unless it was unsubscribed. *)
Theorem publish_keeps_registrations fuel e σ r σ' t :
  publish type handle fuel e σ = Some (r, σ') →
  trace σ' = trace σ ++ t →
  (∀ key, untouched key t →
          subscribers (svc σ') !! key = subscribers (svc σ) !! key) ∧
  (∀ key, is_Some (subscribers (svc σ) !! key) →
          is_Some (subscribers (svc σ') !! key)) ∧
  (∀ key s, s ∈ members key (svc σ') →
            s ∈ members key (svc σ) ∨ OSubscribe key s ∈ t) ∧
  (∀ key s, s ∈ members key (svc σ) →
            s ∈ members key (svc σ') ∨ OUnsubscribe key s ∈ t).
Proof.
  intros Hpub Ht.
  assert (Hmoves : registry_moves (svc σ) (svc σ') t).
  { destruct (isProcessing (svc σ)) eqn:Hflag.
    - destruct fuel as [|fuel]; [done|].
      rewrite publish_nested in Hpub by done. simplify_eq.
      by apply registry_moves_same.
    - destruct (publish_run type handle fuel e σ
                  (mkRef (eventQueue (svc σ)) Idle) r σ')
        as (t' & a' & Ht' & _ & _ & Hm & _); [done..|].
      rewrite Ht in Ht'. by apply app_inv_head in Ht' as ->. }
  destruct Hmoves as (_ & Hkeep & Hsame & Hin & Hout & _). done.
Qed.

(** X6: the members of a kind are an ordered set.  [subscribe] puts a
    handler that is not a member last and leaves a member where it is;
    [unsubscribe] takes the handler out and keeps the order of the others;
    neither changes the members of another kind. *)
Theorem membership_after_calls key s p :
  members key (subscribe key s p) =
    (if decide (s ∈ members key p) then members key p else members key p ++ [s]) ∧
  (wf_registry p →
   members key (unsubscribe key s p) = filter (fun s' => s' ≠ s) (members key p)) ∧
  ∀ key', key' ≠ key →
    members key' (subscribe key s p) = members key' p ∧
    members key' (unsubscribe key s p) = members key' p.
Proof.
  split_and!.
  - rewrite members_subscribe, decide_True by done. apply live_set_add.
  - intros Hwf. rewrite members_unsubscribe, decide_True by done.
    apply live_set_delete. by apply wf_members.
  - intros key' Hne.
    by rewrite members_subscribe, members_unsubscribe, !decide_False by done.
Qed.

(** *** Handlers that call nothing *)

Section Quiet.
Hypothesis quiet : ∀ s e w, (handle s e w).2 = [].

Lemma forEach_quiet_walk n : ∀ key e index σ,
  length (default [] (subscribers (svc σ) !! key)) ≤ index + n →
  forEach type handle (S (S n)) key e index σ =
    Some (Returned,
          mkSystem (svc σ)
            (foldl (fun w s => (handle s e w).1) (world σ)
               (live (drop index (default [] (subscribers (svc σ) !! key)))))
            (trace σ ++
             map (fun s => OHandle s e)
               (live (drop index (default [] (subscribers (svc σ) !! key)))))).
Proof.
  induction n as [|n IH]; intros key e index σ Hlen;
    rewrite forEach_S, live_drop_lookup.
  - rewrite (proj2 (lookup_ge_None _ index)) by lia. simpl.
    rewrite app_nil_r. by destruct σ.
  - destruct (default [] (subscribers (svc σ) !! key) !! index) as [[s|]|] eqn:Hi.
    + rewrite quiet, runCalls_S, IH by (simpl; lia). simpl.
      by rewrite <- app_assoc.
    + by rewrite IH by lia.
    + simpl. rewrite app_nil_r. by destruct σ.
Qed.

(** X7: when no handler calls the service or throws, a publish made
    while the service is idle with an empty queue hands the event to every
    member of its kind once, in the order of the set and to no one else,
    each handler starting from the state the one before it left; then it
    returns with the service as it was. *)
Theorem quiet_publish_is_a_fold e σ :
  isProcessing (svc σ) = false →
  eventQueue (svc σ) = [] →
  ∃ fuel, ∀ fuel', fuel ≤ fuel' →
    publish type handle fuel' e σ =
      Some (Returned,
            mkSystem (svc σ)
              (foldl (fun w s => (handle s e w).1) (world σ)
                 (members (type e) (svc σ)))
              (trace σ ++ [OEnq e; ODrainBegin; OShift e] ++
               map (fun s => OHandle s e) (members (type e) (svc σ)) ++
               [ODrainEnd])).
Proof.
  intros Hflag Hqueue.
  set (l := default [] (subscribers (svc σ) !! type e)).
  set (σ1 := observe (OShift e)
               (with_svc (set_queue [])
                  (observe ODrainBegin
                     (with_svc (set_processing true)
                        (observe (OEnq e) (with_svc (push e) σ)))))).
  set (σ2 := mkSystem (svc σ1)
               (foldl (fun w s => (handle s e w).1) (world σ) (live l))
               (trace σ1 ++ map (fun s => OHandle s e) (live l))).
  assert (Hloop : whileLoop type handle (S (S (S (length l))))
                    (observe ODrainBegin
                       (with_svc (set_processing true)
                          (observe (OEnq e) (with_svc (push e) σ)))) =
                  Some (Returned, σ2)).
  { rewrite whileLoop_S.
    cbn [observe with_svc set_processing push svc eventQueue subscribers].
    rewrite Hqueue. cbn [app]. fold σ1. unfold σ2, l.
    destruct (subscribers (svc σ) !! type e) as [l'|] eqn:Hl.
    - rewrite forEach_quiet_walk by (simpl; rewrite Hl; simpl; lia).
      unfold σ1.
      cbn [observe with_svc set_queue set_processing push svc subscribers world].
      rewrite Hl. by rewrite whileLoop_S.
    - rewrite whileLoop_S. simpl. by rewrite app_nil_r. }
  exists (S (S (S (S (S (length l)))))). intros fuel' Hfuel'.
  apply (publish_mono type handle (S (S (S (S (S (length l))))))); [|done].
  rewrite publish_S, Hflag, processEventQueue_S, Hloop.
  unfold observe, with_svc, σ2, σ1, members; simpl. fold l. do 3 f_equal.
  - apply service_eq; simpl; congruence.
  - by rewrite <- !app_assoc.
Qed.

End Quiet.

(** *** A handler that publishes what it handles *)

Lemma whileLoop_cycle e s fuel : ∀ σ,
  (∀ w, (handle s e w).2 = [CallPublish e]) →
  isProcessing (svc σ) = true →
  eventQueue (svc σ) = [e] →
  subscribers (svc σ) !! type e = Some [Some s] →
  whileLoop type handle fuel σ = None.
Proof.
  induction fuel as [|fuel IH]; intros σ Hcycle Hflag Hqueue Hsubs; [done|].
  rewrite whileLoop_S, Hqueue, Hsubs.
  destruct fuel as [|fuel1]; [done|]. rewrite forEach_S.
  cbn [observe with_svc set_queue svc subscribers]. rewrite Hsubs.
  cbn [from_option Datatypes.id lookup list_lookup]. rewrite Hcycle.
  destruct fuel1 as [|fuel2]; [done|]. rewrite runCalls_S.
  destruct fuel2 as [|fuel3]; [done|].
  rewrite publish_nested by done. rewrite runCalls_S, forEach_S.
  cbn [observe with_svc with_world set_queue push svc subscribers]. rewrite Hsubs.
  cbn [from_option Datatypes.id lookup list_lookup].
  apply IH; [done|done|by simpl|by simpl].
Qed.

(** X8: the dispatcher has no guard against a cycle of events.  When
    the one subscriber of a kind publishes, each time it handles an event
    of the kind, that event again, a publish of the event by the driver
    neither returns nor throws: the drain goes on for ever. *)
Theorem republished_event_never_ends e s σ :
  (∀ w, (handle s e w).2 = [CallPublish e]) →
  isProcessing (svc σ) = false →
  eventQueue (svc σ) = [] →
  subscribers (svc σ) !! type e = Some [Some s] →
  ∀ fuel, publish type handle fuel e σ = None.
Proof.
  intros Hcycle Hflag Hqueue Hsubs [|[|fuel]]; [done| |].
  - by rewrite publish_S, Hflag.
  - rewrite publish_S, Hflag, processEventQueue_S.
    rewrite whileLoop_cycle with (e := e) (s := s); [done|done|done| |done].
    simpl. by rewrite Hqueue.
Qed.

End RegistryFacts.

(** ** Deliveries to a kind with one subscriber *)

Section Deliveries.
Context {Event Sub W : Type} `{EqDecision Event} `{EqDecision Sub}.
Variable type : Event → string.
Variable handle : Sub → Event → W → W * list (Call Event Sub).

Implicit Types (σ : System Event Sub W) (s : Sub) (e : Event).

Ltac prune :=
  cbn [observe with_svc with_world set_processing set_queue push
       svc world trace eventQueue subscribers isProcessing app fst snd
       from_option Datatypes.id lookup list_lookup].

Ltac deliver_step known :=
  first [rewrite publish_S | rewrite processEventQueue_S
        | rewrite whileLoop_S | rewrite forEach_S | rewrite runCalls_S];
  prune; known; prune; known; prune.

Ltac delivered :=
  cbv [observe with_svc with_world set_processing set_queue push
       svc world trace eventQueue subscribers isProcessing];
  by rewrite <- !app_assoc.

(** The handler makes no call. *)
Lemma publish_single fuel e σ s w1 :
  isProcessing (svc σ) = false →
  eventQueue (svc σ) = [] →
  subscribers (svc σ) !! type e = Some [Some s] →
  handle s e (world σ) = (w1, []) →
  publish type handle (8 + fuel) e σ =
    Some (Returned,
          mkSystem (svc σ) w1
            (trace σ ++ [OEnq e; ODrainBegin; OShift e; OHandle s e; ODrainEnd])).
Proof.
  intros Hflag Hqueue Hs Hh.
  apply (publish_mono type handle 8); [|lia].
  destruct σ as [[subs q b] w t]. simpl in Hflag, Hqueue, Hs, Hh. subst q b.
  do 7 deliver_step ltac:(rewrite ?Hs, ?Hh). delivered.
Qed.

(** The handler publishes one event, whose kind has one subscriber, which
    makes no call. *)
Lemma publish_chain fuel e σ s w1 e' s' w2 :
  isProcessing (svc σ) = false →
  eventQueue (svc σ) = [] →
  subscribers (svc σ) !! type e = Some [Some s] →
  handle s e (world σ) = (w1, [CallPublish e']) →
  subscribers (svc σ) !! type e' = Some [Some s'] →
  handle s' e' w1 = (w2, []) →
  publish type handle (8 + fuel) e σ =
    Some (Returned,
          mkSystem (svc σ) w2
            (trace σ ++ [OEnq e; ODrainBegin; OShift e; OHandle s e; OEnq e';
                         OShift e'; OHandle s' e'; ODrainEnd])).
Proof.
  intros Hflag Hqueue Hs Hh Hs' Hh'.
  apply (publish_mono type handle 8); [|lia].
  destruct σ as [[subs q b] w t]. simpl in Hflag, Hqueue, Hs, Hh, Hs', Hh'. subst q b.
  do 13 deliver_step ltac:(rewrite ?Hs, ?Hh, ?Hs', ?Hh'). delivered.
Qed.

End Deliveries.

(** ** More on the vending machines *)

Lemma find_machine_set_stockLevel_ne j i level ms :
  j ≠ i → find_machine j (set_stockLevel i level ms) = find_machine j ms.
Proof.
  intros Hne. unfold find_machine. induction ms as [|m ms IH]; simpl; [done|].
  destruct (bool_decide (id m = i)) eqn:Hid; simpl.
  - apply bool_decide_eq_true in Hid.
    by rewrite !bool_decide_eq_false_2 by congruence.
  - by rewrite IH.
Qed.

Lemma map_id_set_stockLevel i level ms :
  map id (set_stockLevel i level ms) = map id ms.
Proof.
  induction ms as [|m ms IH]; simpl; [done|].
  destruct (bool_decide (id m = i)); simpl; congruence.
Qed.

Lemma set_stockLevel_twice i level1 level2 ms :
  set_stockLevel i level2 (set_stockLevel i level1 ms) = set_stockLevel i level2 ms.
Proof.
  induction ms as [|m ms IH]; simpl; [done|].
  destruct (bool_decide (id m = i)) eqn:Hid; simpl; rewrite Hid; congruence.
Qed.

Lemma set_stockLevel_same i ms m :
  find_machine i ms = Some m → set_stockLevel i (stockLevel m) ms = ms.
Proof.
  unfold find_machine. induction ms as [|m0 ms IH]; simpl; [done|].
  destruct (bool_decide (id m0 = i)) eqn:Hid; simpl.
  - intros [= ->]. by destruct m.
  - intros Hfind. by rewrite IH.
Qed.

Lemma find_machine_NoDup ms m :
  NoDup (map id ms) → m ∈ ms → find_machine (id m) ms = Some m.
Proof.
  unfold find_machine. induction ms as [|m0 ms IH]; simpl.
  - intros _ Hin. by apply elem_of_nil in Hin.
  - intros Hnd Hin. apply NoDup_cons in Hnd as [Hfresh Hnd].
    apply elem_of_cons in Hin as [->|Hin].
    + by rewrite bool_decide_eq_true_2.
    + rewrite bool_decide_eq_false_2; [by apply IH|].
      intros Hid. apply Hfresh. rewrite Hid. by apply list_elem_of_fmap_2.
Qed.

(** *** The handlers, case by case *)

Lemma sale_handle_found q i w m :
  find_machine i (machines w) = Some m →
  MachineSaleSubscriber_handle (MachineSaleEvent q i) w =
    let level := (stockLevel m - q)%Z in
    let w1 := console_log (LogSold i level)
                (with_machines (set_stockLevel i level (machines w)) w) in
    if decide (level < 3)%Z
    then (console_log (LogLowStock i level) w1, [CallPublish (LowStockWarningEvent i)])
    else (w1, []).
Proof.
  intros Hfind. unfold MachineSaleSubscriber_handle. simpl.
  by rewrite Hfind, (find_machine_id _ _ _ Hfind).
Qed.

Lemma refill_handle_found q i w m :
  find_machine i (machines w) = Some m →
  MachineRefillSubscriber_handle (MachineRefillEvent q i) w =
    let level := (stockLevel m + q)%Z in
    let w1 := console_log (LogRefilled i level)
                (with_machines (set_stockLevel i level (machines w)) w) in
    if decide (3 ≤ level)%Z
    then (console_log (LogStockOk i level) w1, [CallPublish (StockLevelOkEvent i)])
    else (w1, []).
Proof.
  intros Hfind. unfold MachineRefillSubscriber_handle. simpl.
  by rewrite Hfind, (find_machine_id _ _ _ Hfind).
Qed.

Lemma tracker_no_calls e w :
  StockWarningSubscriber_handle e w = ((StockWarningSubscriber_handle e w).1, []).
Proof.
  unfold StockWarningSubscriber_handle. by destruct e; repeat case_match.
Qed.

Lemma tracker_machines e w :
  machines (StockWarningSubscriber_handle e w).1 = machines w.
Proof.
  unfold StockWarningSubscriber_handle. by destruct e; repeat case_match.
Qed.

Lemma tracker_warningStates e w j :
  j ≠ machineId e →
  warningStates (StockWarningSubscriber_handle e w).1 !! j = warningStates w !! j.
Proof.
  intros Hj. unfold StockWarningSubscriber_handle.
  destruct e; simpl in *; repeat case_match; simpl; try done;
    by rewrite lookup_insert_ne.
Qed.

Lemma warned_low_stock i j w :
  warned j (StockWarningSubscriber_handle (LowStockWarningEvent i) w).1 =
    if decide (i = j) then true else warned j w.
Proof.
  unfold StockWarningSubscriber_handle.
  destruct (warned i w) eqn:Hw; simpl.
  - case_decide; [by subst|done].
  - apply warned_insert.
Qed.

Lemma warned_stock_ok i j w :
  warned j (StockWarningSubscriber_handle (StockLevelOkEvent i) w).1 =
    if decide (i = j) then false else warned j w.
Proof.
  unfold StockWarningSubscriber_handle.
  destruct (warned i w) eqn:Hw; simpl.
  - apply warned_insert.
  - case_decide; [by subst|done].
Qed.

(** X9: no handler adds, removes or renames a machine, and none changes
    the stock of a machine other than the one the event names; the
    stock-warning subscriber leaves the machines alone. *)
Theorem handlers_keep_the_machines s e w :
  map id (machines (handle s e w).1) = map id (machines w) ∧
  (∀ j, j ≠ machineId e →
        find_machine j (machines (handle s e w).1) = find_machine j (machines w)) ∧
  (s = stockWarningSubscriber → machines (handle s e w).1 = machines w).
Proof.
  destruct s; simpl.
  - unfold MachineSaleSubscriber_handle.
    destruct (find_machine (machineId e) (machines w)) as [m|] eqn:Hfind; [|done].
    apply find_machine_id in Hfind as Hid.
    destruct e; simpl in *; try done.
    case_decide; simpl; rewrite map_id_set_stockLevel;
      (split_and!; [done| |done]); intros j Hj;
      by rewrite find_machine_set_stockLevel_ne by congruence.
  - unfold MachineRefillSubscriber_handle.
    destruct (find_machine (machineId e) (machines w)) as [m|] eqn:Hfind; [|done].
    apply find_machine_id in Hfind as Hid.
    destruct e; simpl in *; try done.
    case_decide; simpl; rewrite map_id_set_stockLevel;
      (split_and!; [done| |done]); intros j Hj;
      by rewrite find_machine_set_stockLevel_ne by congruence.
  - by rewrite tracker_machines.
Qed.

(** X10: within the safe integers, a sale of a quantity followed by a
    refill of the same quantity for the same machine, or the refill
    followed by the sale, leaves the array of machines as it was.  The
    stock of the machine, the quantity, the stock less the quantity and
    the stock plus the quantity are assumed safe: these are the numbers
    that the two handlers compute with. *)
Theorem sale_refill_roundtrip q i w m :
  find_machine i (machines w) = Some m →
  safe (stockLevel m) = true →
  safe q = true →
  safe (stockLevel m - q) = true →
  safe (stockLevel m + q) = true →
  machines (MachineRefillSubscriber_handle (MachineRefillEvent q i)
              (MachineSaleSubscriber_handle (MachineSaleEvent q i) w).1).1 =
    machines w ∧
  machines (MachineSaleSubscriber_handle (MachineSaleEvent q i)
              (MachineRefillSubscriber_handle (MachineRefillEvent q i) w).1).1 =
    machines w.
Proof.
  intros Hfind _ _ _ _. split.
  - assert (Hsold : ∃ w1,
      (MachineSaleSubscriber_handle (MachineSaleEvent q i) w).1 = w1 ∧
      machines w1 = set_stockLevel i (stockLevel m - q) (machines w)).
    { rewrite (sale_handle_found q i w m Hfind). simpl. case_decide; eauto. }
    destruct Hsold as (w1 & -> & Hw1).
    assert (Hfind1 : find_machine i (machines w1) = Some (mkMachine (stockLevel m - q) i)).
    { rewrite Hw1. by eapply find_machine_set_stockLevel. }
    rewrite (refill_handle_found q i w1 _ Hfind1). simpl.
    replace (stockLevel m - q + q)%Z with (stockLevel m) by lia.
    case_decide; simpl; rewrite Hw1, set_stockLevel_twice;
      by apply set_stockLevel_same.
  - assert (Hfilled : ∃ w1,
      (MachineRefillSubscriber_handle (MachineRefillEvent q i) w).1 = w1 ∧
      machines w1 = set_stockLevel i (stockLevel m + q) (machines w)).
    { rewrite (refill_handle_found q i w m Hfind). simpl. case_decide; eauto. }
    destruct Hfilled as (w1 & -> & Hw1).
    assert (Hfind1 : find_machine i (machines w1) = Some (mkMachine (stockLevel m + q) i)).
    { rewrite Hw1. by eapply find_machine_set_stockLevel. }
    rewrite (sale_handle_found q i w1 _ Hfind1). simpl.
    replace (stockLevel m + q - q)%Z with (stockLevel m) by lia.
    case_decide; simpl; rewrite Hw1, set_stockLevel_twice;
      by apply set_stockLevel_same.
Qed.

(** X11: the warning states are kept per machine and by the stock-warning
    subscriber alone: the sale and the refill subscriber never change
    them, and an event changes at most the state of the machine it names. *)
Theorem warning_states_are_per_machine s e w :
  (s ≠ stockWarningSubscriber → warningStates (handle s e w).1 = warningStates w) ∧
  (∀ j, j ≠ machineId e →
        warningStates (handle s e w).1 !! j = warningStates w !! j).
Proof.
  assert (Hothers : s ≠ stockWarningSubscriber →
                    warningStates (handle s e w).1 = warningStates w).
  { intros Hs. destruct s; [| |done]; simpl.
    - unfold MachineSaleSubscriber_handle. by repeat case_match.
    - unfold MachineRefillSubscriber_handle. by repeat case_match. }
  split; [done|]. intros j Hj.
  destruct (decide (s = stockWarningSubscriber)) as [->|Hs].
  - by apply tracker_warningStates.
  - by rewrite Hothers.
Qed.

(** ** The wiring of [normalCase] *)

Lemma wired_normalCase : wired normalCase.
Proof. split_and!; reflexivity. Qed.

Lemma wired_lookup σ e :
  wired σ → subscribers (svc σ) !! type e = Some [Some (subscriber_of e)].
Proof. intros (Hs & _ & _). rewrite Hs. destruct e; vm_compute; reflexivity. Qed.

Lemma sale_calls q i w :
  (MachineSaleSubscriber_handle (MachineSaleEvent q i) w).2 = [] ∨
  (MachineSaleSubscriber_handle (MachineSaleEvent q i) w).2 =
    [CallPublish (LowStockWarningEvent i)] ∧
  ∃ m, find_machine i (machines w) = Some m.
Proof.
  destruct (find_machine i (machines w)) as [m|] eqn:Hfind.
  - rewrite (sale_handle_found q i w m Hfind). simpl. case_decide; eauto.
  - left. unfold MachineSaleSubscriber_handle. simpl. by rewrite Hfind.
Qed.

Lemma refill_calls q i w :
  (MachineRefillSubscriber_handle (MachineRefillEvent q i) w).2 = [] ∨
  (MachineRefillSubscriber_handle (MachineRefillEvent q i) w).2 =
    [CallPublish (StockLevelOkEvent i)] ∧
  ∃ m, find_machine i (machines w) = Some m.
Proof.
  destruct (find_machine i (machines w)) as [m|] eqn:Hfind.
  - rewrite (refill_handle_found q i w m Hfind). simpl. case_decide; eauto.
  - left. unfold MachineRefillSubscriber_handle. simpl. by rewrite Hfind.
Qed.

Lemma publish_wired fuel e σ :
  wired σ →
  ∃ t, publish type handle (8 + fuel) e σ =
         Some (Returned, mkSystem (svc σ) (settle e (world σ)) (trace σ ++ t)) ∧
       (t = alone e ∧ (handle (subscriber_of e) e (world σ)).2 = [] ∨
        t = followed e ∧ (type e = "sale" ∨ type e = "refill") ∧
        (handle (subscriber_of e) e (world σ)).2 = [CallPublish (follow_up e)] ∧
        ∃ m, find_machine (machineId e) (machines (world σ)) = Some m).
Proof.
  intros Hw. pose proof Hw as (Hsubs & Hq & Hf).
  destruct e as [q i|q i|i|i].
  - destruct (sale_calls q i (world σ)) as [Hc|[Hc Hm]].
    + exists (alone (MachineSaleEvent q i)). split; [|by left].
      rewrite (publish_single type handle fuel (MachineSaleEvent q i) σ saleSubscriber
                 (MachineSaleSubscriber_handle (MachineSaleEvent q i) (world σ)).1);
        [|done|done|by apply (wired_lookup σ (MachineSaleEvent q i))|].
      * unfold settle. by rewrite Hc.
      * simpl. rewrite <- Hc. by destruct (MachineSaleSubscriber_handle _ _).
    + exists (followed (MachineSaleEvent q i)).
      split; [|right; split_and!; [done|by left|done|done]].
      rewrite (publish_chain type handle fuel (MachineSaleEvent q i) σ saleSubscriber
                 (MachineSaleSubscriber_handle (MachineSaleEvent q i) (world σ)).1
                 (LowStockWarningEvent i) stockWarningSubscriber
                 (settle (MachineSaleEvent q i) (world σ)));
        [done|done|done|by apply (wired_lookup σ (MachineSaleEvent q i))|
         |by apply (wired_lookup σ (LowStockWarningEvent i))|].
      * simpl. rewrite <- Hc. by destruct (MachineSaleSubscriber_handle _ _).
      * unfold settle. rewrite Hc. cbn [warn foldl handle]. apply tracker_no_calls.
  - destruct (refill_calls q i (world σ)) as [Hc|[Hc Hm]].
    + exists (alone (MachineRefillEvent q i)). split; [|by left].
      rewrite (publish_single type handle fuel (MachineRefillEvent q i) σ refillSubscriber
                 (MachineRefillSubscriber_handle (MachineRefillEvent q i) (world σ)).1);
        [|done|done|by apply (wired_lookup σ (MachineRefillEvent q i))|].
      * unfold settle. by rewrite Hc.
      * simpl. rewrite <- Hc. by destruct (MachineRefillSubscriber_handle _ _).
    + exists (followed (MachineRefillEvent q i)).
      split; [|right; split_and!; [done|by right|done|done]].
      rewrite (publish_chain type handle fuel (MachineRefillEvent q i) σ refillSubscriber
                 (MachineRefillSubscriber_handle (MachineRefillEvent q i) (world σ)).1
                 (StockLevelOkEvent i) stockWarningSubscriber
                 (settle (MachineRefillEvent q i) (world σ)));
        [done|done|done|by apply (wired_lookup σ (MachineRefillEvent q i))|
         |by apply (wired_lookup σ (StockLevelOkEvent i))|].
      * simpl. rewrite <- Hc. by destruct (MachineRefillSubscriber_handle _ _).
      * unfold settle. rewrite Hc. cbn [warn foldl handle]. apply tracker_no_calls.
  - exists (alone (LowStockWarningEvent i)). split.
    + rewrite (publish_single type handle fuel (LowStockWarningEvent i) σ
                 stockWarningSubscriber
                 (settle (LowStockWarningEvent i) (world σ)));
        [done|done|done|by apply (wired_lookup σ (LowStockWarningEvent i))|].
      apply tracker_no_calls.
    + left. split; [done|]. cbn [subscriber_of handle]. by rewrite tracker_no_calls.
  - exists (alone (StockLevelOkEvent i)). split.
    + rewrite (publish_single type handle fuel (StockLevelOkEvent i) σ
                 stockWarningSubscriber
                 (settle (StockLevelOkEvent i) (world σ)));
        [done|done|done|by apply (wired_lookup σ (StockLevelOkEvent i))|].
      apply tracker_no_calls.
    + left. split; [done|]. cbn [subscriber_of handle]. by rewrite tracker_no_calls.
Qed.

Lemma publish_each_wired fuel events : ∀ σ,
  wired σ →
  ∃ t, publish_each (8 + fuel) events σ =
         Some (Returned,
               mkSystem (svc σ) (foldl (fun w e => settle e w) (world σ) events)
                        (trace σ ++ t)).
Proof.
  induction events as [|e events IH]; intros σ Hw.
  - exists []. rewrite app_nil_r. by destruct σ.
  - destruct (publish_wired fuel e σ Hw) as (t & Hpub & _).
    destruct (IH (mkSystem (svc σ) (settle e (world σ)) (trace σ ++ t)))
      as (t' & Hrest); [done|].
    exists (t ++ t'). cbn [publish_each]. rewrite Hpub, Hrest. simpl.
    by rewrite app_assoc.
Qed.

(** *** What a publish by the driver makes of the world *)

Lemma settle_sale q i w :
  settle (MachineSaleEvent q i) w =
    match find_machine i (machines w) with
    | None => w
    | Some m =>
        let level := (stockLevel m - q)%Z in
        let w1 := console_log (LogSold i level)
                    (with_machines (set_stockLevel i level (machines w)) w) in
        if decide (level < 3)%Z
        then (StockWarningSubscriber_handle (LowStockWarningEvent i)
                (console_log (LogLowStock i level) w1)).1
        else w1
    end.
Proof.
  unfold settle. destruct (find_machine i (machines w)) as [m|] eqn:Hfind.
  - rewrite (sale_handle_found q i w m Hfind). cbn zeta. by case_decide.
  - unfold MachineSaleSubscriber_handle. simpl. by rewrite Hfind.
Qed.

Lemma settle_refill q i w :
  settle (MachineRefillEvent q i) w =
    match find_machine i (machines w) with
    | None => w
    | Some m =>
        let level := (stockLevel m + q)%Z in
        let w1 := console_log (LogRefilled i level)
                    (with_machines (set_stockLevel i level (machines w)) w) in
        if decide (3 ≤ level)%Z
        then (StockWarningSubscriber_handle (StockLevelOkEvent i)
                (console_log (LogStockOk i level) w1)).1
        else w1
    end.
Proof.
  unfold settle. destruct (find_machine i (machines w)) as [m|] eqn:Hfind.
  - rewrite (refill_handle_found q i w m Hfind). cbn zeta. by case_decide.
  - unfold MachineRefillSubscriber_handle. simpl. by rewrite Hfind.
Qed.

Lemma settle_machines e w :
  machines (settle e w) =
    match find_machine (machineId e) (machines w) with
    | Some m =>
        set_stockLevel (machineId e)
          (stockLevel m + stock_change (machineId e) e) (machines w)
    | None => machines w
    end.
Proof.
  destruct e as [q i|q i|i|i]; cbn [machineId stock_change].
  - rewrite settle_sale. rewrite decide_True by done.
    destruct (find_machine i (machines w)) as [m|]; [|done].
    cbn zeta. case_decide; rewrite ?tracker_machines; simpl; f_equal; lia.
  - rewrite settle_refill. rewrite decide_True by done.
    destruct (find_machine i (machines w)) as [m|]; [|done].
    cbn zeta. case_decide; rewrite ?tracker_machines; simpl; f_equal; lia.
  - unfold settle. rewrite tracker_machines.
    destruct (find_machine i (machines w)) as [m|] eqn:Hfind; [|done].
    replace (stockLevel m + 0)%Z with (stockLevel m) by lia.
    by rewrite (set_stockLevel_same _ _ _ Hfind).
  - unfold settle. rewrite tracker_machines.
    destruct (find_machine i (machines w)) as [m|] eqn:Hfind; [|done].
    replace (stockLevel m + 0)%Z with (stockLevel m) by lia.
    by rewrite (set_stockLevel_same _ _ _ Hfind).
Qed.

Lemma stock_change_other i e : machineId e ≠ i → stock_change i e = 0%Z.
Proof. intros Hne. destruct e; simpl in *; [by rewrite decide_False..|done|done]. Qed.

Lemma settle_find i e w :
  find_machine i (machines (settle e w)) =
    (fun m => mkMachine (stockLevel m + stock_change i e) (id m)) <$>
      find_machine i (machines w).
Proof.
  rewrite settle_machines. destruct (decide (machineId e = i)) as [<-|Hne].
  - destruct (find_machine (machineId e) (machines w)) as [m|] eqn:Hfind.
    + rewrite (find_machine_set_stockLevel _ _ _ _ Hfind). simpl.
      by rewrite (find_machine_id _ _ _ Hfind).
    + by rewrite Hfind.
  - rewrite (stock_change_other i e) by done.
    assert (Hsame : find_machine i (machines w) =
              (fun m => mkMachine (stockLevel m + 0) (id m)) <$>
                find_machine i (machines w)).
    { destruct (find_machine i (machines w)) as [[level j]|]; simpl; [|done].
      do 2 f_equal. lia. }
    destruct (find_machine (machineId e) (machines w)) as [m|]; [|done].
    by rewrite find_machine_set_stockLevel_ne by done.
Qed.

Lemma settle_ids e w : map id (machines (settle e w)) = map id (machines w).
Proof.
  rewrite settle_machines.
  destruct (find_machine (machineId e) (machines w)); [|done].
  apply map_id_set_stockLevel.
Qed.

Lemma settle_unknown e w :
  find_machine (machineId e) (machines w) = None →
  type e = "sale" ∨ type e = "refill" →
  settle e w = w.
Proof.
  intros Hfind [Hkind|Hkind]; destruct e; try done; simpl in Hfind.
  - by rewrite settle_sale, Hfind.
  - by rewrite settle_refill, Hfind.
Qed.

Lemma settle_in_step e w : not_negative e → in_step w → in_step (settle e w).
Proof.
  intros Hq Hstep. destruct e as [q i0|q i0|?|?]; simpl in Hq; [| |done..].
  - rewrite settle_sale.
    destruct (find_machine i0 (machines w)) as [m0|] eqn:Hfind; [|done].
    cbn zeta. case_decide as Hlow; intros i.
    + rewrite warned_low_stock, tracker_machines. simpl.
      destruct (decide (i0 = i)) as [<-|Hne].
      * split; [|done]. intros _. eexists. split; [by eapply find_machine_set_stockLevel|done].
      * rewrite find_machine_set_stockLevel_ne by done. apply Hstep.
    + simpl. change (warned i (console_log _ (with_machines _ w))) with (warned i w).
      destruct (decide (i0 = i)) as [<-|Hne].
      * rewrite (find_machine_set_stockLevel _ _ _ _ Hfind). split.
        -- intros Hwarned. apply Hstep in Hwarned as (m & Hm & Hlt).
           rewrite Hfind in Hm. simplify_eq. lia.
        -- intros (m & Hm & Hlt). simplify_eq/=. lia.
      * rewrite find_machine_set_stockLevel_ne by done. apply Hstep.
  - rewrite settle_refill.
    destruct (find_machine i0 (machines w)) as [m0|] eqn:Hfind; [|done].
    cbn zeta. case_decide as Hok; intros i.
    + rewrite warned_stock_ok, tracker_machines. simpl.
      destruct (decide (i0 = i)) as [<-|Hne].
      * rewrite (find_machine_set_stockLevel _ _ _ _ Hfind). split; [done|].
        intros (m & Hm & Hlt). simplify_eq/=. lia.
      * rewrite find_machine_set_stockLevel_ne by done. apply Hstep.
    + simpl. change (warned i (console_log _ (with_machines _ w))) with (warned i w).
      destruct (decide (i0 = i)) as [<-|Hne].
      * rewrite (find_machine_set_stockLevel _ _ _ _ Hfind). split.
        -- intros _. eexists. split; [done|]. simpl. lia.
        -- intros _. apply Hstep. exists m0. split; [done|]. lia.
      * rewrite find_machine_set_stockLevel_ne by done. apply Hstep.
Qed.

Lemma foldl_settle_find i events : ∀ w,
  find_machine i (machines (foldl (fun w e => settle e w) w events)) =
    (fun m => mkMachine (stockLevel m + total_change i events) (id m)) <$>
      find_machine i (machines w).
Proof.
  induction events as [|e events IH]; intros w; simpl.
  - destruct (find_machine i (machines w)) as [[level j]|]; simpl; [|done].
    do 2 f_equal. lia.
  - rewrite IH, settle_find.
    destruct (find_machine i (machines w)) as [m|]; simpl; [|done].
    do 2 f_equal. lia.
Qed.

Lemma foldl_settle_ids events : ∀ w,
  map id (machines (foldl (fun w e => settle e w) w events)) = map id (machines w).
Proof.
  induction events as [|e events IH]; intros w; simpl; [done|].
  by rewrite IH, settle_ids.
Qed.

Lemma foldl_settle_in_step events : ∀ w,
  Forall not_negative events → in_step w →
  in_step (foldl (fun w e => settle e w) w events).
Proof.
  induction events as [|e events IH]; intros w Hq Hstep; simpl; [done|].
  apply Forall_cons in Hq as [He Hq]. by apply IH, settle_in_step.
Qed.

Lemma in_step_normalCase : in_step normalCase_world.
Proof.
  intros i. split; [done|]. intros (m & Hfind & Hlt).
  unfold find_machine in Hfind. simpl in Hfind.
  repeat case_match; simplify_eq/=; lia.
Qed.

(** X12: a sale or a refill for a machine id that [find] does not find is
    handed to its subscriber and ignored: in the wiring of [normalCase]
    the publish returns, nothing is logged, no stock changes and no other
    event is published. *)
Theorem unknown_machine_is_ignored fuel e σ :
  wired σ →
  find_machine (machineId e) (machines (world σ)) = None →
  type e = "sale" ∨ type e = "refill" →
  publish type handle (8 + fuel) e σ =
    Some (Returned,
          mkSystem (svc σ) (world σ)
            (trace σ ++ [OEnq e; ODrainBegin; OShift e;
                         OHandle (subscriber_of e) e; ODrainEnd])).
Proof.
  intros Hw Hfind Hkind.
  destruct (publish_wired fuel e σ Hw)
    as (t & Hpub & [[-> _]|(_ & _ & _ & m & Hm)]).
  - rewrite Hpub. by rewrite settle_unknown.
  - congruence.
Qed.

(** X13: in the wiring of [normalCase] a publish by the driver, of any of
    the four kinds of event, returns without an exception and leaves the
    service idle with the same subscriptions.  The event is handled by the
    one subscriber of its kind; a sale or a refill can cause one more
    event, the low-stock warning or the stock-ok for the same machine,
    which the stock-warning subscriber handles after the first handler has
    returned, in the same drain. *)
Theorem publish_in_normalCase fuel e σ :
  wired σ →
  ∃ σ', publish type handle (8 + fuel) e σ = Some (Returned, σ') ∧
        wired σ' ∧
        (trace σ' = trace σ ++ [OEnq e; ODrainBegin; OShift e;
                                OHandle (subscriber_of e) e; ODrainEnd] ∨
         (type e = "sale" ∨ type e = "refill") ∧
         trace σ' = trace σ ++ [OEnq e; ODrainBegin; OShift e;
                                OHandle (subscriber_of e) e;
                                OEnq (follow_up e); OShift (follow_up e);
                                OHandle stockWarningSubscriber (follow_up e);
                                ODrainEnd]).
Proof.
  intros Hw.
  destruct (publish_wired fuel e σ Hw) as (t & Hpub & Ht).
  eexists. split; [exact Hpub|]. split; [done|]. simpl.
  destruct Ht as [[-> _]|(-> & Hkind & _)]; [by left|by right].
Qed.

(** X14: in the wiring of [normalCase], as long as the driver publishes
    sales and refills of quantities that are not negative, and quantities
    and stocks stay within the safe integers, the warning flag of every
    machine id says, after every publish, whether the machine is below 3;
    every such publish returns. *)
Theorem warning_flag_tracks_stock fuel events σ :
  wired σ →
  in_step (world σ) →
  Forall not_negative events →
  stays_safe events (world σ) = true →
  ∃ σ', publish_each (8 + fuel) events σ = Some (Returned, σ') ∧
        wired σ' ∧
        in_step (world σ').
Proof.
  intros Hw Hstep Hq _.
  destruct (publish_each_wired fuel events σ Hw) as (t & Hrun).
  eexists. split; [exact Hrun|]. split; [done|]. simpl.
  by apply foldl_settle_in_step.
Qed.

(** X15: in the wiring of [normalCase], and as long as quantities and
    stocks stay within the safe integers, the stock is kept exactly:
    after the driver published a list of events, of any kinds, the machine
    that [find] gives for an id has the stock it had plus the refills and
    minus the sales that named the id, whatever warnings were published on
    the way; no machine is added, removed or renamed. *)
Theorem stock_bookkeeping fuel events σ :
  wired σ →
  stays_safe events (world σ) = true →
  ∃ σ', publish_each (8 + fuel) events σ = Some (Returned, σ') ∧
        wired σ' ∧
        map id (machines (world σ')) = map id (machines (world σ)) ∧
        ∀ i, find_machine i (machines (world σ')) =
               (fun m => mkMachine (stockLevel m + total_change i events) (id m)) <$>
                 find_machine i (machines (world σ)).
Proof.
  intros Hw _.
  destruct (publish_each_wired fuel events σ Hw) as (t & Hrun).
  eexists. split; [exact Hrun|]. split; [done|]. simpl. split.
  - apply foldl_settle_ids.
  - intros i. apply foldl_settle_find.
Qed.

(** X16: what a sale and a refill write to the console, in the wiring of
    [normalCase] and with the warning flags in step with the stock.  A sale
    logs the new stock, logs that the machine is low whenever the new stock
    is below 3, and the low-stock warning of the stock-warning subscriber
    follows only when the stock was not below 3 before: once per crossing.
    A refill logs the new stock, logs that the stock is ok whenever it is
    at least 3, and the clearing follows only when the stock was below 3
    before. *)
Theorem warning_is_logged_on_crossing fuel q i m σ :
  wired σ →
  in_step (world σ) →
  find_machine i (machines (world σ)) = Some m →
  (∃ σ', publish type handle (8 + fuel) (MachineSaleEvent q i) σ =
           Some (Returned, σ') ∧
         console (world σ') =
           console (world σ) ++
           LogSold i (stockLevel m - q) ::
           (if decide (stockLevel m - q < 3)%Z
            then LogLowStock i (stockLevel m - q) ::
                 (if decide (stockLevel m < 3)%Z then [] else [LogWarning i])
            else [])) ∧
  (∃ σ', publish type handle (8 + fuel) (MachineRefillEvent q i) σ =
           Some (Returned, σ') ∧
         console (world σ') =
           console (world σ) ++
           LogRefilled i (stockLevel m + q) ::
           (if decide (3 ≤ stockLevel m + q)%Z
            then LogStockOk i (stockLevel m + q) ::
                 (if decide (stockLevel m < 3)%Z then [LogCleared i] else [])
            else [])).
Proof.
  intros Hw Hstep Hfind.
  assert (Hflag : warned i (world σ) = bool_decide (stockLevel m < 3)%Z).
  { destruct (warned i (world σ)) eqn:Hwarned.
    - apply Hstep in Hwarned as (m' & Hm' & Hlt). simplify_eq.
      by rewrite bool_decide_eq_true_2.
    - rewrite bool_decide_eq_false_2; [done|]. intros Hlt.
      assert (warned i (world σ) = true) by (apply Hstep; eauto). congruence. }
  split.
  - destruct (publish_wired fuel (MachineSaleEvent q i) σ Hw) as (t & Hpub & _).
    eexists. split; [exact Hpub|]. cbn [world]. rewrite settle_sale, Hfind.
    cbn zeta. destruct (decide (stockLevel m - q < 3)%Z) as [Hlow|Hhigh]; [|done].
    unfold StockWarningSubscriber_handle.
    change (warned i (console_log _ (console_log _ (with_machines _ (world σ)))))
      with (warned i (world σ)).
    rewrite Hflag. case_bool_decide; case_decide; try done; simpl;
      by rewrite <- !app_assoc.
  - destruct (publish_wired fuel (MachineRefillEvent q i) σ Hw) as (t & Hpub & _).
    eexists. split; [exact Hpub|]. cbn [world]. rewrite settle_refill, Hfind.
    cbn zeta. destruct (decide (3 ≤ stockLevel m + q)%Z) as [Hok|Hlow]; [|done].
    unfold StockWarningSubscriber_handle.
    change (warned i (console_log _ (console_log _ (with_machines _ (world σ)))))
      with (warned i (world σ)).
    rewrite Hflag. case_bool_decide; case_decide; try done; simpl;
      by rewrite <- !app_assoc.
Qed.

(** X17: quantities are not checked.  In the wiring of [normalCase] and
    with the warning flags in step with the stock, a sale of a negative
    quantity that takes a machine from below 3 to 3 or more leaves its
    warning flag set, and a refill of a negative quantity that takes a
    machine from 3 or more to below 3 leaves its flag clear: no event is
    published in either case, and the flag no longer says whether the
    machine is low. *)
Theorem negative_quantity_desynchronises fuel q i m σ :
  wired σ →
  in_step (world σ) →
  find_machine i (machines (world σ)) = Some m →
  ((stockLevel m < 3)%Z → (3 ≤ stockLevel m - q)%Z →
   ∃ σ', publish type handle (8 + fuel) (MachineSaleEvent q i) σ =
           Some (Returned, σ') ∧
         find_machine i (machines (world σ')) =
           Some (mkMachine (stockLevel m - q) i) ∧
         warned i (world σ') = true ∧
         enqueued (drop (length (trace σ)) (trace σ')) = [MachineSaleEvent q i]) ∧
  ((3 ≤ stockLevel m)%Z → (stockLevel m + q < 3)%Z →
   ∃ σ', publish type handle (8 + fuel) (MachineRefillEvent q i) σ =
           Some (Returned, σ') ∧
         find_machine i (machines (world σ')) =
           Some (mkMachine (stockLevel m + q) i) ∧
         warned i (world σ') = false ∧
         enqueued (drop (length (trace σ)) (trace σ')) = [MachineRefillEvent q i]).
Proof.
  intros Hw Hstep Hfind. split.
  - intros Hwas Hnow.
    assert (Hcalls : (handle (subscriber_of (MachineSaleEvent q i))
                        (MachineSaleEvent q i) (world σ)).2 = []).
    { cbn [subscriber_of handle]. rewrite (sale_handle_found q i _ m Hfind).
      cbn zeta. by rewrite decide_False by lia. }
    destruct (publish_wired fuel (MachineSaleEvent q i) σ Hw)
      as (t & Hpub & [[-> _]|(_ & _ & Hfollow & _)]); [|congruence].
    eexists. split; [exact Hpub|]. cbn [world trace].
    rewrite settle_sale, Hfind. cbn zeta. rewrite decide_False by lia.
    split_and!.
    + simpl. by eapply find_machine_set_stockLevel.
    + change (warned i (console_log _ (with_machines _ (world σ))))
        with (warned i (world σ)). apply Hstep. eauto.
    + by rewrite drop_app_length.
  - intros Hwas Hnow.
    assert (Hcalls : (handle (subscriber_of (MachineRefillEvent q i))
                        (MachineRefillEvent q i) (world σ)).2 = []).
    { cbn [subscriber_of handle]. rewrite (refill_handle_found q i _ m Hfind).
      cbn zeta. by rewrite decide_False by lia. }
    destruct (publish_wired fuel (MachineRefillEvent q i) σ Hw)
      as (t & Hpub & [[-> _]|(_ & _ & Hfollow & _)]); [|congruence].
    eexists. split; [exact Hpub|]. cbn [world trace].
    rewrite settle_refill, Hfind. cbn zeta. rewrite decide_False by lia.
    split_and!.
    + simpl. by eapply find_machine_set_stockLevel.
    + change (warned i (console_log _ (with_machines _ (world σ))))
        with (warned i (world σ)).
      destruct (warned i (world σ)) eqn:Hwarned; [|done].
      apply Hstep in Hwarned as (m' & Hm' & Hlt). simplify_eq. lia.
    + by rewrite drop_app_length.
Qed.

(** ** The generated events *)

Section GeneratorFacts.
Variable Math_random : nat → PrimFloat.float.

Lemma randomMachine_spec n :
  (randomMachine Math_random n).1 ∈ ["001"; "002"; "003"] ∧
  (randomMachine Math_random n).2 = S n.
Proof.
  unfold randomMachine. repeat case_match; simpl; (split; [|done]);
    rewrite !elem_of_cons; auto.
Qed.

Lemma eventGenerator_spec n :
  generated (eventGenerator Math_random n).1 ∧
  (eventGenerator Math_random n).2 = n + 3.
Proof.
  unfold eventGenerator.
  destruct (randomMachine_spec (S (S n))) as [Hid Hn].
  destruct (randomMachine Math_random (S (S n))) as [machine n'].
  simpl in Hid, Hn. subst n'.
  repeat case_match; simpl; (split; [|lia]); (split; [done|]);
    rewrite !elem_of_cons; auto.
Qed.

Lemma map_eventGenerator_spec items : ∀ n,
  Forall generated (map_eventGenerator Math_random items n).1 ∧
  length (map_eventGenerator Math_random items n).1 = length items ∧
  (map_eventGenerator Math_random items n).2 = n + 3 * length items.
Proof.
  induction items as [|item items IH]; intros n; simpl.
  - split_and!; [done|done|lia].
  - destruct (eventGenerator_spec n) as [Hgen Hn].
    destruct (eventGenerator Math_random n) as [event n1]. simpl in Hgen, Hn.
    destruct (IH n1) as (Hall & Hlen & Hn').
    destruct (map_eventGenerator Math_random items n1) as [events n2].
    simpl in *. split_and!; [by constructor|lia|lia].
Qed.

End GeneratorFacts.

Lemma generated_restocking e : generated e → not_negative e.
Proof.
  intros [_ Hq]. destruct e; simpl in *; try done;
    rewrite !elem_of_cons, elem_of_nil in Hq; lia.
Qed.

Lemma generated_change i e : generated e → (-2 ≤ stock_change i e ≤ 5)%Z.
Proof.
  intros [_ Hq]. destruct e; simpl in *; try done;
    rewrite !elem_of_cons, elem_of_nil in Hq; case_decide; lia.
Qed.

Lemma generated_total_change i events :
  Forall generated events →
  (-2 * Z.of_nat (length events) ≤ total_change i events ≤
   5 * Z.of_nat (length events))%Z.
Proof.
  induction 1 as [|e events He _ IH]; [simpl; lia|].
  pose proof (generated_change i e He). cbn [total_change foldr length] in *.
  fold (total_change i events). lia.
Qed.

Lemma find_machine_normalCase i m :
  find_machine i (machines normalCase_world) = Some m → stockLevel m = 10%Z.
Proof.
  unfold find_machine. simpl. intros Hfind. by repeat case_match; simplify_eq/=.
Qed.

(** X18: [randomMachine] returns one of the ids of the three machines of
    [normalCase] and draws one random number; [eventGenerator] returns a
    sale of 1 or 2 or a refill of 3 or 5, for one of these ids, and draws
    three random numbers, whatever numbers are drawn. *)
Theorem eventGenerator_range (Math_random : nat → PrimFloat.float) n :
  (randomMachine Math_random n).1 ∈ ["001"; "002"; "003"] ∧
  (randomMachine Math_random n).2 = S n ∧
  generated (eventGenerator Math_random n).1 ∧
  (eventGenerator Math_random n).2 = n + 3.
Proof.
  destruct (randomMachine_spec Math_random n), (eventGenerator_spec Math_random n).
  done.
Qed.

(** X19: whatever numbers [Math.random()] returns, the run of
    [normalCase] publishes its five events without an exception and ends
    with the service idle, the three machines in place, every stock
    between 0 and 35, and every warning flag saying whether the machine is
    below 3: with five sales of at most 2 the stock of 10 is never
    oversold. *)
Theorem normalCase_never_oversells (Math_random : nat → PrimFloat.float) fuel :
  ∃ σ, normalCase_run Math_random (8 + fuel) = Some (Returned, σ) ∧
       wired σ ∧
       map id (machines (world σ)) = ["001"; "002"; "003"] ∧
       Forall (fun m => (0 ≤ stockLevel m ≤ 35)%Z) (machines (world σ)) ∧
       in_step (world σ).
Proof.
  unfold normalCase_run, normalCase_events.
  destruct (map_eventGenerator_spec Math_random [1; 2; 3; 4; 5]%Z 0)
    as (Hgen & Hlen & _).
  set (events := (map_eventGenerator Math_random [1; 2; 3; 4; 5]%Z 0).1) in *.
  clearbody events.
  destruct (publish_each_wired fuel events normalCase wired_normalCase) as (t & Hrun).
  eexists. split; [exact Hrun|]. split; [done|]. cbn [world].
  assert (Hids : map id (machines (foldl (fun w e => settle e w)
                                      (world normalCase) events)) =
                 ["001"; "002"; "003"]) by (by rewrite foldl_settle_ids).
  split_and!; [done| |].
  - apply Forall_forall. intros m Hm.
    assert (Hfind : find_machine (id m)
                      (machines (foldl (fun w e => settle e w)
                                   (world normalCase) events)) = Some m).
    { apply find_machine_NoDup; [|done]. rewrite Hids.
      by apply (bool_decide_unpack _). }
    rewrite foldl_settle_find in Hfind.
    destruct (find_machine (id m) (machines (world normalCase))) as [m0|] eqn:Hm0;
      [|done].
    apply find_machine_normalCase in Hm0. injection Hfind as Hfind.
    apply (f_equal stockLevel) in Hfind. cbn [stockLevel] in Hfind.
    pose proof (generated_total_change (id m) events Hgen) as Hbounds.
    rewrite Hlen in Hbounds. cbn [length] in Hbounds. lia.
  - apply foldl_settle_in_step; [|apply in_step_normalCase].
    eapply Forall_impl; [exact Hgen|]. apply generated_restocking.
Qed.

(** ** Instances of the properties above *)

Lemma wf_demo_unsubscribing : wf_registry (svc demo_unsubscribing).
Proof. simpl. repeat apply wf_subscribe. apply wf_newPubSubService. Qed.

Lemma publish_without_subscribers_witness :
  isProcessing (svc demo_unsubscribing) = false ∧
  eventQueue (svc demo_unsubscribing) = [] ∧
  members (demo_type "Z") (svc demo_unsubscribing) = [] ∧
  ∃ fuel, ∀ fuel', fuel ≤ fuel' →
    publish demo_type demo_handle fuel' "Z" demo_unsubscribing =
      Some (Returned,
            mkSystem (svc demo_unsubscribing) (world demo_unsubscribing)
              (trace demo_unsubscribing ++
               [OEnq "Z"; ODrainBegin; OShift "Z"; ODrainEnd])).
Proof.
  split_and!; [reflexivity..|].
  exact (publish_without_subscribers demo_type demo_handle "Z" demo_unsubscribing
           eq_refl eq_refl eq_refl).
Defined.

Lemma unsubscribe_unregistered_witness :
  (refillSubscriber ∉ members "sale" (svc normalCase)) ∧
  unsubscribe "sale" refillSubscriber (svc normalCase) = svc normalCase.
Proof.
  assert (refillSubscriber ∉ members "sale" (svc normalCase)) as Hout.
  { vm_compute. intros Hin. apply list_elem_of_singleton in Hin. discriminate. }
  split; [exact Hout|].
  exact (unsubscribe_unregistered "sale" refillSubscriber (svc normalCase) Hout).
Defined.

Lemma resubscribe_moves_last_witness :
  wf_registry (svc demo_unsubscribing) ∧
  members "E" (subscribe "E" 1 (unsubscribe "E" 1 (svc demo_unsubscribing))) =
    filter (fun s' => s' ≠ 1) (members "E" (svc demo_unsubscribing)) ++ [1] ∧
  ∀ key', key' ≠ "E" →
    members key' (subscribe "E" 1 (unsubscribe "E" 1 (svc demo_unsubscribing))) =
      members key' (svc demo_unsubscribing).
Proof.
  split; [exact wf_demo_unsubscribing|].
  exact (resubscribe_moves_last "E" 1 (svc demo_unsubscribing) wf_demo_unsubscribing).
Defined.

Lemma calls_for_different_kinds_commute_witness :
  "sale" ≠ "refill" ∧
  subscribe "sale" refillSubscriber
    (subscribe "refill" saleSubscriber (svc normalCase)) =
    subscribe "refill" saleSubscriber
      (subscribe "sale" refillSubscriber (svc normalCase)) ∧
  subscribe "sale" refillSubscriber
    (unsubscribe "refill" saleSubscriber (svc normalCase)) =
    unsubscribe "refill" saleSubscriber
      (subscribe "sale" refillSubscriber (svc normalCase)) ∧
  unsubscribe "sale" refillSubscriber
    (unsubscribe "refill" saleSubscriber (svc normalCase)) =
    unsubscribe "refill" saleSubscriber
      (unsubscribe "sale" refillSubscriber (svc normalCase)).
Proof.
  assert ("sale" ≠ "refill") as Hne by discriminate.
  split; [exact Hne|].
  exact (calls_for_different_kinds_commute "sale" "refill" refillSubscriber
           saleSubscriber (svc normalCase) Hne).
Defined.

Lemma publish_keeps_registrations_witness :
  publish type handle 10 (MachineSaleEvent 8 "001") normalCase =
    Some (Returned, after_sale_8) ∧
  trace after_sale_8 = trace normalCase ++ drop 4 (trace after_sale_8) ∧
  (∀ key, untouched key (drop 4 (trace after_sale_8)) →
          subscribers (svc after_sale_8) !! key = subscribers (svc normalCase) !! key) ∧
  (∀ key, is_Some (subscribers (svc normalCase) !! key) →
          is_Some (subscribers (svc after_sale_8) !! key)) ∧
  (∀ key s, s ∈ members key (svc after_sale_8) →
            s ∈ members key (svc normalCase) ∨
            OSubscribe key s ∈ drop 4 (trace after_sale_8)) ∧
  (∀ key s, s ∈ members key (svc normalCase) →
            s ∈ members key (svc after_sale_8) ∨
            OUnsubscribe key s ∈ drop 4 (trace after_sale_8)).
Proof.
  assert (publish type handle 10 (MachineSaleEvent 8 "001") normalCase =
            Some (Returned, after_sale_8)) as Hpub by (vm_compute; reflexivity).
  assert (trace after_sale_8 = trace normalCase ++ drop 4 (trace after_sale_8))
    as Htrace by (vm_compute; reflexivity).
  split; [exact Hpub|]. split; [exact Htrace|].
  exact (publish_keeps_registrations type handle 10 (MachineSaleEvent 8 "001")
           normalCase Returned after_sale_8 (drop 4 (trace after_sale_8))
           Hpub Htrace).
Defined.

Lemma quiet_publish_is_a_fold_witness :
  (∀ (s : nat) (e : string) (w : list nat), (w ++ [s], @nil (Call string nat)).2 = []) ∧
  isProcessing (svc demo_unsubscribing) = false ∧
  eventQueue (svc demo_unsubscribing) = [] ∧
  ∃ fuel, ∀ fuel', fuel ≤ fuel' →
    publish demo_type (fun s _ w => (w ++ [s], [])) fuel' "E"
      (mkSystem (svc demo_unsubscribing) [] []) =
      Some (Returned,
            mkSystem (svc demo_unsubscribing) [1; 2]
              [OEnq "E"; ODrainBegin; OShift "E"; OHandle 1 "E"; OHandle 2 "E";
               ODrainEnd]).
Proof.
  split_and!; [reflexivity..|].
  exact (quiet_publish_is_a_fold demo_type (fun s _ w => (w ++ [s], []))
           (fun _ _ _ => eq_refl) "E" (mkSystem (svc demo_unsubscribing) [] [])
           eq_refl eq_refl).
Defined.

Lemma republished_event_never_ends_witness :
  (∀ w : unit, (w, [CallPublish (Sub := nat) "S"]).2 = [CallPublish "S"]) ∧
  isProcessing (svc demo_subscribing) = false ∧
  eventQueue (svc demo_subscribing) = [] ∧
  subscribers (svc demo_subscribing) !! demo_type "S" = Some [Some 4] ∧
  ∀ fuel,
    publish demo_type (fun _ e w => (w, [CallPublish e])) fuel "S" demo_subscribing =
      None.
Proof.
  split_and!; [reflexivity..|].
  exact (republished_event_never_ends demo_type (fun _ e w => (w, [CallPublish e]))
           "S" 4 demo_subscribing (fun _ => eq_refl) eq_refl eq_refl eq_refl).
Defined.

Lemma sale_refill_roundtrip_witness :
  find_machine "001" (machines normalCase_world) = Some (newMachine "001") ∧
  safe (stockLevel (newMachine "001")) = true ∧
  safe 8 = true ∧
  safe (stockLevel (newMachine "001") - 8) = true ∧
  safe (stockLevel (newMachine "001") + 8) = true ∧
  machines (MachineRefillSubscriber_handle (MachineRefillEvent 8 "001")
              (MachineSaleSubscriber_handle (MachineSaleEvent 8 "001")
                 normalCase_world).1).1 =
    machines normalCase_world ∧
  machines (MachineSaleSubscriber_handle (MachineSaleEvent 8 "001")
              (MachineRefillSubscriber_handle (MachineRefillEvent 8 "001")
                 normalCase_world).1).1 =
    machines normalCase_world.
Proof.
  do 5 (split; [reflexivity|]).
  exact (sale_refill_roundtrip 8 "001" normalCase_world (newMachine "001")
           eq_refl eq_refl eq_refl eq_refl eq_refl).
Defined.

(** Quantities on which binary64 rounds are not within the safe integers. *)
Example rounded_quantities_are_not_safe :
  safe (2 ^ 60) = false ∧
  stays_safe [MachineRefillEvent (2 ^ 53) "001"; MachineSaleEvent 1 "001"]
    normalCase_world = false.
Proof. split; reflexivity. Qed.

Lemma unknown_machine_is_ignored_witness :
  wired normalCase ∧
  find_machine (machineId (MachineSaleEvent 1 "004")) (machines (world normalCase)) =
    None ∧
  (type (MachineSaleEvent 1 "004") = "sale" ∨
   type (MachineSaleEvent 1 "004") = "refill") ∧
  publish type handle (8 + 0) (MachineSaleEvent 1 "004") normalCase =
    Some (Returned,
          mkSystem (svc normalCase) (world normalCase)
            (trace normalCase ++
             [OEnq (MachineSaleEvent 1 "004"); ODrainBegin;
              OShift (MachineSaleEvent 1 "004");
              OHandle (subscriber_of (MachineSaleEvent 1 "004"))
                (MachineSaleEvent 1 "004");
              ODrainEnd])).
Proof.
  split_and!; [exact wired_normalCase|reflexivity|left; reflexivity|].
  exact (unknown_machine_is_ignored 0 (MachineSaleEvent 1 "004") normalCase
           wired_normalCase eq_refl (or_introl eq_refl)).
Defined.

Lemma publish_in_normalCase_witness :
  wired normalCase ∧
  ∃ σ', publish type handle (8 + 0) (MachineSaleEvent 8 "001") normalCase =
          Some (Returned, σ') ∧
        wired σ' ∧
        (trace σ' = trace normalCase ++
           [OEnq (MachineSaleEvent 8 "001"); ODrainBegin;
            OShift (MachineSaleEvent 8 "001");
            OHandle (subscriber_of (MachineSaleEvent 8 "001"))
              (MachineSaleEvent 8 "001");
            ODrainEnd] ∨
         (type (MachineSaleEvent 8 "001") = "sale" ∨
          type (MachineSaleEvent 8 "001") = "refill") ∧
         trace σ' = trace normalCase ++
           [OEnq (MachineSaleEvent 8 "001"); ODrainBegin;
            OShift (MachineSaleEvent 8 "001");
            OHandle (subscriber_of (MachineSaleEvent 8 "001"))
              (MachineSaleEvent 8 "001");
            OEnq (follow_up (MachineSaleEvent 8 "001"));
            OShift (follow_up (MachineSaleEvent 8 "001"));
            OHandle stockWarningSubscriber (follow_up (MachineSaleEvent 8 "001"));
            ODrainEnd]).
Proof.
  split; [exact wired_normalCase|].
  exact (publish_in_normalCase 0 (MachineSaleEvent 8 "001") normalCase
           wired_normalCase).
Defined.

Lemma warning_flag_tracks_stock_witness :
  wired normalCase ∧
  in_step (world normalCase) ∧
  Forall not_negative
    [MachineSaleEvent 8 "001"; MachineSaleEvent 1 "001"; MachineRefillEvent 5 "001"] ∧
  stays_safe
    [MachineSaleEvent 8 "001"; MachineSaleEvent 1 "001"; MachineRefillEvent 5 "001"]
    (world normalCase) = true ∧
  ∃ σ', publish_each (8 + 0)
          [MachineSaleEvent 8 "001"; MachineSaleEvent 1 "001";
           MachineRefillEvent 5 "001"] normalCase = Some (Returned, σ') ∧
        wired σ' ∧
        in_step (world σ').
Proof.
  assert (Forall not_negative
            [MachineSaleEvent 8 "001"; MachineSaleEvent 1 "001";
             MachineRefillEvent 5 "001"]) as Hq.
  { repeat constructor; simpl; lia. }
  split_and!; [exact wired_normalCase|exact in_step_normalCase|exact Hq
              |reflexivity|].
  exact (warning_flag_tracks_stock 0 _ normalCase
           wired_normalCase in_step_normalCase Hq eq_refl).
Defined.

Lemma stock_bookkeeping_witness :
  wired normalCase ∧
  stays_safe [MachineSaleEvent 8 "001"; MachineRefillEvent 5 "002"]
    (world normalCase) = true ∧
  ∃ σ', publish_each (8 + 0)
          [MachineSaleEvent 8 "001"; MachineRefillEvent 5 "002"] normalCase =
          Some (Returned, σ') ∧
        wired σ' ∧
        map id (machines (world σ')) = map id (machines (world normalCase)) ∧
        ∀ i, find_machine i (machines (world σ')) =
               (fun m => mkMachine
                           (stockLevel m +
                            total_change i [MachineSaleEvent 8 "001";
                                            MachineRefillEvent 5 "002"])
                           (id m)) <$>
                 find_machine i (machines (world normalCase)).
Proof.
  split; [exact wired_normalCase|]. split; [reflexivity|].
  exact (stock_bookkeeping 0 [MachineSaleEvent 8 "001"; MachineRefillEvent 5 "002"]
           normalCase wired_normalCase eq_refl).
Defined.

Lemma wired_after_sale_8 : wired after_sale_8.
Proof. split_and!; vm_compute; reflexivity. Qed.

Lemma in_step_after_sale_8 : in_step (world after_sale_8).
Proof.
  change (world after_sale_8)
    with (settle (MachineSaleEvent 8 "001") normalCase_world).
  apply settle_in_step; [simpl; lia|apply in_step_normalCase].
Qed.

Lemma warning_is_logged_on_crossing_witness :
  wired after_sale_8 ∧
  in_step (world after_sale_8) ∧
  find_machine "001" (machines (world after_sale_8)) = Some (mkMachine 2 "001") ∧
  (∃ σ', publish type handle (8 + 0) (MachineSaleEvent 1 "001") after_sale_8 =
           Some (Returned, σ') ∧
         console (world σ') =
           console (world after_sale_8) ++
           LogSold "001" (stockLevel (mkMachine 2 "001") - 1) ::
           (if decide (stockLevel (mkMachine 2 "001") - 1 < 3)%Z
            then LogLowStock "001" (stockLevel (mkMachine 2 "001") - 1) ::
                 (if decide (stockLevel (mkMachine 2 "001") < 3)%Z
                  then [] else [LogWarning "001"])
            else [])) ∧
  (∃ σ', publish type handle (8 + 0) (MachineRefillEvent 1 "001") after_sale_8 =
           Some (Returned, σ') ∧
         console (world σ') =
           console (world after_sale_8) ++
           LogRefilled "001" (stockLevel (mkMachine 2 "001") + 1) ::
           (if decide (3 ≤ stockLevel (mkMachine 2 "001") + 1)%Z
            then LogStockOk "001" (stockLevel (mkMachine 2 "001") + 1) ::
                 (if decide (stockLevel (mkMachine 2 "001") < 3)%Z
                  then [LogCleared "001"] else [])
            else [])).
Proof.
  split_and!; [exact wired_after_sale_8|exact in_step_after_sale_8|reflexivity|..];
    apply (warning_is_logged_on_crossing 0 1 "001" (mkMachine 2 "001") after_sale_8
             wired_after_sale_8 in_step_after_sale_8 eq_refl).
Defined.

Lemma negative_quantity_desynchronises_witness :
  wired after_sale_8 ∧
  in_step (world after_sale_8) ∧
  find_machine "001" (machines (world after_sale_8)) = Some (mkMachine 2 "001") ∧
  (stockLevel (mkMachine 2 "001") < 3)%Z ∧
  (3 ≤ stockLevel (mkMachine 2 "001") - -5)%Z ∧
  ∃ σ', publish type handle (8 + 0) (MachineSaleEvent (-5) "001") after_sale_8 =
          Some (Returned, σ') ∧
        find_machine "001" (machines (world σ')) =
          Some (mkMachine (stockLevel (mkMachine 2 "001") - -5) "001") ∧
        warned "001" (world σ') = true ∧
        enqueued (drop (length (trace after_sale_8)) (trace σ')) =
          [MachineSaleEvent (-5) "001"].
Proof.
  assert (stockLevel (mkMachine 2 "001") < 3)%Z as Hwas by (simpl; lia).
  assert (3 ≤ stockLevel (mkMachine 2 "001") - -5)%Z as Hnow by (simpl; lia).
  split_and!; [exact wired_after_sale_8|exact in_step_after_sale_8|reflexivity
              |exact Hwas|exact Hnow|].
  exact (proj1 (negative_quantity_desynchronises 0 (-5) "001" (mkMachine 2 "001")
                  after_sale_8 wired_after_sale_8 in_step_after_sale_8 eq_refl)
           Hwas Hnow).
Defined.

